(** * GraphicsDX12: frame-resource ring, constant-buffer uploads and
      procedural geometry of ShapesApp and TreeBillboardsApp

    A shallow embedding of the parts of [ShapesApp.cpp] and
    [TreeBillboardsApp.cpp] that carry the frame-resource fencing scheme,
    the per-frame constant-buffer and wave vertex-buffer uploads, the
    material table, and the index/vertex packing of the procedural meshes
    and of the tree sprites.

    Conventions.
    - [UINT64] and [int] values are [Z]; the wrap-around of [++mCurrentFence]
      is written out with [wrap64].  C++ [/] and [%] on [int] are [Z.quot]
      and [Z.rem].
    - [std::vector] is [list], indexed with stdpp's lookup [!!] and updated
      with [<[ i := x ]>]; an out-of-range access is undefined behaviour in
      the source and is the failure [None] here.
    - [float] is a type with the operations the source uses ([FloatOps]);
      two implementations are given, IEEE-754 binary32 ([ieee32]) and exact
      rational arithmetic ([exactQ]).
    - [std::unordered_map] is the list of its entries in iteration order
      where the order matters ([mMaterials]) and a [gmap] where it is only
      looked up ([DrawArgs]).
    - Functions that fail or block return [option]. *)

From Stdlib Require Import ZArith Lia QArith Qfield Lqa Floats.SpecFloat Sorting.Sorted.
From stdpp Require Import base option list strings gmap.

#[local] Open Scope Z_scope.

(** ** Machine integers *)

Definition UINT64_MOD : Z := 2 ^ 64.
Definition UINT16_MOD : Z := 2 ^ 16.

(** Unsigned 64-bit wrap-around, as for [UINT64] arithmetic. *)
Definition wrap64 (x : Z) : Z := x mod UINT64_MOD.

(** Conversion of an [int] to [std::uint16_t]. *)
Definition to_uint16 (x : Z) : Z := x mod UINT16_MOD.

(** [const int gNumFrameResources = 3;] (both applications). *)
Definition gNumFrameResources : Z := 3.

(** ** Floating point *)

(** The operations on [float] that the modelled code uses.  [of_int] is the
    implicit conversion of an [int] operand; [sinf] and [cosf] are the C
    library functions. *)
Class FloatOps (F : Type) := {
  fadd : F -> F -> F;
  fsub : F -> F -> F;
  fmul : F -> F -> F;
  fdiv : F -> F -> F;
  fsqrt : F -> F;
  fle : F -> F -> bool;
  flt : F -> F -> bool;
  of_int : Z -> F;
  sinf : F -> F;
  cosf : F -> F
}.

Section FloatLiterals.
Context {F : Type} `{FloatOps F}.

(** A decimal literal [n/d] with both parts exactly representable: the
    correctly rounded quotient is the value of the literal. *)
Definition flit (n d : Z) : F := fdiv (of_int n) (of_int d).

Definition fge (a b : F) : bool := fle b a.
Definition fgt (a b : F) : bool := flt b a.
End FloatLiterals.

(** ** DirectXMath storage types *)

Section Types.
Context {F : Type}.

Record XMFLOAT2 := mkFloat2 { x2 : F; y2 : F }.
Record XMFLOAT3 := mkFloat3 { x3 : F; y3 : F; z3 : F }.
Record XMFLOAT4 := mkFloat4 { x4 : F; y4 : F; z4 : F; w4 : F }.

(** [XMFLOAT4X4]: four rows [_1x .. _4x]. *)
Record XMFLOAT4X4 := mkFloat4x4 {
  row1 : XMFLOAT4; row2 : XMFLOAT4; row3 : XMFLOAT4; row4 : XMFLOAT4 }.

(** [XMMatrixTranspose]: rows become columns. *)
Definition XMMatrixTranspose (m : XMFLOAT4X4) : XMFLOAT4X4 :=
  let '(mkFloat4x4 a b c d) := m in
  mkFloat4x4
    (mkFloat4 (x4 a) (x4 b) (x4 c) (x4 d))
    (mkFloat4 (y4 a) (y4 b) (y4 c) (y4 d))
    (mkFloat4 (z4 a) (z4 b) (z4 c) (z4 d))
    (mkFloat4 (w4 a) (w4 b) (w4 c) (w4 d)).

(** [struct Vertex] of FrameResource.h: position, normal, texture
    coordinate. *)
Record Vertex := mkVertex { Pos : XMFLOAT3; Normal : XMFLOAT3; TexC : XMFLOAT2 }.

(** [GeometryGenerator::Vertex], of which the code reads three fields. *)
Record GVertex := mkGVertex {
  Position : XMFLOAT3; GNormal : XMFLOAT3; GTexC : XMFLOAT2 }.

(** [struct ObjectConstants]. *)
Record ObjectConstants := mkObjectConstants {
  OC_World : XMFLOAT4X4; OC_TexTransform : XMFLOAT4X4 }.

(** [struct RenderItem], the fields [UpdateObjectCBs] reads or writes. *)
Record RenderItem := mkRenderItem {
  World : XMFLOAT4X4;
  TexTransform : XMFLOAT4X4;
  NumFramesDirty : Z;
  ObjCBIndex : Z }.

Definition set_NumFramesDirty (n : Z) (e : RenderItem) : RenderItem :=
  mkRenderItem (World e) (TexTransform e) n (ObjCBIndex e).

(** [UploadBuffer<T>::CopyData(elementIndex, data)]: overwrite one element
    of the mapped buffer.  The source does not check the index. *)
Definition CopyData {T : Type} (elementIndex : Z) (data : T) (buf : list T)
  : option (list T) :=
  if (0 <=? elementIndex) && (elementIndex <? Z.of_nat (length buf))
  then Some (<[ Z.to_nat elementIndex := data ]> buf)
  else None.

(** [struct FrameResource]: the object constant buffer, the dynamic wave
    vertex buffer and the fence value of the last submission that used
    this frame resource. *)
Record FrameResource := mkFrameResource {
  ObjectCB : list ObjectConstants;
  WavesVB : list Vertex;
  Fence : Z }.

Definition set_Fence (v : Z) (fr : FrameResource) : FrameResource :=
  mkFrameResource (ObjectCB fr) (WavesVB fr) v.
Definition set_ObjectCB (cb : list ObjectConstants) (fr : FrameResource)
  : FrameResource :=
  mkFrameResource cb (WavesVB fr) (Fence fr).
Definition set_WavesVB (vb : list Vertex) (fr : FrameResource)
  : FrameResource :=
  mkFrameResource (ObjectCB fr) vb (Fence fr).
End Types.

Arguments XMFLOAT2 : clear implicits.
Arguments XMFLOAT3 : clear implicits.
Arguments XMFLOAT4 : clear implicits.
Arguments XMFLOAT4X4 : clear implicits.
Arguments Vertex : clear implicits.
Arguments GVertex : clear implicits.
Arguments ObjectConstants : clear implicits.
Arguments RenderItem : clear implicits.
Arguments FrameResource : clear implicits.

(** ** The GPU side of the fence

    [ID3D12CommandQueue::Signal(fence, v)] appends a command that sets the
    fence to [v] once everything queued before it has run; the GPU consumes
    the queue in order.  [pending] holds the fence values of the signals
    that have been queued and not yet reached. *)

Record GPU := mkGPU { GetCompletedValue : Z; pending : list Z }.

Definition Signal (v : Z) (g : GPU) : GPU :=
  mkGPU (GetCompletedValue g) (pending g ++ [v]).

(** One step of GPU progress: the next queued signal is reached. *)
Definition gpu_step (g : GPU) : GPU :=
  match pending g with
  | [] => g
  | v :: q => mkGPU v q
  end.

(** [SetEventOnCompletion(target, e); WaitForSingleObject(e, INFINITE)]:
    the calling thread sleeps while the GPU runs, and wakes as soon as the
    completed value is at least [target].  If the queue runs dry first the
    wait never returns ([None]). *)
Fixpoint wait_loop (target c : Z) (q : list Z) : option GPU :=
  if target <=? c then Some (mkGPU c q)
  else match q with
       | [] => None
       | v :: q' => wait_loop target v q'
       end.

Definition WaitForSingleObject (target : Z) (g : GPU) : option GPU :=
  wait_loop target (GetCompletedValue g) (pending g).

(** ** The wave simulation object

    [class Waves] is used through its public interface only: grid sizes,
    extents, the current solution, and the two mutators. *)
Class WavesOps (F W : Type) := {
  RowCount : W -> Z;
  ColumnCount : W -> Z;
  VertexCount : W -> Z;
  TriangleCount : W -> Z;
  Width : W -> F;
  Depth : W -> F;
  Waves_Position : W -> Z -> XMFLOAT3 F;
  Waves_Normal : W -> Z -> XMFLOAT3 F;
  Waves_Update : F -> W -> W;
  Waves_Disturb : Z -> Z -> F -> W -> W
}.

(** [GameTimer], read through [TotalTime()] and [DeltaTime()]. *)
Record GameTimer (F : Type) := mkGameTimer { TotalTime : F; DeltaTime : F }.
Arguments mkGameTimer {F}.
Arguments TotalTime {F}.
Arguments DeltaTime {F}.

(** ** MathHelper random numbers *)

(** [RAND_MAX] of the C runtime the projects are built with. *)
Definition RAND_MAX : Z := 32767.

(** Modelled from the spec: [MathHelper::Rand(a, b)] (Common/MathHelper.h is
    not part of the sources at hand) returns an integer of the closed range
    [a .. b], computed from one [rand()] result [r] as
    [a + r % ((b - a) + 1)].  The remainder by zero is undefined. *)
Definition Rand (a b r : Z) : option Z :=
  if (b - a) + 1 =? 0 then None else Some (a + Z.rem r ((b - a) + 1)).

Section RandF.
Context {F : Type} `{FloatOps F}.

(** Modelled from the spec: [MathHelper::RandF()] maps one [rand()] result
    to the unit interval, and [MathHelper::RandF(a, b)] scales it to
    [a .. b] as [a + RandF() * (b - a)]. *)
Definition RandF01 (r : Z) : F := fdiv (of_int r) (of_int RAND_MAX).
Definition RandF (a b : F) (r : Z) : F := fadd a (fmul (RandF01 r) (fsub b a)).
End RandF.

(** ** Application state *)

Section App.
Context {F W : Type} `{FloatOps F} `{WavesOps F W}.

(** The successive results of the C library's [rand()]. *)
Variable crand : nat -> Z.

(** The members of [ShapesApp] / [TreeBillboardsApp] (and of their base
    [D3DApp]) that the modelled functions touch.  [mCurrFrameResource] is
    the position in [mFrameResources] the pointer refers to ([None] for
    [nullptr]); [mFence] is the fence together with the command queue
    feeding it; [WavesVertexBufferGPU] is
    [mWavesRitem->Geo->VertexBufferGPU], the frame resource whose wave
    buffer it designates; [t_base] is the function-local static of
    [UpdateWaves] and [rand_calls] the number of [rand()] calls so far. *)
Record App := mkApp {
  mFrameResources : list (FrameResource F);
  mCurrFrameResource : option nat;
  mCurrFrameResourceIndex : Z;
  mCurrentFence : Z;
  mFence : GPU;
  mAllRitems : list (RenderItem F);
  mWaves : W;
  mTimer : GameTimer F;
  t_base : F;
  rand_calls : nat;
  WavesVertexBufferGPU : option nat }.

Definition set_mFrameResources v (s : App) : App :=
  mkApp v (mCurrFrameResource s) (mCurrFrameResourceIndex s) (mCurrentFence s)
    (mFence s) (mAllRitems s) (mWaves s) (mTimer s) (t_base s) (rand_calls s)
    (WavesVertexBufferGPU s).
Definition set_current (idx : Z) (p : option nat) (s : App) : App :=
  mkApp (mFrameResources s) p idx (mCurrentFence s)
    (mFence s) (mAllRitems s) (mWaves s) (mTimer s) (t_base s) (rand_calls s)
    (WavesVertexBufferGPU s).
Definition set_mCurrentFence v (s : App) : App :=
  mkApp (mFrameResources s) (mCurrFrameResource s) (mCurrFrameResourceIndex s) v
    (mFence s) (mAllRitems s) (mWaves s) (mTimer s) (t_base s) (rand_calls s)
    (WavesVertexBufferGPU s).
Definition set_mFence v (s : App) : App :=
  mkApp (mFrameResources s) (mCurrFrameResource s) (mCurrFrameResourceIndex s)
    (mCurrentFence s) v (mAllRitems s) (mWaves s) (mTimer s) (t_base s)
    (rand_calls s) (WavesVertexBufferGPU s).
Definition set_mAllRitems v (s : App) : App :=
  mkApp (mFrameResources s) (mCurrFrameResource s) (mCurrFrameResourceIndex s)
    (mCurrentFence s) (mFence s) v (mWaves s) (mTimer s) (t_base s)
    (rand_calls s) (WavesVertexBufferGPU s).
Definition set_waves (w : W) (tb : F) (n : nat) (vb : option nat) (s : App) : App :=
  mkApp (mFrameResources s) (mCurrFrameResource s) (mCurrFrameResourceIndex s)
    (mCurrentFence s) (mFence s) (mAllRitems s) w (mTimer s) tb n vb.
Definition set_mTimer v (s : App) : App :=
  mkApp (mFrameResources s) (mCurrFrameResource s) (mCurrFrameResourceIndex s)
    (mCurrentFence s) (mFence s) (mAllRitems s) (mWaves s) v (t_base s)
    (rand_calls s) (WavesVertexBufferGPU s).

(** *** Update: the ring and the fence wait *)

Definition INT_MAX : Z := 2147483647.

(** The part of [Update] shared verbatim by both applications:
<<
  mCurrFrameResourceIndex = (mCurrFrameResourceIndex + 1) % gNumFrameResources;
  mCurrFrameResource = mFrameResources[mCurrFrameResourceIndex].get();
  if(mCurrFrameResource->Fence != 0 &&
     mFence->GetCompletedValue() < mCurrFrameResource->Fence)
  { ... SetEventOnCompletion(Fence, e); WaitForSingleObject(e, INFINITE); ... }
>>
    The result records whether the wait branch was taken.  [None] is a
    fault (signed overflow, index outside the vector) or a wait that never
    returns. *)
Definition cycle_and_wait (s : App) : option (bool * App) :=
  if INT_MAX <=? mCurrFrameResourceIndex s then None else
  let idx := Z.rem (mCurrFrameResourceIndex s + 1) gNumFrameResources in
  if idx <? 0 then None else
  fr ← mFrameResources s !! Z.to_nat idx;
  let s1 := set_current idx (Some (Z.to_nat idx)) s in
  if negb (Fence fr =? 0) && (GetCompletedValue (mFence s1) <? Fence fr)
  then g ← WaitForSingleObject (Fence fr) (mFence s1);
       Some (true, set_mFence g s1)
  else Some (false, s1).

(** *** UpdateObjectCBs (identical in both applications) *)

Definition object_constants (e : RenderItem F) : ObjectConstants F :=
  mkObjectConstants (XMMatrixTranspose (World e))
                    (XMMatrixTranspose (TexTransform e)).

(** The [for(auto& e : mAllRitems)] loop: the items are visited in order,
    each dirty one is copied to its slot and has its counter decremented
    in place. *)
Fixpoint UpdateObjectCBs_loop (items : list (RenderItem F))
    (cb : list (ObjectConstants F))
  : option (list (RenderItem F) * list (ObjectConstants F)) :=
  match items with
  | [] => Some ([], cb)
  | e :: rest =>
      if 0 <? NumFramesDirty e then
        cb1 ← CopyData (ObjCBIndex e) (object_constants e) cb;
        '(rest', cb2) ← UpdateObjectCBs_loop rest cb1;
        Some (set_NumFramesDirty (NumFramesDirty e - 1) e :: rest', cb2)
      else
        '(rest', cb2) ← UpdateObjectCBs_loop rest cb;
        Some (e :: rest', cb2)
  end.

Definition UpdateObjectCBs (s : App) : option App :=
  cur ← mCurrFrameResource s;
  fr ← mFrameResources s !! cur;
  '(items, cb) ← UpdateObjectCBs_loop (mAllRitems s) (ObjectCB fr);
  Some (set_mAllRitems items
          (set_mFrameResources (<[ cur := set_ObjectCB cb fr ]> (mFrameResources s)) s)).

(** *** UpdateWaves (TreeBillboardsApp) *)

(** The vertex written to slot [i]. *)
Definition wave_vertex (w : W) (i : Z) : Vertex F :=
  let p := Waves_Position w i in
  mkVertex p (Waves_Normal w i)
    (mkFloat2 (fadd (flit 1 2) (fdiv (x3 p) (Width w)))
              (fsub (flit 1 2) (fdiv (z3 p) (Depth w)))).

(** [for(int i = 0; i < mWaves->VertexCount(); ++i) ... CopyData(i, v)],
    with [n] iterations left. *)
Fixpoint UpdateWaves_loop (w : W) (i : Z) (n : nat) (vb : list (Vertex F))
  : option (list (Vertex F)) :=
  match n with
  | O => Some vb
  | S n' => vb1 ← CopyData i (wave_vertex w i) vb;
            UpdateWaves_loop w (i + 1) n' vb1
  end.

(** The quarter-second gate.  The result is the [Disturb] call issued, if
    any, the new [t_base], the new [rand()] count and the waves. *)
Definition UpdateWaves_disturb (s : App)
  : option (option (Z * Z * F) * F * nat * W) :=
  if fge (fsub (TotalTime (mTimer s)) (t_base s)) (flit 1 4) then
    let n := rand_calls s in
    i ← Rand 4 (RowCount (mWaves s) - 5) (crand n);
    j ← Rand 4 (ColumnCount (mWaves s) - 5) (crand (S n));
    let r := RandF (flit 1 5) (flit 1 2) (crand (S (S n))) in
    Some (Some (i, j, r), fadd (t_base s) (flit 1 4), S (S (S n)),
          Waves_Disturb i j r (mWaves s))
  else Some (None, t_base s, rand_calls s, mWaves s).

Definition UpdateWaves (gt : GameTimer F) (s : App)
  : option (option (Z * Z * F) * App) :=
  '(d, tb, n, w1) ← UpdateWaves_disturb s;
  let w2 := Waves_Update (DeltaTime gt) w1 in
  cur ← mCurrFrameResource s;
  fr ← mFrameResources s !! cur;
  vb ← UpdateWaves_loop w2 0 (Z.to_nat (VertexCount w2)) (WavesVB fr);
  Some (d, set_waves w2 tb n (Some cur)
             (set_mFrameResources (<[ cur := set_WavesVB vb fr ]> (mFrameResources s)) s)).

(** *** The two Update functions

    [OnKeyboardInput], [UpdateCamera], [AnimateMaterials],
    [UpdateMaterialCBs] and [UpdateMainPassCB] read and write the camera,
    the material table and the material and pass constant buffers only,
    none of which is part of [App]. *)
Definition ShapesApp_Update (gt : GameTimer F) (s : App) : option (bool * App) :=
  '(waited, s1) ← cycle_and_wait s;
  s2 ← UpdateObjectCBs s1;
  Some (waited, s2).

Definition TreeBillboardsApp_Update (gt : GameTimer F) (s : App)
  : option (bool * option (Z * Z * F) * App) :=
  '(waited, s1) ← cycle_and_wait s;
  s2 ← UpdateObjectCBs s1;
  '(d, s3) ← UpdateWaves gt s2;
  Some (waited, d, s3).

(** *** Draw (the fence part is identical in both applications)
<<
  mCurrFrameResource->Fence = ++mCurrentFence;
  mCommandQueue->Signal(mFence.Get(), mCurrentFence);
>>
    Recording and submitting the command list does not change [App]. *)
Definition Draw (s : App) : option App :=
  cur ← mCurrFrameResource s;
  fr ← mFrameResources s !! cur;
  let f := wrap64 (mCurrentFence s + 1) in
  Some (set_mFence (Signal f (mFence s))
          (set_mFrameResources (<[ cur := set_Fence f fr ]> (mFrameResources s))
             (set_mCurrentFence f s))).

(** GPU progress, concurrent with the CPU. *)
Definition gpu_progress (s : App) : App := set_mFence (gpu_step (mFence s)) s.
End App.

(** ** Initialisation *)

Section Init.
Context {F W : Type} `{FloatOps F} `{WavesOps F W}.

(** [FrameResource::FrameResource(device, passCount, objectCount,
    materialCount, waveVertCount)]: upload buffers of the requested sizes,
    whose mapped memory holds [oc0] / [v0] before the first copy, and the
    member initialiser [UINT64 Fence = 0]. *)
Definition new_FrameResource (oc0 : ObjectConstants F) (v0 : Vertex F)
    (objectCount waveVertCount : Z) : FrameResource F :=
  mkFrameResource (replicate (Z.to_nat objectCount) oc0)
                  (replicate (Z.to_nat waveVertCount) v0) 0.

(** [for(int i = 0; i < gNumFrameResources; ++i) mFrameResources.push_back(...)]. *)
Definition BuildFrameResources (oc0 : ObjectConstants F) (v0 : Vertex F)
    (s : @App F W) : @App F W :=
  set_mFrameResources
    (Nat.iter (Z.to_nat gNumFrameResources)
       (fun frs => frs ++ [new_FrameResource oc0 v0
                             (Z.of_nat (length (mAllRitems s)))
                             (VertexCount (mWaves s))])
       (mFrameResources s))
    s.
End Init.

(** ** Runs of the message loop

    [D3DApp::Run] ticks [mTimer] and calls [Update(mTimer)] and
    [Draw(mTimer)]; the GPU advances on its own. *)

Inductive AppKind := Shapes | TreeBillboards.

Inductive Action (F : Type) :=
  | AUpdate (gt : GameTimer F)
  | ADraw
  | AGpu.
Arguments AUpdate {F}.
Arguments ADraw {F}.
Arguments AGpu {F}.

Section Run.
Context {F W : Type} `{FloatOps F} `{WavesOps F W}.
Variable crand : nat -> Z.

(** [Update] of either application, with the record of whether it
    waited. *)
Definition Update (k : AppKind) (gt : GameTimer F) (s : @App F W)
  : option (bool * @App F W) :=
  match k with
  | Shapes => ShapesApp_Update gt s
  | TreeBillboards =>
      '(waited, _, s') ← TreeBillboardsApp_Update crand gt s; Some (waited, s')
  end.

Definition step (k : AppKind) (a : Action F) (s : @App F W) : option (@App F W) :=
  match a with
  | AUpdate gt => snd <$> Update k gt (set_mTimer gt s)
  | ADraw => Draw s
  | AGpu => Some (gpu_progress s)
  end.

Fixpoint run (k : AppKind) (acts : list (Action F)) (s : @App F W)
  : option (@App F W) :=
  match acts with
  | [] => Some s
  | a :: rest => s1 ← step k a s; run k rest s1
  end.

(** The fence values assigned by the [Draw] calls of a run, in order. *)
Fixpoint fences_assigned (k : AppKind) (acts : list (Action F)) (s : @App F W)
  : list Z :=
  match acts with
  | [] => []
  | a :: rest =>
      match step k a s with
      | None => []
      | Some s1 =>
          match a with
          | ADraw => mCurrentFence s1 :: fences_assigned k rest s1
          | _ => fences_assigned k rest s1
          end
      end
  end.

Definition is_update (a : Action F) : bool :=
  match a with AUpdate _ => true | _ => false end.
Definition is_draw (a : Action F) : bool :=
  match a with ADraw => true | _ => false end.

Definition updates (acts : list (Action F)) : Z :=
  Z.of_nat (length (filter (fun a => is_update a = true) acts)).
Definition draws (acts : list (Action F)) : Z :=
  Z.of_nat (length (filter (fun a => is_draw a = true) acts)).
End Run.

(** ** Procedural geometry (TreeBillboardsApp) *)

Section Geometry.
Context {F W : Type} `{FloatOps F} `{WavesOps F W}.

(** [float TreeBillboardsApp::GetHillsHeight(float x, float z)]:
    [(40 * (cosf(x / 1600 * 7) + cosf(z / 1600 * 7))) - 70]. *)
Definition GetHillsHeight (x z : F) : F :=
  fsub (fmul (of_int 40)
             (fadd (cosf (fmul (fdiv x (of_int 1600)) (of_int 7)))
                   (cosf (fmul (fdiv z (of_int 1600)) (of_int 7)))))
       (of_int 70).

(** [XMVector3Normalize] of DirectXMath, scalar reference version: divide
    by the length when it is positive. *)
Definition XMVector3Normalize (v : XMFLOAT3 F) : XMFLOAT3 F :=
  let len := fsqrt (fadd (fadd (fmul (x3 v) (x3 v)) (fmul (y3 v) (y3 v)))
                         (fmul (z3 v) (z3 v))) in
  let s := if fgt len (of_int 0) then fdiv (of_int 1) len else len in
  mkFloat3 (fmul (x3 v) s) (fmul (y3 v) s) (fmul (z3 v) s).

(** The vector [n] of [GetHillsNormal] before normalisation.  [7 / 40] is a
    quotient of two [int] literals. *)
Definition GetHillsNormal_raw (x z : F) : XMFLOAT3 F :=
  mkFloat3
    (fmul (of_int (Z.quot 7 40)) (sinf (fdiv (fmul (of_int 7) x) (of_int 1600))))
    (of_int 1)
    (fmul (of_int (Z.quot 7 40)) (sinf (fdiv (fmul (of_int 7) z) (of_int 1600)))).

Definition GetHillsNormal (x z : F) : XMFLOAT3 F :=
  XMVector3Normalize (GetHillsNormal_raw x z).

(** A value-initialised [Vertex]. *)
Definition Vertex0 : Vertex F :=
  let z := of_int 0 in
  mkVertex (mkFloat3 z z z) (mkFloat3 z z z) (mkFloat2 z z).

Definition set_Pos (p : XMFLOAT3 F) (v : Vertex F) : Vertex F :=
  mkVertex p (Normal v) (TexC v).
Definition set_Pos_y (y : F) (v : Vertex F) : Vertex F :=
  mkVertex (mkFloat3 (x3 (Pos v)) y (z3 (Pos v))) (Normal v) (TexC v).
Definition set_Normal (n : XMFLOAT3 F) (v : Vertex F) : Vertex F :=
  mkVertex (Pos v) n (TexC v).
Definition set_TexC (t : XMFLOAT2 F) (v : Vertex F) : Vertex F :=
  mkVertex (Pos v) (Normal v) t.

(** *** BuildLandGeometry *)

(** The body of the loop over [grid.Vertices], at index [i] with grid
    vertex [g]. *)
Definition land_body (i : nat) (g : GVertex F) (vertices : list (Vertex F))
  : list (Vertex F) :=
  let p := Position g in
  let v1 := alter (set_Pos p) i vertices in
  let v2 := alter (set_Pos_y (GetHillsHeight (x3 p) (z3 p))) i v1 in
  let v3 := alter (set_Normal (GetHillsNormal (x3 p) (z3 p))) i v2 in
  alter (set_TexC (GTexC g)) i v3.

Fixpoint land_loop (gs : list (GVertex F)) (i : nat) (vertices : list (Vertex F))
  : list (Vertex F) :=
  match gs with
  | [] => vertices
  | g :: rest => land_loop rest (S i) (land_body i g vertices)
  end.

(** The vertex array [BuildLandGeometry] uploads, for the mesh returned by
    [geoGen.CreateGrid(1600.0f, 1600.0f, 50, 50)]. *)
Definition BuildLandGeometry (grid : list (GVertex F)) : list (Vertex F) :=
  land_loop grid 0%nat (replicate (length grid) Vertex0).

(** *** BuildWavesGeometry *)

(** [indices[k] = v] on a [std::vector<std::uint16_t>]. *)
Definition store16 (k v : Z) (indices : list Z) : option (list Z) :=
  if (0 <=? k) && (k <? Z.of_nat (length indices))
  then Some (<[ Z.to_nat k := to_uint16 v ]> indices)
  else None.

Definition quad_body (n i j k : Z) (indices : list Z) : option (list Z) :=
  i0 ← store16 k (i * n + j) indices;
  i1 ← store16 (k + 1) (i * n + j + 1) i0;
  i2 ← store16 (k + 2) ((i + 1) * n + j) i1;
  i3 ← store16 (k + 3) ((i + 1) * n + j) i2;
  i4 ← store16 (k + 4) (i * n + j + 1) i3;
  store16 (k + 5) ((i + 1) * n + j + 1) i4.

(** [for(int j = ...; j < n - 1; ++j)], with [cnt] iterations left. *)
Fixpoint quad_row (n i j : Z) (cnt : nat) (k : Z) (indices : list Z)
  : option (Z * list Z) :=
  match cnt with
  | O => Some (k, indices)
  | S c => ind ← quad_body n i j k indices;
           quad_row n i (j + 1) c (k + 6) ind
  end.

(** [for(int i = ...; i < m - 1; ++i)], with [cnt] iterations left. *)
Fixpoint quad_rows (n i : Z) (cnt : nat) (k : Z) (indices : list Z)
  : option (Z * list Z) :=
  match cnt with
  | O => Some (k, indices)
  | S c => '(k1, ind) ← quad_row n i 0 (Z.to_nat (n - 1)) k indices;
           quad_rows n (i + 1) c k1 ind
  end.

(** The index array of "waterGeo".  A negative element count cannot be
    allocated. *)
Definition BuildWavesGeometry (w : W) : option (list Z) :=
  if 3 * TriangleCount w <? 0 then None else
  let indices := replicate (Z.to_nat (3 * TriangleCount w)) 0 in
  snd <$> quad_rows (ColumnCount w) 0 (Z.to_nat (RowCount w - 1)) 0 indices.

(** *** BuildBoxGeometry: packing the nine meshes into one vertex array *)

(** The first loop (box): every field goes to [vertices[i]]. *)
Fixpoint pack_box (gs : list (GVertex F)) (i k : nat) (vertices : list (Vertex F))
  : list (Vertex F) * nat :=
  match gs with
  | [] => (vertices, k)
  | g :: rest =>
      let v1 := alter (set_Pos (Position g)) i vertices in
      let v2 := alter (set_Normal (GNormal g)) i v1 in
      let v3 := alter (set_TexC (GTexC g)) i v2 in
      pack_box rest (S i) (S k) v3
  end.

(** Every later loop: position and normal go to [vertices[k]], the
    texture coordinate to [vertices[i]]. *)
Fixpoint pack_shape (gs : list (GVertex F)) (i k : nat) (vertices : list (Vertex F))
  : list (Vertex F) * nat :=
  match gs with
  | [] => (vertices, k)
  | g :: rest =>
      let v1 := alter (set_Pos (Position g)) k vertices in
      let v2 := alter (set_Normal (GNormal g)) k v1 in
      let v3 := alter (set_TexC (GTexC g)) i v2 in
      pack_shape rest (S i) (S k) v3
  end.

Definition pack_shapes (later : list (list (GVertex F)))
    (st : list (Vertex F) * nat) : list (Vertex F) * nat :=
  foldl (fun st gs => pack_shape gs 0%nat (snd st) (fst st)) st later.

(** The box loop followed by the loops of the meshes [later], on a
    value-initialised array of [totalVertexCount] elements. *)
Definition pack_all (box : list (GVertex F)) (later : list (list (GVertex F)))
  : list (Vertex F) :=
  let totalVertexCount := (length box + length (concat later))%nat in
  let vertices := replicate totalVertexCount Vertex0 in
  fst (pack_shapes later (pack_box box 0%nat 0%nat vertices)).

(** The vertex array of "shapeGeo", from the nine generated meshes. *)
Definition BuildBoxGeometry
    (box grid sphere cylinder diamond torus pyramid prism wedge : list (GVertex F))
  : list (Vertex F) :=
  pack_all box [grid; sphere; cylinder; diamond; torus; pyramid; prism; wedge].
End Geometry.

(** ** Closed forms used in the statements *)

(** The six indices of the two triangles of quad [(i, j)] of a grid with [n]
    columns. *)
Definition quad_indices (n i j : Z) : list Z :=
  [ i * n + j; i * n + j + 1; (i + 1) * n + j;
    (i + 1) * n + j; i * n + j + 1; (i + 1) * n + j + 1 ].

(** The indices of [cnt] consecutive quads of row [i] from column [j], as
    stored in a [uint16] array. *)
Fixpoint row_indices (n i j : Z) (cnt : nat) : list Z :=
  match cnt with
  | O => []
  | S c => (to_uint16 <$> quad_indices n i j) ++ row_indices n i (j + 1) c
  end.

(** The same for [cnt] consecutive rows from row [i]. *)
Fixpoint grid_indices (n i : Z) (cnt : nat) : list Z :=
  match cnt with
  | O => []
  | S c => row_indices n i 0 (Z.to_nat (n - 1)) ++ grid_indices n (i + 1) c
  end.

(** The vertex [BuildLandGeometry] makes of the grid vertex [g]. *)
Definition land_vertex {F : Type} `{FloatOps F} (g : GVertex F) : Vertex F :=
  let p := Position g in
  mkVertex (mkFloat3 (x3 p) (GetHillsHeight (x3 p) (z3 p)) (z3 p))
           (GetHillsNormal (x3 p) (z3 p))
           (GTexC g).

(** The element of [gs] that a loop starting at array position [off]
    handles when it is at array position [p], if any. *)
Definition sel {A : Type} (gs : list A) (off p : nat) : option A :=
  if decide (off <= p)%nat then gs !! (p - off)%nat else None.

(** A vertex whose position and normal are taken from [pg], when there is
    one, and whose texture coordinate is [t]. *)
Definition rewrite_vertex {F : Type} (pg : option (GVertex F)) (t : XMFLOAT2 F)
    (v : Vertex F) : Vertex F :=
  mkVertex (from_option Position (Pos v) pg)
           (from_option GNormal (Normal v) pg) t.

(** The texture coordinate array position [p] holds after the loops of
    [shapes] have run in order, each writing the coordinate of its local
    vertex [p] when it has one; [t0] is the value before. *)
Definition texc_written {F : Type} (shapes : list (list (GVertex F))) (p : nat)
    (t0 : XMFLOAT2 F) : XMFLOAT2 F :=
  foldl (fun acc sh => from_option GTexC acc (sh !! p)) t0 shapes.

(** ** Two implementations of [float] *)

(** IEEE-754 binary32 with round-to-nearest-even, from the standard
    library's specification of floating-point numbers.  The C library's
    [sinf] and [cosf] are given. *)
Definition prec32 : Z := 24.
Definition emax32 : Z := 128.

Definition f32_of_int (n : Z) : spec_float := binary_normalize prec32 emax32 n 0 false.

Definition ieee32 (libm_sinf libm_cosf : spec_float -> spec_float)
  : FloatOps spec_float := {|
  fadd := SFadd prec32 emax32;
  fsub := SFsub prec32 emax32;
  fmul := SFmul prec32 emax32;
  fdiv := SFdiv prec32 emax32;
  fsqrt := SFsqrt prec32 emax32;
  fle := SFleb;
  flt := SFltb;
  of_int := f32_of_int;
  sinf := libm_sinf;
  cosf := libm_cosf
|}.

(** A float that is neither an infinity nor a NaN. *)
Definition f32_finite (x : spec_float) : bool :=
  match x with
  | S754_zero _ | S754_finite _ _ _ => true
  | S754_infinity _ | S754_nan => false
  end.

(** Exact rational arithmetic: the real-number reading of the float
    expressions, without rounding.  Square root, sine and cosine are
    given. *)
Definition exactQ (q_sqrt q_sin q_cos : Q -> Q) : FloatOps Q := {|
  fadd := Qplus;
  fsub := Qminus;
  fmul := Qmult;
  fdiv := Qdiv;
  fsqrt := q_sqrt;
  fle := Qle_bool;
  flt := fun a b => negb (Qle_bool b a);
  of_int := inject_Z;
  sinf := q_sin;
  cosf := q_cos
|}.

(** Truncated series, standing for the library functions in concrete
    runs. *)
Definition series_sin (x : Q) : Q := (x - x * x * x / 6)%Q.
Definition series_cos (x : Q) : Q := (1 - x * x / 2)%Q.

Definition exactQ_series : FloatOps Q := exactQ (fun x => x) series_sin series_cos.

(** ** A still water surface

    An implementation of the [Waves] interface with [m] rows and [n]
    columns of vertices spaced [dx] apart and centred on the origin, whose
    heights change only through [Disturb]. *)
Record StillWaves := mkStillWaves {
  sw_rows : Z; sw_cols : Z; sw_dx : Q; sw_heights : list Q }.

Definition sw_position (w : StillWaves) (k : Z) : XMFLOAT3 Q :=
  let i := Z.quot k (sw_cols w) in
  let j := Z.rem k (sw_cols w) in
  mkFloat3
    (- (inject_Z (sw_cols w - 1) * sw_dx w / 2) + inject_Z j * sw_dx w)%Q
    (default 0%Q (sw_heights w !! Z.to_nat k))
    (inject_Z (sw_rows w - 1) * sw_dx w / 2 - inject_Z i * sw_dx w)%Q.

Definition StillWavesOps : WavesOps Q StillWaves := {|
  RowCount := sw_rows;
  ColumnCount := sw_cols;
  VertexCount := fun w => sw_rows w * sw_cols w;
  TriangleCount := fun w => (sw_rows w - 1) * (sw_cols w - 1) * 2;
  Width := fun w => (inject_Z (sw_cols w) * sw_dx w)%Q;
  Depth := fun w => (inject_Z (sw_rows w) * sw_dx w)%Q;
  Waves_Position := sw_position;
  Waves_Normal := fun _ _ => mkFloat3 0%Q 1%Q 0%Q;
  Waves_Update := fun _ w => w;
  Waves_Disturb := fun i j r w =>
    mkStillWaves (sw_rows w) (sw_cols w) (sw_dx w)
      (alter (fun h => (h + r)%Q) (Z.to_nat (i * sw_cols w + j)) (sw_heights w))
|}.


(** ** Vocabulary of the statements *)

Section Vocabulary.
Context {F W : Type} `{FloatOps F} `{WavesOps F W}.

(** The fence values held by the ring, in order. *)
Definition fences (s : @App F W) : list Z := Fence <$> mFrameResources s.

(** The index [Update] selects. *)
Definition next_index (s : @App F W) : Z :=
  Z.rem (mCurrFrameResourceIndex s + 1) gNumFrameResources.

(** The ring index is a valid position. *)
Definition index_in_ring (s : @App F W) : Prop :=
  0 <= mCurrFrameResourceIndex s < gNumFrameResources.

(** The fence fields are pairwise distinct or zero. *)
Definition distinct_or_zero (fs : list Z) : Prop :=
  forall i j a, i <> j -> fs !! i = Some a -> fs !! j = Some a -> a = 0.

(** The fence bookkeeping is consistent: the counter is a [UINT64], no
    frame resource carries a fence value that was not handed out yet, and
    the handed-out values are pairwise distinct. *)
Definition fences_ok (s : @App F W) : Prop :=
  0 <= mCurrentFence s < UINT64_MOD /\
  (forall i a, fences s !! i = Some a -> 0 <= a <= mCurrentFence s) /\
  distinct_or_zero (fences s).

(** The GPU queue is consistent with the fence bookkeeping: signals are
    queued in increasing order above the completed value, none exceeds the
    counter, and every nonzero fence of the ring is completed or queued. *)
Definition gpu_consistent (counter : Z) (fs : list Z) (g : GPU) : Prop :=
  GetCompletedValue g <= counter /\
  (forall v, v ∈ pending g -> v <= counter) /\
  StronglySorted Z.lt (GetCompletedValue g :: pending g) /\
  (forall a, a ∈ fs ->
     a = 0 \/ a <= GetCompletedValue g \/ a ∈ pending g).

Definition gpu_ok (s : @App F W) : Prop :=
  gpu_consistent (mCurrentFence s) (fences s) (mFence s).

(** The state right after initialisation, as far as the ring is
    concerned: three frame resources that were never submitted, the index
    at its initial value, and an idle GPU. *)
Definition ring_initial (s : @App F W) : Prop :=
  fences s = [0; 0; 0] /\
  mCurrFrameResourceIndex s = 0 /\
  0 <= mCurrentFence s < UINT64_MOD /\
  GetCompletedValue (mFence s) <= mCurrentFence s /\
  pending (mFence s) = [].
(** What one pass of [UpdateObjectCBs] does to a render item: a positive
    counter is decremented. *)
Definition item_after_pass (e : RenderItem F) : RenderItem F :=
  if 0 <? NumFramesDirty e then set_NumFramesDirty (NumFramesDirty e - 1) e else e.

(** No dirty item of [items] uses the constant-buffer slot [slot]. *)
Definition slot_clean (items : list (RenderItem F)) (slot : Z) : Prop :=
  forall e, e ∈ items -> 0 < NumFramesDirty e -> ObjCBIndex e <> slot.

(** The slots of the render items are pairwise different, as
    [BuildRenderItems] assigns them. *)
Definition distinct_slots (items : list (RenderItem F)) : Prop :=
  NoDup (ObjCBIndex <$> items).
(** The object constant buffers of the ring, in order. *)
Definition object_cbs (s : @App F W) : list (list (ObjectConstants F)) :=
  ObjectCB <$> mFrameResources s.
End Vocabulary.

(** Binary32 series standing for the library functions in concrete
    evaluations. *)
Definition f32_series_sin (y : spec_float) : spec_float :=
  SFsub prec32 emax32 y
    (SFdiv prec32 emax32 (SFmul prec32 emax32 (SFmul prec32 emax32 y y) y)
       (f32_of_int 6)).
Definition f32_series_cos (y : spec_float) : spec_float :=
  SFsub prec32 emax32 (f32_of_int 1)
    (SFdiv prec32 emax32 (SFmul prec32 emax32 y y) (f32_of_int 2)).

(** ** The Disturb calls of a run of TreeBillboardsApp *)

Section Disturbances.
Context {F W : Type} `{FloatOps F} `{WavesOps F W}.
Variable crand : nat -> Z.


End Disturbances.

(** ** A concrete scene for worked runs

    A 9 x 10 still water surface, two render items, and the ring as
    [BuildFrameResources] creates it, over exact rationals. *)

Definition demo_rand (n : nat) : Z := (Z.of_nat n * 7919 + 104729) mod 32768.

Definition demo_waves : StillWaves :=
  mkStillWaves 9 10 (1 # 2) (replicate 90 0%Q).

Definition Identity4x4 : XMFLOAT4X4 Q :=
  mkFloat4x4 (mkFloat4 1%Q 0%Q 0%Q 0%Q) (mkFloat4 0%Q 1%Q 0%Q 0%Q)
             (mkFloat4 0%Q 0%Q 1%Q 0%Q) (mkFloat4 0%Q 0%Q 0%Q 1%Q).

Definition demo_translation : XMFLOAT4X4 Q :=
  mkFloat4x4 (mkFloat4 1%Q 0%Q 0%Q 0%Q) (mkFloat4 0%Q 1%Q 0%Q 0%Q)
             (mkFloat4 0%Q 0%Q 1%Q 0%Q) (mkFloat4 3%Q 2%Q (-9)%Q 1%Q).

Definition demo_items : list (RenderItem Q) :=
  [ mkRenderItem Identity4x4 Identity4x4 3 0;
    mkRenderItem demo_translation Identity4x4 3 1 ].

Definition demo_timer (t : Q) : GameTimer Q := mkGameTimer t (1 # 60).

(** Members after construction and [BuildRenderItems], before
    [BuildFrameResources]; [fence0] is the value [mCurrentFence] has reached
    by then. *)
Definition demo_constructed (fence0 : Z) : @App Q StillWaves :=
  mkApp [] None 0 fence0 (mkGPU fence0 []) demo_items demo_waves
        (demo_timer 0) 0%Q 0%nat None.

Definition demo_oc0 : ObjectConstants Q := mkObjectConstants Identity4x4 Identity4x4.

Definition demo_app (fence0 : Z) : @App Q StillWaves :=
  @BuildFrameResources Q StillWaves StillWavesOps demo_oc0
    (@Vertex0 Q exactQ_series) (demo_constructed fence0).

(** Three frames of the message loop during which the GPU completes
    nothing. *)
Definition demo_frames : list (Action Q) :=
  [ AUpdate (demo_timer (1 # 10)); ADraw;
    AUpdate (demo_timer (3 # 10)); ADraw;
    AUpdate (demo_timer (6 # 10)); ADraw ].

Abbreviation demo_run :=
  (@run Q StillWaves exactQ_series StillWavesOps demo_rand) (only parsing).

(** The state after [demo_frames]: all three frame resources are in
    flight. *)
Definition demo_in_flight (k : AppKind) : @App Q StillWaves :=
  default (demo_app 1) (demo_run k demo_frames (demo_app 1)).

Abbreviation demo_Update :=
  (@Update Q StillWaves exactQ_series StillWavesOps demo_rand) (only parsing).

(** The state after one more [Draw]. *)
Definition demo_drawn (k : AppKind) : @App Q StillWaves :=
  default (demo_in_flight k) (Draw (demo_in_flight k)).

(** The state after one [Update] of a concrete state. *)
Definition demo_updated (k : AppKind) (gt : GameTimer Q) (s : @App Q StillWaves)
  : @App Q StillWaves :=
  default s (snd <$> demo_Update k gt s).

Definition demo_u1 (k : AppKind) := demo_updated k (demo_timer (1 # 10)) (demo_app 1).
Definition demo_u2 (k : AppKind) := demo_updated k (demo_timer (3 # 10)) (demo_u1 k).
Definition demo_u3 (k : AppKind) := demo_updated k (demo_timer (6 # 10)) (demo_u2 k).

(** The state after the object-constant pass of a concrete state. *)
Definition demo_pass (s : @App Q StillWaves) : @App Q StillWaves :=
  default s (UpdateObjectCBs s).

(** A small terrain grid. *)
Definition demo_grid : list (GVertex Q) :=
  [ mkGVertex (mkFloat3 (-800)%Q 0%Q 800%Q) (mkFloat3 0%Q 1%Q 0%Q) (mkFloat2 0%Q 0%Q);
    mkGVertex (mkFloat3 800%Q 0%Q 800%Q) (mkFloat3 0%Q 1%Q 0%Q) (mkFloat2 1%Q 0%Q);
    mkGVertex (mkFloat3 (-800)%Q 0%Q (-800)%Q) (mkFloat3 0%Q 1%Q 0%Q) (mkFloat2 0%Q 1%Q);
    mkGVertex (mkFloat3 800%Q 0%Q (-800)%Q) (mkFloat3 0%Q 1%Q 0%Q) (mkFloat2 1%Q 1%Q) ].

(** Two small meshes: a one-vertex "box" and a two-vertex "grid". *)
Definition demo_box : list (GVertex Q) :=
  [ mkGVertex (mkFloat3 1%Q 1%Q 1%Q) (mkFloat3 0%Q 0%Q 1%Q) (mkFloat2 (1 # 4) (1 # 4)) ].

Definition demo_mesh : list (GVertex Q) :=
  [ mkGVertex (mkFloat3 2%Q 0%Q 2%Q) (mkFloat3 0%Q 1%Q 0%Q) (mkFloat2 (1 # 2) 0%Q);
    mkGVertex (mkFloat3 3%Q 0%Q 3%Q) (mkFloat3 0%Q 1%Q 0%Q) (mkFloat2 (1 # 2) 1%Q) ].

(** * Vocabulary for the further properties *)

(** ** The order of [Update] and [Draw] *)

Section Pipeline.
Context {F W : Type}.

(** The order in which the message loop calls the two entry points: a
    [Draw] comes only after an [Update], with no other [Draw] in between.
    [ready] tells whether an [Update] has run since the last [Draw]. *)
Fixpoint draws_follow_updates (ready : bool) (acts : list (Action F)) : bool :=
  match acts with
  | [] => true
  | AUpdate _ :: rest => draws_follow_updates true rest
  | ADraw :: rest => ready && draws_follow_updates false rest
  | AGpu :: rest => draws_follow_updates ready rest
  end.

(** Every signal the GPU has still to reach is the [Fence] of a frame
    resource of the ring. *)
Definition signals_owned (s : @App F W) : Prop :=
  forall v, v ∈ pending (mFence s) -> v ∈ fences s.

(** No signal is queued for the selected frame resource. *)
Definition current_idle (s : @App F W) : Prop :=
  exists cur fr, mCurrFrameResource s = Some cur /\
    mFrameResources s !! cur = Some fr /\
    Fence fr ∉ pending (mFence s).
End Pipeline.

(** ** Buffer sizes *)

Section Fit.
Context {F W : Type} `{FloatOps F} `{WavesOps F W}.




(** Every dirty item of [items] has its slot inside a buffer of [n]
    elements. *)
Definition dirty_slots_fit (items : list (RenderItem F)) (n : nat) : Prop :=
  Forall (fun e => 0 < NumFramesDirty e -> 0 <= ObjCBIndex e < Z.of_nat n) items.


End Fit.

(** ** The quads of the wave grid *)


(** ** The terrain in binary32 *)

(** The [sinf] call [GetHillsNormal] makes for the coordinate [c] returns a
    finite number. *)
Definition hills_sin_finite (libm_sinf : spec_float -> spec_float)
    (c : spec_float) : bool :=
  f32_finite (libm_sinf (SFdiv prec32 emax32
                (SFmul prec32 emax32 (f32_of_int 7) c) (f32_of_int 1600))).

(** A normal that is zero, one, zero up to the signs of the zeros. *)
Definition normal_is_up (n : XMFLOAT3 spec_float) : Prop :=
  exists sx sz, n = mkFloat3 (S754_zero sx) (f32_of_int 1) (S754_zero sz).

(** A small terrain grid in binary32. *)
Definition demo_grid32 : list (GVertex spec_float) :=
  let f := f32_of_int in
  [ mkGVertex (mkFloat3 (f (-800)) (f 0) (f 800)) (mkFloat3 (f 0) (f 1) (f 0))
              (mkFloat2 (f 0) (f 0));
    mkGVertex (mkFloat3 (f 800) (f 0) (f 800)) (mkFloat3 (f 0) (f 1) (f 0))
              (mkFloat2 (f 1) (f 0));
    mkGVertex (mkFloat3 (f (-800)) (f 0) (f (-800))) (mkFloat3 (f 0) (f 1) (f 0))
              (mkFloat2 (f 0) (f 1));
    mkGVertex (mkFloat3 (f 800) (f 0) (f (-800))) (mkFloat3 (f 0) (f 1) (f 0))
              (mkFloat2 (f 1) (f 1)) ].

(** * ShapesApp: packing the shape meshes *)

(** [UINT] arithmetic and the conversion of a [UINT] to [int]. *)
Definition UINT_MOD : Z := 2 ^ 32.
Definition to_UINT (x : Z) : Z := x mod UINT_MOD.
Definition UINT_to_int (x : Z) : Z := if x <? 2 ^ 31 then x else x - UINT_MOD.

(** [std::vector::size()]. *)
Definition size {A : Type} (l : list A) : Z := Z.of_nat (length l).

(** [struct SubmeshGeometry]: [UINT IndexCount], [UINT StartIndexLocation],
    [int BaseVertexLocation]. *)
Record SubmeshGeometry := mkSubmesh {
  IndexCount : Z;
  StartIndexLocation : Z;
  BaseVertexLocation : Z }.

Section ShapeGeometry.
Context {F : Type} `{FloatOps F}.

(** [GeometryGenerator::MeshData], as far as it is read here: the
    generated vertices and the 32-bit indices. *)
Record MeshData := mkMeshData {
  Vertices : list (GVertex F);
  Indices32 : list Z }.

(** [MeshData::GetIndices16()], the 16-bit copy of the indices the
    generator hands out. *)
Variable GetIndices16 : MeshData -> list Z.

(** The parts of [struct MeshGeometry] that [BuildShapeGeometry] fills from
    the meshes. *)
Record MeshGeometry := mkMeshGeometry {
  VertexBufferCPU : list (Vertex F);
  IndexBufferCPU : list Z;
  DrawArgs : gmap string SubmeshGeometry }.

(** [vertices[k].Pos = g.Position; vertices[k].Normal = g.Normal;] *)
Definition copy_pos_normal (g : GVertex F) (k : Z) (vertices : list (Vertex F))
  : option (list (Vertex F)) :=
  if (0 <=? k) && (k <? size vertices)
  then Some (alter (set_Normal (GNormal g)) (Z.to_nat k)
               (alter (set_Pos (Position g)) (Z.to_nat k) vertices))
  else None.

(** [for(size_t i = 0; i < mesh.Vertices.size(); ++i, ++k)] with the
    [UINT k] shared by the nine loops. *)
Fixpoint shape_loop (gs : list (GVertex F)) (k : Z) (vertices : list (Vertex F))
  : option (list (Vertex F) * Z) :=
  match gs with
  | [] => Some (vertices, k)
  | g :: rest =>
      v ← copy_pos_normal g k vertices;
      shape_loop rest (to_UINT (k + 1)) v
  end.

(** [ShapesApp::BuildShapeGeometry], from the nine generated meshes to the
    CPU copies of the buffers and the draw arguments of "shapeGeo". *)
Definition BuildShapeGeometry
    (box grid sphere cylinder diamond torus pyramid prism wedge : MeshData)
  : option MeshGeometry :=
  let boxVertexOffset := 0 in
  let gridVertexOffset := to_UINT (size (Vertices box)) in
  let sphereVertexOffset := to_UINT (gridVertexOffset + to_UINT (size (Vertices grid))) in
  let cylinderVertexOffset := to_UINT (sphereVertexOffset + to_UINT (size (Vertices sphere))) in
  let diamondVertexOffset := to_UINT (cylinderVertexOffset + to_UINT (size (Vertices cylinder))) in
  let torusVertexOffset := to_UINT (diamondVertexOffset + to_UINT (size (Vertices diamond))) in
  let pyramidVertexOffset := to_UINT (torusVertexOffset + to_UINT (size (Vertices torus))) in
  let prismVertexOffset := to_UINT (pyramidVertexOffset + to_UINT (size (Vertices pyramid))) in
  let wedgeVertexOffset := to_UINT (prismVertexOffset + to_UINT (size (Vertices prism))) in
  let boxIndexOffset := 0 in
  let gridIndexOffset := to_UINT (size (Indices32 box)) in
  let sphereIndexOffset := to_UINT (gridIndexOffset + to_UINT (size (Indices32 grid))) in
  let cylinderIndexOffset := to_UINT (sphereIndexOffset + to_UINT (size (Indices32 sphere))) in
  let diamondIndexOffset := to_UINT (cylinderIndexOffset + to_UINT (size (Indices32 cylinder))) in
  let torusIndexOffset := to_UINT (diamondIndexOffset + to_UINT (size (Indices32 diamond))) in
  let pyramidIndexOffset := to_UINT (torusIndexOffset + to_UINT (size (Indices32 torus))) in
  let prismIndexOffset := to_UINT (pyramidIndexOffset + to_UINT (size (Indices32 pyramid))) in
  let wedgeIndexOffset := to_UINT (prismIndexOffset + to_UINT (size (Indices32 prism))) in
  let submesh (m : MeshData) (indexOffset vertexOffset : Z) :=
    mkSubmesh (to_UINT (size (Indices32 m))) indexOffset (UINT_to_int vertexOffset) in
  let boxSubmesh := submesh box boxIndexOffset boxVertexOffset in
  let gridSubmesh := submesh grid gridIndexOffset gridVertexOffset in
  let sphereSubmesh := submesh sphere sphereIndexOffset sphereVertexOffset in
  let cylinderSubmesh := submesh cylinder cylinderIndexOffset cylinderVertexOffset in
  let diamondSubmesh := submesh diamond diamondIndexOffset diamondVertexOffset in
  let torusSubmesh := submesh torus torusIndexOffset torusVertexOffset in
  let pyramidSubmesh := submesh pyramid pyramidIndexOffset pyramidVertexOffset in
  let prismSubmesh := submesh prism prismIndexOffset prismVertexOffset in
  let wedgeSubmesh := submesh wedge wedgeIndexOffset wedgeVertexOffset in
  let totalVertexCount :=
    size (Vertices box) + size (Vertices grid) + size (Vertices sphere) +
    size (Vertices cylinder) + size (Vertices diamond) + size (Vertices torus) +
    size (Vertices pyramid) + size (Vertices prism) + size (Vertices wedge) in
  let vertices := replicate (Z.to_nat totalVertexCount) Vertex0 in
  '(vertices, k) ← shape_loop (Vertices box) 0 vertices;
  '(vertices, k) ← shape_loop (Vertices grid) k vertices;
  '(vertices, k) ← shape_loop (Vertices sphere) k vertices;
  '(vertices, k) ← shape_loop (Vertices cylinder) k vertices;
  '(vertices, k) ← shape_loop (Vertices diamond) k vertices;
  '(vertices, k) ← shape_loop (Vertices torus) k vertices;
  '(vertices, k) ← shape_loop (Vertices pyramid) k vertices;
  '(vertices, k) ← shape_loop (Vertices prism) k vertices;
  '(vertices, k) ← shape_loop (Vertices wedge) k vertices;
  let indices :=
    ((((((((([] ++ GetIndices16 box) ++ GetIndices16 grid) ++ GetIndices16 sphere)
          ++ GetIndices16 cylinder) ++ GetIndices16 diamond) ++ GetIndices16 torus)
       ++ GetIndices16 pyramid) ++ GetIndices16 prism) ++ GetIndices16 wedge) in
  Some (mkMeshGeometry vertices indices
          (<[ "wedge" := wedgeSubmesh ]>
          (<[ "prism" := prismSubmesh ]>
          (<[ "pyramid" := pyramidSubmesh ]>
          (<[ "torus" := torusSubmesh ]>
          (<[ "diamond" := diamondSubmesh ]>
          (<[ "cylinder" := cylinderSubmesh ]>
          (<[ "sphere" := sphereSubmesh ]>
          (<[ "grid" := gridSubmesh ]>
          (<[ "box" := boxSubmesh ]> ∅)))))))))).

(** The vertex made of a generated vertex: position and normal are
    copied, the texture coordinate keeps its initial value. *)
Definition shape_vertex (g : GVertex F) : Vertex F :=
  mkVertex (Position g) (GNormal g) (TexC Vertex0).

End ShapeGeometry.

(** The nine meshes of "shapeGeo" under their [DrawArgs] keys, in the order
    in which they are packed. *)
Definition shape_table {F : Type}
    (box grid sphere cylinder diamond torus pyramid prism wedge : @MeshData F)
  : list (string * @MeshData F) :=
  [ ("box", box); ("grid", grid); ("sphere", sphere); ("cylinder", cylinder);
    ("diamond", diamond); ("torus", torus); ("pyramid", pyramid);
    ("prism", prism); ("wedge", wedge) ].

(** * Materials *)

Module Mat.
Section Materials.
Context {F : Type} `{FloatOps F}.

(** [struct Material], the fields the two functions read or write. *)
Record Material := mkMaterial {
  MatCBIndex : Z;
  DiffuseAlbedo : XMFLOAT4 F;
  FresnelR0 : XMFLOAT3 F;
  Roughness : F;
  MatTransform : XMFLOAT4X4 F;
  NumFramesDirty : Z }.

(** [struct MaterialConstants]. *)
Record MaterialConstants := mkMaterialConstants {
  MC_DiffuseAlbedo : XMFLOAT4 F;
  MC_FresnelR0 : XMFLOAT3 F;
  MC_Roughness : F;
  MC_MatTransform : XMFLOAT4X4 F }.

Definition set_NumFramesDirty (n : Z) (mat : Material) : Material :=
  mkMaterial (MatCBIndex mat) (DiffuseAlbedo mat) (FresnelR0 mat) (Roughness mat)
             (MatTransform mat) n.


(** The constants [UpdateMaterialCBs] makes of a material. *)
Definition material_constants (mat : Material) : MaterialConstants :=
  mkMaterialConstants (DiffuseAlbedo mat) (FresnelR0 mat) (Roughness mat)
                      (XMMatrixTranspose (MatTransform mat)).


(** [UpdateMaterialCBs] (identical in both applications), on the material
    constant buffer of the current frame resource. *)
Fixpoint UpdateMaterialCBs (mMaterials : list (string * Material))
    (currMaterialCB : list MaterialConstants)
  : option (list (string * Material) * list MaterialConstants) :=
  match mMaterials with
  | [] => Some ([], currMaterialCB)
  | (name, mat) :: rest =>
      if 0 <? NumFramesDirty mat then
        cb1 ← CopyData (MatCBIndex mat) (material_constants mat) currMaterialCB;
        '(rest', cb2) ← UpdateMaterialCBs rest cb1;
        Some ((name, set_NumFramesDirty (NumFramesDirty mat - 1) mat) :: rest', cb2)
      else
        '(rest', cb2) ← UpdateMaterialCBs rest currMaterialCB;
        Some ((name, mat) :: rest', cb2)
  end.

(** What one pass of [UpdateMaterialCBs] does to a material. *)
Definition after_pass (e : string * Material) : string * Material :=
  if 0 <? NumFramesDirty e.2
  then (e.1, set_NumFramesDirty (NumFramesDirty e.2 - 1) e.2) else e.

(** Every dirty material has its slot inside a buffer of [n] elements. *)
Definition dirty_fit (mMaterials : list (string * Material)) (n : nat) : Prop :=
  Forall (fun e => 0 < NumFramesDirty e.2 -> 0 <= MatCBIndex e.2 < Z.of_nat n)
         mMaterials.

(** The materials have pairwise different slots, as [BuildMaterials]
    assigns them. *)
Definition distinct_indices (mMaterials : list (string * Material)) : Prop :=
  NoDup ((fun e => MatCBIndex e.2) <$> mMaterials).
End Materials.
Arguments Material : clear implicits.
Arguments MaterialConstants : clear implicits.
End Mat.

(** ** Frame times *)



(** ** Concrete inputs for the further properties *)



(** Two small generated meshes and a 16-bit copy of their indices. *)
Definition demo_box_mesh : @MeshData Q := mkMeshData demo_box [0; 0; 0].
Definition demo_grid_mesh : @MeshData Q := mkMeshData demo_mesh [0; 1; 0; 1; 0; 1].
Definition demo_GetIndices16 (m : @MeshData Q) : list Z :=
  to_uint16 <$> Indices32 m.

(** A material table with a clean grass material and the water material,
    scrolled by [tu] and [tv], and a material constant buffer of two
    elements. *)
Definition demo_material (idx dirty : Z) (tu tv : Q) : Mat.Material Q :=
  Mat.mkMaterial idx (mkFloat4 1%Q 1%Q 1%Q 1%Q)
    (mkFloat3 (1 # 10) (1 # 10) (1 # 10)) (1 # 4)
    (mkFloat4x4 (mkFloat4 1%Q 0%Q 0%Q 0%Q) (mkFloat4 0%Q 1%Q 0%Q 0%Q)
                (mkFloat4 0%Q 0%Q 1%Q 0%Q) (mkFloat4 tu tv 0%Q 1%Q))
    dirty.

Definition demo_materials : list (string * Mat.Material Q) :=
  [ ("grass", demo_material 0 3 0%Q 0%Q);
    ("water", demo_material 1 1 (19 # 20) (1 # 2)) ].

Definition demo_material_cb : list (Mat.MaterialConstants Q) :=
  replicate 2 (Mat.material_constants (demo_material 0 0 0%Q 0%Q)).

(** * TreeBillboardsApp: the tree sprites *)

Module TreeSprite.
Section TreeSprites.
Context {F : Type} `{FloatOps F}.

(** Unary minus on [float]. *)
Variable fneg : F -> F.

(** The local [struct TreeSpriteVertex]. *)
Record TreeSpriteVertex := mkTreeSpriteVertex {
  Pos : XMFLOAT3 F;
  Size : XMFLOAT2 F }.

(** [static const int treeCount = 20;] *)
Definition treeCount : Z := 20.

(** [vertices[i].Pos = pos; vertices[i].Size = XMFLOAT2(10.0f, 10.0f);] on
    the [std::array<TreeSpriteVertex, 40>], whose elements are
    indeterminate ([None]) until they are written. *)
Definition store_sprite (i : Z) (pos : XMFLOAT3 F)
    (vertices : list (option TreeSpriteVertex))
  : option (list (option TreeSpriteVertex)) :=
  if (0 <=? i) && (i <? size vertices)
  then Some (<[ Z.to_nat i :=
                  Some (mkTreeSpriteVertex pos (mkFloat2 (of_int 10) (of_int 10))) ]>
               vertices)
  else None.

(** The first loop,
    [for(UINT i = 0; i < treeCount; ++i) { ...; i++; x -= 5.0f; }],
    from its state at the loop test; [fuel] bounds the iterations. *)
Fixpoint sprites_along_x (fuel : nat) (i : Z) (x z : F)
    (vertices : list (option TreeSpriteVertex))
  : option (list (option TreeSpriteVertex) * F) :=
  if i <? treeCount then
    match fuel with
    | O => None
    | S fuel' =>
        let y := GetHillsHeight x z in
        let y := fadd y (of_int 4) in
        v1 ← store_sprite i (mkFloat3 x y z) vertices;
        v2 ← store_sprite (i + 1) (mkFloat3 x y (fneg z)) v1;
        sprites_along_x fuel' (i + 1 + 1) (fsub x (of_int 5)) z v2
    end
  else Some (vertices, x).

(** The second loop,
    [for (UINT j = 20; j < treeCount*2; ++j) { ...; j++; z -= 5.0f; }]. *)
Fixpoint sprites_along_z (fuel : nat) (j : Z) (x z : F)
    (vertices : list (option TreeSpriteVertex))
  : option (list (option TreeSpriteVertex) * F) :=
  if j <? treeCount * 2 then
    match fuel with
    | O => None
    | S fuel' =>
        let y := GetHillsHeight x z in
        let y := fadd y (of_int 4) in
        v1 ← store_sprite j (mkFloat3 x y z) vertices;
        v2 ← store_sprite (j + 1) (mkFloat3 (fneg x) y z) v1;
        sprites_along_z fuel' (j + 1 + 1) x (fsub z (of_int 5)) v2
    end
  else Some (vertices, z).

(** The vertex array of "treeSpritesGeo". *)
Definition BuildTreeSpritesGeometry : option (list (option TreeSpriteVertex)) :=
  let vertices := replicate 40 None in
  let x := of_int 25 in
  let z := of_int 25 in
  '(vertices, x) ← sprites_along_x 40 0 x z vertices;
  let x := of_int 25 in
  '(vertices, z) ← sprites_along_z 40 20 x z vertices;
  Some vertices.

(** A sprite that stands four units above the terrain at its own
    position, with the size the code gives every sprite. *)
Definition planted (v : TreeSpriteVertex) : Prop :=
  y3 (Pos v) = fadd (GetHillsHeight (x3 (Pos v)) (z3 (Pos v))) (of_int 4) /\
  Size v = mkFloat2 (of_int 10) (of_int 10).

(** Negation commutes with the operations [GetHillsHeight] applies to a
    coordinate, and the cosine is even. *)
Definition negation_laws : Prop :=
  (forall a b, fdiv (fneg a) b = fneg (fdiv a b)) /\
  (forall a b, fmul (fneg a) b = fneg (fmul a b)) /\
  (forall a, cosf (fneg a) = cosf a).
End TreeSprites.
End TreeSprite.

(** * Properties *)

(** ** The fence wait *)

Lemma wait_loop_reaches (target : Z) (q : list Z) :
  forall c g, wait_loop target c q = Some g -> target <= GetCompletedValue g.
Proof.
  induction q as [|v q IH]; intros c g; simpl.
  - destruct (Z.leb_spec target c); [|discriminate].
    intros [= <-]. simpl. lia.
  - destruct (Z.leb_spec target c).
    + intros [= <-]. simpl. lia.
    + apply IH.
Qed.

Lemma wait_loop_in_queue (target : Z) (q : list Z) :
  forall c, (target <= c \/ exists v, v ∈ q /\ target <= v) ->
            is_Some (wait_loop target c q).
Proof.
  induction q as [|v q IH]; intros c Hin; simpl.
  - destruct (Z.leb_spec target c); [eauto|].
    destruct Hin as [?|(v & Hv & _)]; [lia|]. by apply elem_of_nil in Hv.
  - destruct (Z.leb_spec target c); [eauto|].
    apply IH. destruct Hin as [?|(u & Hu & Hle)]; [lia|].
    apply elem_of_cons in Hu as [->|Hu]; [by left|right; eauto].
Qed.

Section RingFacts.
Context {F W : Type} `{FloatOps F} `{WavesOps F W}.
Variable crand : nat -> Z.

(** What the shared head of [Update] does. *)
Lemma cycle_and_wait_spec (s : @App F W) waited s1 :
  cycle_and_wait s = Some (waited, s1) ->
  mCurrFrameResourceIndex s1 = next_index s /\
  0 <= next_index s /\
  mCurrFrameResource s1 = Some (Z.to_nat (next_index s)) /\
  mFrameResources s1 = mFrameResources s /\
  mCurrentFence s1 = mCurrentFence s /\
  mAllRitems s1 = mAllRitems s /\
  mWaves s1 = mWaves s /\ mTimer s1 = mTimer s /\ t_base s1 = t_base s /\
  rand_calls s1 = rand_calls s /\
  exists fr, mFrameResources s !! Z.to_nat (next_index s) = Some fr /\
    (waited = true <->
       Fence fr <> 0 /\ GetCompletedValue (mFence s) < Fence fr) /\
    (waited = false -> mFence s1 = mFence s) /\
    (waited = true -> WaitForSingleObject (Fence fr) (mFence s) = Some (mFence s1)) /\
    (Fence fr = 0 \/ Fence fr <= GetCompletedValue (mFence s1)).
Proof.
  unfold cycle_and_wait, next_index. intros Hc.
  set (idx := Z.rem (mCurrFrameResourceIndex s + 1) gNumFrameResources) in *.
  destruct (INT_MAX <=? mCurrFrameResourceIndex s); [discriminate|].
  destruct (Z.ltb_spec idx 0); [discriminate|].
  destruct (mFrameResources s !! Z.to_nat idx) as [fr|] eqn:Hfr; [|discriminate].
  simpl in Hc.
  destruct (Z.eqb_spec (Fence fr) 0) as [Hz|Hz]; simpl in Hc.
  - injection Hc as <- <-. simpl.
    do 10 (split; [done || lia|]).
    exists fr. split; [done|]. split; [|split; [done|split; [done|by left]]].
    split; [done|]. intros (? & _); done.
  - destruct (Z.ltb_spec (GetCompletedValue (mFence s)) (Fence fr)) as [Hlt|Hge].
    + destruct (WaitForSingleObject (Fence fr) (mFence s)) as [g|] eqn:Hw;
        [|discriminate].
      simpl in Hc. injection Hc as <- <-. simpl.
      do 10 (split; [done || lia|]).
      exists fr. split; [done|]. split; [done|]. split; [done|]. split; [done|].
      right. unfold WaitForSingleObject in Hw. by apply wait_loop_reaches in Hw.
    + injection Hc as <- <-. simpl.
      do 10 (split; [done || lia|]).
      exists fr. split; [done|]. split; [|split; [done|split; [done|right; lia]]].
      split; [done|]. intros (_ & ?); lia.
Qed.

(** [UpdateObjectCBs] writes one object constant buffer and the dirty
    counters, nothing else. *)
Lemma UpdateObjectCBs_frame (s s' : @App F W) :
  UpdateObjectCBs s = Some s' ->
  mCurrFrameResourceIndex s' = mCurrFrameResourceIndex s /\
  mCurrFrameResource s' = mCurrFrameResource s /\
  mCurrentFence s' = mCurrentFence s /\
  mFence s' = mFence s /\
  fences s' = fences s /\
  mWaves s' = mWaves s /\ mTimer s' = mTimer s /\ t_base s' = t_base s /\
  rand_calls s' = rand_calls s.
Proof.
  unfold UpdateObjectCBs. intros Hu.
  destruct (mCurrFrameResource s) as [cur|] eqn:Hcur; [|discriminate].
  simpl in Hu.
  destruct (mFrameResources s !! cur) as [fr|] eqn:Hfr; [|discriminate].
  simpl in Hu.
  destruct (UpdateObjectCBs_loop _ _) as [[items cb]|]; [|discriminate].
  simpl in Hu. injection Hu as <-. simpl. repeat split; try done.
  unfold fences. simpl. rewrite list_fmap_insert. simpl.
  apply list_insert_id. by rewrite list_lookup_fmap, Hfr.
Qed.

Lemma UpdateWaves_frame gt (s s' : @App F W) d :
  UpdateWaves crand gt s = Some (d, s') ->
  mCurrFrameResourceIndex s' = mCurrFrameResourceIndex s /\
  mCurrFrameResource s' = mCurrFrameResource s /\
  mCurrentFence s' = mCurrentFence s /\
  mFence s' = mFence s /\
  fences s' = fences s /\
  mAllRitems s' = mAllRitems s /\
  mTimer s' = mTimer s.
Proof.
  unfold UpdateWaves. intros Hu.
  destruct (UpdateWaves_disturb crand s) as [[[[d0 tb] n] w1]|]; [|discriminate].
  simpl in Hu.
  destruct (mCurrFrameResource s) as [cur|] eqn:Hcur; [|discriminate].
  simpl in Hu.
  destruct (mFrameResources s !! cur) as [fr|] eqn:Hfr; [|discriminate].
  simpl in Hu.
  destruct (UpdateWaves_loop _ _ _ _) as [vb|]; [|discriminate].
  simpl in Hu. injection Hu as <- <-. simpl. repeat split; try done.
  unfold fences. simpl. rewrite list_fmap_insert. simpl.
  apply list_insert_id. by rewrite list_lookup_fmap, Hfr.
Qed.

(** [Update] of either application: the ring advances, the selected frame
    resource is waited for when the GPU is behind, and the fence
    bookkeeping is left alone. *)
Lemma Update_spec k gt (s s' : @App F W) waited :
  Update crand k gt s = Some (waited, s') ->
  mCurrFrameResourceIndex s' = next_index s /\
  0 <= next_index s /\
  mCurrFrameResource s' = Some (Z.to_nat (next_index s)) /\
  mCurrentFence s' = mCurrentFence s /\
  fences s' = fences s /\
  exists fr, mFrameResources s !! Z.to_nat (next_index s) = Some fr /\
    (waited = true <->
       Fence fr <> 0 /\ GetCompletedValue (mFence s) < Fence fr) /\
    (waited = false -> mFence s' = mFence s) /\
    (waited = true -> WaitForSingleObject (Fence fr) (mFence s) = Some (mFence s')) /\
    (Fence fr = 0 \/ Fence fr <= GetCompletedValue (mFence s')).
Proof.
  intros Hu.
  assert (exists s1 s2, cycle_and_wait s = Some (waited, s1) /\
            UpdateObjectCBs s1 = Some s2 /\
            mCurrFrameResourceIndex s' = mCurrFrameResourceIndex s2 /\
            mCurrFrameResource s' = mCurrFrameResource s2 /\
            mCurrentFence s' = mCurrentFence s2 /\
            mFence s' = mFence s2 /\ fences s' = fences s2) as Hsteps.
  { destruct k; simpl in Hu.
    - unfold ShapesApp_Update in Hu.
      destruct (cycle_and_wait s) as [[w0 s1]|]; [|discriminate]. simpl in Hu.
      destruct (UpdateObjectCBs s1) as [s2|] eqn:Ho; [|discriminate].
      simpl in Hu. injection Hu as <- <-. exists s1, s2. by rewrite Ho.
    - unfold TreeBillboardsApp_Update in Hu.
      destruct (cycle_and_wait s) as [[w0 s1]|]; [|discriminate]. simpl in Hu.
      destruct (UpdateObjectCBs s1) as [s2|] eqn:Ho; [|discriminate].
      simpl in Hu.
      destruct (UpdateWaves crand gt s2) as [[d s3]|] eqn:Hw; [|discriminate].
      simpl in Hu. injection Hu as <- <-. exists s1, s2. rewrite Ho.
      apply UpdateWaves_frame in Hw as (A1 & A2 & A3 & A4 & A5 & _).
      repeat split; done. }
  destruct Hsteps as (s1 & s2 & Hc & Ho & E1 & E2 & E3 & E4 & E5).
  apply cycle_and_wait_spec in Hc
    as (C1 & C2 & C3 & C4 & C5 & _ & _ & _ & _ & _ & fr & Hfr & Hw & Hn & Hy & Hpost).
  apply UpdateObjectCBs_frame in Ho as (O1 & O2 & O3 & O4 & O5 & _).
  repeat split; try congruence.
  - rewrite E5, O5. unfold fences. by rewrite C4.
  - exists fr. rewrite E4, O4. done.
Qed.

(** [Draw] hands out the next fence value. *)
Lemma Draw_spec (s s' : @App F W) :
  Draw s = Some s' ->
  exists cur fr,
    mCurrFrameResource s = Some cur /\
    mFrameResources s !! cur = Some fr /\
    mCurrentFence s' = wrap64 (mCurrentFence s + 1) /\
    mFrameResources s' =
      <[ cur := set_Fence (mCurrentFence s') fr ]> (mFrameResources s) /\
    mFence s' = Signal (mCurrentFence s') (mFence s) /\
    mCurrFrameResourceIndex s' = mCurrFrameResourceIndex s /\
    mCurrFrameResource s' = mCurrFrameResource s /\
    mAllRitems s' = mAllRitems s.
Proof.
  unfold Draw. intros Hd.
  destruct (mCurrFrameResource s) as [cur|] eqn:Hcur; [|discriminate].
  simpl in Hd.
  destruct (mFrameResources s !! cur) as [fr|] eqn:Hfr; [|discriminate].
  simpl in Hd. injection Hd as <-. exists cur, fr. simpl. done.
Qed.

Lemma fences_Draw (s s' : @App F W) :
  Draw s = Some s' ->
  exists cur, mCurrFrameResource s = Some cur /\
    (cur < length (fences s))%nat /\
    fences s' = <[ cur := wrap64 (mCurrentFence s + 1) ]> (fences s).
Proof.
  intros Hd. apply Draw_spec in Hd
    as (cur & fr & Hcur & Hfr & Hc & Hfrs & _).
  exists cur. split; [done|]. split.
  - unfold fences. rewrite length_fmap. by eapply lookup_lt_Some.
  - unfold fences. rewrite Hfrs, list_fmap_insert. simpl. by rewrite Hc.
Qed.

Lemma fences_ok_Draw (s s' : @App F W) :
  fences_ok s -> mCurrentFence s + 1 < UINT64_MOD -> Draw s = Some s' ->
  fences_ok s' /\ mCurrentFence s' = mCurrentFence s + 1.
Proof.
  intros (Hrange & Hle & Hdist) Hnowrap Hd.
  destruct (fences_Draw _ _ Hd) as (cur & Hcur & Hlen & Hfs).
  apply Draw_spec in Hd as (_ & _ & _ & _ & Hc & _).
  assert (mCurrentFence s' = mCurrentFence s + 1) as Hc'.
  { rewrite Hc. unfold wrap64. apply Z.mod_small. lia. }
  split; [|done]. split; [lia|]. rewrite Hfs, <- Hc, Hc'. split.
  - intros i a Hi. destruct (decide (i = cur)) as [->|Hne].
    + rewrite list_lookup_insert_eq in Hi by done. injection Hi as <-. lia.
    + rewrite list_lookup_insert_ne in Hi by done. apply Hle in Hi. lia.
  - intros i j a Hij Hi Hj.
    destruct (decide (i = cur)) as [->|Hi'];
      destruct (decide (j = cur)) as [->|Hj']; [done| | |].
    + rewrite list_lookup_insert_eq in Hi by done. injection Hi as <-.
      rewrite list_lookup_insert_ne in Hj by done. apply Hle in Hj. lia.
    + rewrite list_lookup_insert_eq in Hj by done. injection Hj as <-.
      rewrite list_lookup_insert_ne in Hi by done. apply Hle in Hi. lia.
    + rewrite list_lookup_insert_ne in Hi, Hj by done.
      exact (Hdist i j a Hij Hi Hj).
Qed.

Lemma step_not_draw k a (s s1 : @App F W) :
  is_draw a = false -> step crand k a s = Some s1 ->
  fences s1 = fences s /\ mCurrentFence s1 = mCurrentFence s.
Proof.
  destruct a as [gt| |]; [|discriminate|]; intros _ Hs; simpl in Hs.
  - destruct (Update crand k gt (set_mTimer gt s)) as [[w s2]|] eqn:Hu;
      [|discriminate].
    simpl in Hs. injection Hs as <-.
    apply Update_spec in Hu as (_ & _ & _ & Hc & Hf & _). done.
  - injection Hs as <-. done.
Qed.

Lemma step_index k a (s s1 : @App F W) :
  step crand k a s = Some s1 ->
  mCurrFrameResourceIndex s1 =
    if is_update a then next_index s else mCurrFrameResourceIndex s.
Proof.
  destruct a as [gt| |]; intros Hs; simpl in Hs.
  - destruct (Update crand k gt (set_mTimer gt s)) as [[w s2]|] eqn:Hu;
      [|discriminate].
    simpl in Hs. injection Hs as <-.
    apply Update_spec in Hu as (Hi & _). done.
  - apply Draw_spec in Hs as (_ & _ & _ & _ & _ & _ & _ & Hi & _). done.
  - injection Hs as <-. done.
Qed.

Lemma next_index_mod (s : @App F W) :
  0 <= mCurrFrameResourceIndex s ->
  next_index s = (mCurrFrameResourceIndex s + 1) mod 3.
Proof.
  intros Hi. unfold next_index, gNumFrameResources.
  apply Z.rem_mod_nonneg; lia.
Qed.

Lemma updates_cons a (acts : list (Action F)) :
  updates (a :: acts) = (if is_update a then 1 else 0) + updates acts.
Proof.
  unfold updates. rewrite filter_cons.
  destruct (is_update a); simpl; [|done].
  destruct (decide (true = true)); [|done]. simpl length. lia.
Qed.

Lemma draws_cons a (acts : list (Action F)) :
  draws (a :: acts) = (if is_draw a then 1 else 0) + draws acts.
Proof.
  unfold draws. rewrite filter_cons.
  destruct (is_draw a); simpl; [|done].
  destruct (decide (true = true)); [|done]. simpl length. lia.
Qed.

Lemma updates_nonneg (acts : list (Action F)) : 0 <= updates acts.
Proof. unfold updates. lia. Qed.

Lemma draws_nonneg (acts : list (Action F)) : 0 <= draws acts.
Proof. unfold draws. lia. Qed.

(** The ring index after a run. *)
Lemma run_index k (acts : list (Action F)) :
  forall s s' : @App F W,
    0 <= mCurrFrameResourceIndex s < 3 ->
    run crand k acts s = Some s' ->
    mCurrFrameResourceIndex s' = (mCurrFrameResourceIndex s + updates acts) mod 3.
Proof.
  induction acts as [|a acts IH]; intros s s' Hi Hr; simpl in Hr.
  - injection Hr as <-. unfold updates. simpl. rewrite Z.add_0_r.
    symmetry. apply Z.mod_small. lia.
  - destruct (step crand k a s) as [s1|] eqn:Hs; [|discriminate]. simpl in Hr.
    pose proof (step_index _ _ _ _ Hs) as Hi1.
    rewrite updates_cons.
    destruct (is_update a).
    + rewrite next_index_mod in Hi1 by lia.
      rewrite (IH s1 s'); [|rewrite Hi1; apply Z.mod_pos_bound; lia|done].
      rewrite Hi1, Zplus_mod_idemp_l. f_equal. lia.
    + rewrite (IH s1 s'); [|rewrite Hi1; lia|done]. rewrite Hi1. f_equal.
Qed.

(** The fence bookkeeping after a run in which the counter does not wrap. *)
Lemma run_fences k (acts : list (Action F)) :
  forall s s' : @App F W,
    fences_ok s ->
    mCurrentFence s + draws acts < UINT64_MOD ->
    run crand k acts s = Some s' ->
    fences_ok s' /\
    mCurrentFence s' = mCurrentFence s + draws acts /\
    fences_assigned crand k acts s =
      (fun i => mCurrentFence s + i) <$> seqZ 1 (draws acts).
Proof.
  induction acts as [|a acts IH]; intros s s' Hok Hnw Hr; simpl in Hr.
  - injection Hr as <-. unfold draws. simpl. split; [done|]. split; [lia|done].
  - destruct (step crand k a s) as [s1|] eqn:Hs; [|discriminate]. simpl in Hr.
    rewrite draws_cons in *. pose proof (draws_nonneg acts) as Hd0.
    simpl fences_assigned. rewrite Hs.
    destruct (is_draw a) eqn:Ha.
    + destruct a; try discriminate. simpl in Hs.
      destruct (fences_ok_Draw s s1 Hok ltac:(lia) Hs) as (Hok1 & Hc1).
      destruct (IH s1 s' Hok1 ltac:(lia) Hr) as (Hok' & Hc' & Hfa).
      split; [done|]. split; [lia|].
      rewrite Hfa. rewrite (seqZ_cons 1 (1 + draws acts)) by lia. simpl.
      f_equal; [lia|].
      replace (Z.pred (1 + draws acts)) with (draws acts) by lia.
      replace (Z.succ 1) with (1 + 1) by lia.
      rewrite <- (fmap_add_seqZ 1 1). rewrite <- list_fmap_compose.
      apply list_fmap_ext. intros _ i _. simpl. lia.
    + destruct (step_not_draw _ _ _ _ Ha Hs) as (Hf1 & Hc1).
      assert (fences_ok s1) as Hok1.
      { destruct Hok as (A & B & C). unfold fences_ok. rewrite Hf1, Hc1. done. }
      destruct (IH s1 s' Hok1 ltac:(lia) Hr) as (Hok' & Hc' & Hfa).
      split; [done|]. split; [lia|].
      replace (0 + draws acts) with (draws acts) by lia.
      rewrite <- Hc1.
      destruct a; try discriminate; done.
Qed.

End RingFacts.

(** ** Consistency of the GPU queue *)

Lemma gpu_consistent_step counter fs g :
  gpu_consistent counter fs g -> gpu_consistent counter fs (gpu_step g).
Proof.
  intros (Hc & Hp & Hs & Hf). unfold gpu_step.
  destruct (pending g) as [|v q] eqn:Hq; [by rewrite <- Hq in *|].
  simpl. repeat split; simpl.
  - apply Hp. by left.
  - intros u Hu. apply Hp. by right.
  - by inversion Hs.
  - intros a Ha. destruct (Hf a Ha) as [?|[Hle|Hin]]; [by left| |].
    + right; left. inversion Hs as [|? ? _ Hall]; subst.
      inversion Hall; subst. lia.
    + apply elem_of_cons in Hin as [->|Hin]; [right; left; lia|by right; right].
Qed.

Lemma gpu_consistent_wait counter fs target (q : list Z) :
  forall c g, wait_loop target c q = Some g ->
    gpu_consistent counter fs (mkGPU c q) -> gpu_consistent counter fs g.
Proof.
  induction q as [|v q IH]; intros c g; simpl.
  - destruct (target <=? c); [|discriminate]. by intros [= <-].
  - destruct (target <=? c); [by intros [= <-]|].
    intros Hw Hok. apply (IH v g Hw).
    apply (gpu_consistent_step _ _ (mkGPU c (v :: q)) Hok).
Qed.

Lemma gpu_consistent_signal counter fs g i :
  gpu_consistent counter fs g -> (i < length fs)%nat ->
  gpu_consistent (counter + 1) (<[ i := counter + 1 ]> fs) (Signal (counter + 1) g).
Proof.
  intros (Hc & Hp & Hs & Hf) Hi. unfold Signal. repeat split; simpl.
  - lia.
  - intros v Hv. apply elem_of_app in Hv as [Hv|Hv].
    + apply Hp in Hv. lia.
    + apply list_elem_of_singleton in Hv. lia.
  - assert (forall c q, StronglySorted Z.lt (c :: q) ->
              c <= counter -> (forall v, v ∈ q -> v <= counter) ->
              StronglySorted Z.lt (c :: q ++ [counter + 1])) as Hgen.
    { intros c q. revert c. induction q as [|u q IH]; intros c Hsort Hle Hall.
      - simpl. constructor; [constructor; constructor|]. constructor; [lia|constructor].
      - inversion Hsort as [|? ? Hs' Hfa]; subst. simpl. constructor.
        + apply IH; [done| |].
          * apply Hall. by left.
          * intros v Hv. apply Hall. by right.
        + inversion Hfa; subst. constructor; [done|].
          apply Forall_app. split; [done|]. constructor; [lia|constructor]. }
    by apply Hgen.
  - intros a Ha. apply list_elem_of_lookup in Ha as (j & Hj).
    destruct (decide (j = i)) as [->|Hne].
    + rewrite list_lookup_insert_eq in Hj by done. injection Hj as <-.
      right; right. apply elem_of_app. right. by apply list_elem_of_singleton.
    + rewrite list_lookup_insert_ne in Hj by done.
      destruct (Hf a) as [?|[?|Hin]]; [by eapply list_elem_of_lookup_2| by left
        | by right; left |].
      right; right. apply elem_of_app. by left.
Qed.

Section RingTheorems.
Context {F W : Type} `{FloatOps F} `{WavesOps F W}.
Variable crand : nat -> Z.

Lemma ring_initial_fences_ok (s : @App F W) : ring_initial s -> fences_ok s.
Proof.
  intros (Hf & _ & Hc & _). split; [done|]. rewrite Hf. split.
  - intros i a Hi. assert (a = 0) as ->; [|lia].
    destruct i as [|[|[|i]]]; simpl in Hi; try congruence; done.
  - intros i j a _ Hi _.
    destruct i as [|[|[|i]]]; simpl in Hi; try congruence; done.
Qed.

Lemma ring_initial_gpu_ok (s : @App F W) : ring_initial s -> gpu_ok s.
Proof.
  intros (Hf & _ & Hc & Hg & Hp). unfold gpu_ok, gpu_consistent.
  rewrite Hf, Hp. repeat split; try done.
  - intros v Hv. by apply elem_of_nil in Hv.
  - constructor; constructor.
  - intros a Ha. left.
    repeat (apply elem_of_cons in Ha as [->|Ha]; [done|]).
    by apply elem_of_nil in Ha.
Qed.

Lemma gpu_ok_step k a (s s1 : @App F W) :
  fences_ok s -> gpu_ok s ->
  mCurrentFence s + (if is_draw a then 1 else 0) < UINT64_MOD ->
  step crand k a s = Some s1 -> gpu_ok s1.
Proof.
  intros Hok Hg Hnw Hs. unfold gpu_ok in *.
  destruct a as [gt| |]; simpl in Hs.
  - destruct (Update crand k gt (set_mTimer gt s)) as [[w s2]|] eqn:Hu;
      [|discriminate].
    simpl in Hs. injection Hs as <-.
    apply Update_spec in Hu
      as (_ & _ & _ & Hc & Hf & fr & _ & _ & Hn & Hy & _).
    rewrite Hc, Hf. simpl. change (fences (set_mTimer gt s)) with (fences s).
    destruct w.
    + specialize (Hy eq_refl). unfold WaitForSingleObject in Hy. simpl in Hy.
      eapply gpu_consistent_wait; [exact Hy|]. by destruct (mFence s).
    + rewrite (Hn eq_refl). done.
  - destruct (fences_Draw _ _ Hs) as (cur & _ & Hlen & Hfs).
    apply Draw_spec in Hs as (_ & _ & _ & _ & Hc & _ & Hsig & _).
    assert (wrap64 (mCurrentFence s + 1) = mCurrentFence s + 1) as Hw.
    { unfold wrap64. apply Z.mod_small. destruct Hok as ((? & ?) & _). simpl in Hnw. lia. }
    rewrite Hsig, Hfs, Hc, Hw. by apply gpu_consistent_signal.
  - injection Hs as <-. simpl. by apply gpu_consistent_step.
Qed.

(** In a consistent state the wait of [Update] always returns. *)
Lemma cycle_and_wait_returns (s : @App F W) :
  length (mFrameResources s) = 3%nat -> index_in_ring s -> gpu_ok s ->
  is_Some (cycle_and_wait s).
Proof.
  intros Hlen Hidx (_ & _ & _ & Hf). unfold cycle_and_wait.
  unfold index_in_ring, gNumFrameResources in *.
  destruct (Z.leb_spec INT_MAX (mCurrFrameResourceIndex s)) as [Hm|_];
    [unfold INT_MAX in Hm; lia|].
  assert (0 <= Z.rem (mCurrFrameResourceIndex s + 1) 3 < 3) as Hr.
  { rewrite Z.rem_mod_nonneg by lia. apply Z.mod_pos_bound. lia. }
  destruct (Z.ltb_spec (Z.rem (mCurrFrameResourceIndex s + 1) 3) 0); [lia|].
  destruct (lookup_lt_is_Some_2 (mFrameResources s)
              (Z.to_nat (Z.rem (mCurrFrameResourceIndex s + 1) 3))) as [fr Hfr];
    [lia|].
  rewrite Hfr. simpl.
  destruct (Z.eqb_spec (Fence fr) 0) as [Hz|Hz]; simpl; [eauto|].
  destruct (Z.ltb_spec (GetCompletedValue (mFence s)) (Fence fr)); [|eauto].
  assert (Fence fr ∈ fences s) as Hin.
  { apply list_elem_of_fmap. exists fr. split; [done|].
    by eapply list_elem_of_lookup_2. }
  assert (is_Some (WaitForSingleObject (Fence fr) (mFence s))) as [g Hg].
  { apply wait_loop_in_queue.
    destruct (Hf _ Hin) as [?|[Hle|Hq]]; [done|by left|].
    right. exists (Fence fr). split; [done|lia]. }
  rewrite Hg. simpl. eauto.
Qed.

(** The ring invariants hold along every run in which the fence counter
    does not wrap. *)
Lemma run_ring_ok k (acts : list (Action F)) :
  forall s s' : @App F W,
    fences_ok s -> gpu_ok s ->
    mCurrentFence s + draws acts < UINT64_MOD ->
    run crand k acts s = Some s' ->
    fences_ok s' /\ gpu_ok s' /\ length (fences s') = length (fences s).
Proof.
  induction acts as [|a acts IH]; intros s s' Hok Hg Hnw Hr; simpl in Hr.
  - injection Hr as <-. done.
  - destruct (step crand k a s) as [s1|] eqn:Hs; [|discriminate]. simpl in Hr.
    rewrite draws_cons in Hnw. pose proof (draws_nonneg acts) as Hd0.
    assert (gpu_ok s1) as Hg1.
    { eapply gpu_ok_step; [exact Hok|exact Hg| |exact Hs].
      destruct (is_draw a); lia. }
    assert (fences_ok s1 /\ length (fences s1) = length (fences s) /\
            mCurrentFence s1 = mCurrentFence s + (if is_draw a then 1 else 0))
      as (Hok1 & Hl1 & Hc1).
    { destruct (is_draw a) eqn:Ha.
      - destruct a; try discriminate. simpl in Hs.
        destruct (fences_ok_Draw s s1 Hok ltac:(lia) Hs) as (? & ?).
        destruct (fences_Draw _ _ Hs) as (cur & _ & _ & Hfs).
        split; [done|]. split; [|done]. by rewrite Hfs, length_insert.
      - destruct (step_not_draw crand _ _ _ _ Ha Hs) as (Hf1 & Hc1).
        destruct Hok as (A & B & C). unfold fences_ok. rewrite Hf1, Hc1.
        split; [done|]. split; [done|lia]. }
    destruct (IH s1 s' Hok1 Hg1 ltac:(lia) Hr) as (? & ? & Hl).
    split; [done|]. split; [done|]. congruence.
Qed.

(** C1.  In every call to [Update], of either application, the CPU waits
    on the fence event exactly when the newly selected frame resource has
    a nonzero [Fence] that the fence's completed value has not reached;
    once [Update] is past the wait, that frame resource has [Fence = 0]
    (never submitted) or its fence value has been completed by the GPU. *)
Theorem update_waits_iff_gpu_behind k gt (s s' : @App F W) waited :
  Update crand k gt s = Some (waited, s') ->
  exists cur fr fr',
    mCurrFrameResource s' = Some cur /\
    mFrameResources s !! cur = Some fr /\
    mFrameResources s' !! cur = Some fr' /\
    Fence fr' = Fence fr /\
    (waited = true <->
       Fence fr <> 0 /\ GetCompletedValue (mFence s) < Fence fr) /\
    (Fence fr' = 0 \/ Fence fr' <= GetCompletedValue (mFence s')).
Proof.
  intros Hu.
  apply Update_spec in Hu
    as (_ & _ & Hcur & _ & Hf & fr & Hfr & Hw & _ & _ & Hpost).
  assert (fences s' !! Z.to_nat (next_index s) = Some (Fence fr)) as Hl.
  { rewrite Hf. unfold fences. by rewrite list_lookup_fmap, Hfr. }
  unfold fences in Hl. rewrite list_lookup_fmap in Hl.
  destruct (mFrameResources s' !! Z.to_nat (next_index s)) as [fr'|] eqn:Hfr';
    [|discriminate].
  simpl in Hl. injection Hl as Hl.
  exists (Z.to_nat (next_index s)), fr, fr'. rewrite Hl. done.
Qed.

(** C2.  [BuildFrameResources] fills the ring with exactly
    [gNumFrameResources = 3] frame resources; in every state [s] reached
    from the initial index 0 the index lies in [0, 3) and equals the number
    of [Update] calls modulo 3; each [Update] advances it by one modulo 3
    and selects that frame resource; and after further calls the same
    frame resource is selected again exactly when their number is a
    multiple of 3. *)
Theorem ring_round_robin k acts acts' gt oc0 v0 (s_new s0 s s' : @App F W) :
  mFrameResources s_new = [] ->
  mCurrFrameResourceIndex s0 = 0 ->
  run crand k acts s0 = Some s ->
  run crand k acts' s = Some s' ->
  length (mFrameResources (BuildFrameResources oc0 v0 s_new)) = 3%nat /\
  gNumFrameResources = 3 /\
  index_in_ring s /\
  mCurrFrameResourceIndex s = updates acts mod 3 /\
  (forall waited s1, Update crand k gt s = Some (waited, s1) ->
     mCurrFrameResourceIndex s1 = (mCurrFrameResourceIndex s + 1) mod 3 /\
     index_in_ring s1 /\
     mCurrFrameResource s1 = Some (Z.to_nat (mCurrFrameResourceIndex s1))) /\
  mCurrFrameResourceIndex s' = (mCurrFrameResourceIndex s + updates acts') mod 3 /\
  (mCurrFrameResourceIndex s' = mCurrFrameResourceIndex s <->
     updates acts' mod 3 = 0).
Proof.
  intros Hnew Hzero Hr Hr'.
  assert (mCurrFrameResourceIndex s = updates acts mod 3) as Hs.
  { rewrite (run_index crand k acts s0 s) by (done || lia). by rewrite Hzero. }
  assert (0 <= mCurrFrameResourceIndex s < 3) as Hin.
  { rewrite Hs. apply Z.mod_pos_bound. lia. }
  assert (mCurrFrameResourceIndex s' =
          (mCurrFrameResourceIndex s + updates acts') mod 3) as Hs'.
  { by apply (run_index crand k acts' s s'). }
  split. { simpl. rewrite Hnew. done. }
  split; [done|]. split; [done|]. split; [done|]. split; [|split; [done|]].
  - intros waited s1 Hu.
    apply Update_spec in Hu as (Hi & _ & Hc & _).
    rewrite next_index_mod in Hi by lia.
    assert (0 <= mCurrFrameResourceIndex s1 < 3) as Hin1.
    { rewrite Hi. apply Z.mod_pos_bound. lia. }
    split; [done|]. split; [done|]. rewrite Hc. f_equal. f_equal.
    rewrite Hi. rewrite next_index_mod by lia. done.
  - rewrite Hs'. rewrite <- Zplus_mod_idemp_r.
    pose proof (Z.mod_pos_bound (updates acts') 3 ltac:(lia)) as Hb.
    set (r := updates acts' mod 3) in *.
    assert (r = 0 \/ r = 1 \/ r = 2) as Hr3 by lia.
    assert (mCurrFrameResourceIndex s = 0 \/ mCurrFrameResourceIndex s = 1 \/
            mCurrFrameResourceIndex s = 2) as Ha3 by lia.
    clearbody r.
    destruct Hr3 as [Hr3|[Hr3|Hr3]]; destruct Ha3 as [Ha3|[Ha3|Ha3]];
      rewrite Hr3, Ha3; split; intros Heq; try done;
      try (vm_compute in Heq; discriminate).
Qed.

(** C5.  From the initialised ring, along any run in which the 64-bit
    counter does not wrap: each [Draw] increments [mCurrentFence] by exactly
    one, stores the new value in the current frame resource's [Fence] and
    signals the queue with it; the values handed out by the successive
    [Draw] calls are [c+1, c+2, ...], each one more than the previous; and
    at any time the three [Fence] fields are pairwise distinct or zero. *)
Theorem draw_fences_strictly_increasing k acts (s0 s s' : @App F W) :
  ring_initial s0 ->
  run crand k acts s0 = Some s ->
  Draw s = Some s' ->
  mCurrentFence s0 + draws acts + 1 < UINT64_MOD ->
  mCurrentFence s' = mCurrentFence s + 1 /\
  (exists cur fr', mCurrFrameResource s = Some cur /\
     mFrameResources s' !! cur = Some fr' /\ Fence fr' = mCurrentFence s') /\
  mFence s' = Signal (mCurrentFence s') (mFence s) /\
  mCurrentFence s = mCurrentFence s0 + draws acts /\
  fences_assigned crand k acts s0 =
    (fun i => mCurrentFence s0 + i) <$> seqZ 1 (draws acts) /\
  length (fences s) = 3%nat /\
  distinct_or_zero (fences s) /\
  distinct_or_zero (fences s').
Proof.
  intros Hinit Hr Hd Hnw.
  pose proof (ring_initial_fences_ok _ Hinit) as Hok0.
  pose proof (ring_initial_gpu_ok _ Hinit) as Hg0.
  destruct (run_fences crand k acts s0 s Hok0 ltac:(lia) Hr) as (Hok & Hc & Hfa).
  destruct (run_ring_ok k acts s0 s Hok0 Hg0 ltac:(lia) Hr) as (_ & _ & Hlen).
  destruct (fences_ok_Draw s s' Hok ltac:(lia) Hd) as (Hok' & Hc').
  destruct (Draw_spec _ _ Hd) as (cur & fr & Hcur & Hfr & _ & Hfrs & Hsig & _).
  split; [done|]. split.
  { exists cur, (set_Fence (mCurrentFence s') fr). split; [done|].
    rewrite Hfrs. split; [|done]. apply list_lookup_insert_eq.
    by eapply lookup_lt_Some. }
  split; [done|]. split; [done|]. split; [done|]. split.
  { rewrite Hlen. destruct Hinit as (-> & _). done. }
  split; [apply Hok|apply Hok'].
Qed.
End RingTheorems.

(** ** Object constant buffers *)

Section ObjectCBs.
Context {F W : Type} `{FloatOps F} `{WavesOps F W}.
Variable crand : nat -> Z.

Lemma CopyData_Some {T : Type} (i : Z) (x : T) (buf buf' : list T) :
  CopyData i x buf = Some buf' ->
  0 <= i /\ (Z.to_nat i < length buf)%nat /\ buf' = <[ Z.to_nat i := x ]> buf.
Proof.
  unfold CopyData.
  destruct (Z.leb_spec 0 i); simpl; [|discriminate].
  destruct (Z.ltb_spec i (Z.of_nat (length buf))); [|discriminate].
  intros [= <-]. split; [done|]. split; [lia|done].
Qed.

Lemma item_after_pass_slot (e : RenderItem F) :
  ObjCBIndex (item_after_pass e) = ObjCBIndex e.
Proof. unfold item_after_pass. by destruct (0 <? NumFramesDirty e). Qed.

Lemma item_after_pass_constants (e : RenderItem F) :
  object_constants (item_after_pass e) = object_constants e.
Proof. unfold item_after_pass. by destruct (0 <? NumFramesDirty e). Qed.

Lemma item_after_pass_dirty (e : RenderItem F) :
  0 < NumFramesDirty e ->
  item_after_pass e = set_NumFramesDirty (NumFramesDirty e - 1) e.
Proof. unfold item_after_pass. destruct (Z.ltb_spec 0 (NumFramesDirty e)); [done|lia]. Qed.

Lemma item_after_pass_clean (e : RenderItem F) :
  NumFramesDirty e <= 0 -> item_after_pass e = e.
Proof. unfold item_after_pass. destruct (Z.ltb_spec 0 (NumFramesDirty e)); [lia|done]. Qed.

(** The loop of [UpdateObjectCBs]: the items after the pass, and the buffer
    slot by slot. *)
Lemma UpdateObjectCBs_loop_spec (items : list (RenderItem F)) :
  forall cb items' cb',
    UpdateObjectCBs_loop items cb = Some (items', cb') ->
    items' = item_after_pass <$> items /\
    length cb' = length cb /\
    (forall slot, 0 <= slot -> slot_clean items slot ->
       cb' !! Z.to_nat slot = cb !! Z.to_nat slot) /\
    (distinct_slots items ->
     forall e, e ∈ items -> 0 < NumFramesDirty e ->
       cb' !! Z.to_nat (ObjCBIndex e) = Some (object_constants e)).
Proof.
  induction items as [|e rest IH]; intros cb items' cb' Hl; simpl in Hl.
  - injection Hl as <- <-. repeat split; try done.
    intros _ e He. by apply elem_of_nil in He.
  - destruct (Z.ltb_spec 0 (NumFramesDirty e)) as [Hdirty|Hclean].
    + destruct (CopyData (ObjCBIndex e) (object_constants e) cb) as [cb1|] eqn:Hcp;
        [|discriminate].
      simpl in Hl.
      destruct (UpdateObjectCBs_loop rest cb1) as [[rest' cb2]|] eqn:Hrest;
        [|discriminate].
      simpl in Hl. injection Hl as <- <-.
      apply CopyData_Some in Hcp as (Hi0 & Hi & ->).
      destruct (IH _ _ _ Hrest) as (-> & Hlen & Hkeep & Hwr).
      rewrite fmap_cons, item_after_pass_dirty by done.
      split; [done|]. split; [by rewrite Hlen, length_insert|]. split.
      * intros slot Hs Hc. rewrite Hkeep; [|done|].
        -- apply list_lookup_insert_ne. intros Heq.
           apply (Hc e); [by left|done|]. lia.
        -- intros e' He'. apply Hc. by right.
      * intros Hnd e' He' Hd'. apply NoDup_cons in Hnd as (Hnotin & Hnd).
        apply elem_of_cons in He' as [->|He'].
        -- rewrite Hkeep; [by apply list_lookup_insert_eq|done|].
           intros e' He' _ Heq. apply Hnotin. rewrite <- Heq.
           apply list_elem_of_fmap. by exists e'.
        -- by apply Hwr.
    + destruct (UpdateObjectCBs_loop rest cb) as [[rest' cb2]|] eqn:Hrest;
        [|discriminate].
      simpl in Hl. injection Hl as <- <-.
      destruct (IH _ _ _ Hrest) as (-> & Hlen & Hkeep & Hwr).
      rewrite fmap_cons, item_after_pass_clean by done.
      split; [done|]. split; [done|]. split.
      * intros slot Hs Hc. apply Hkeep; [done|].
        intros e' He'. apply Hc. by right.
      * intros Hnd e' He' Hd'. apply NoDup_cons in Hnd as (_ & Hnd).
        apply elem_of_cons in He' as [->|He']; [lia|by apply Hwr].
Qed.

(** One call of [UpdateObjectCBs]. *)
Lemma UpdateObjectCBs_spec (s s' : @App F W) :
  UpdateObjectCBs s = Some s' ->
  exists cur fr fr',
    mCurrFrameResource s = Some cur /\
    mFrameResources s !! cur = Some fr /\
    mFrameResources s' = <[ cur := fr' ]> (mFrameResources s) /\
    WavesVB fr' = WavesVB fr /\ Fence fr' = Fence fr /\
    length (ObjectCB fr') = length (ObjectCB fr) /\
    mAllRitems s' = item_after_pass <$> mAllRitems s /\
    (forall slot, 0 <= slot -> slot_clean (mAllRitems s) slot ->
       ObjectCB fr' !! Z.to_nat slot = ObjectCB fr !! Z.to_nat slot) /\
    (distinct_slots (mAllRitems s) ->
     forall e, e ∈ mAllRitems s -> 0 < NumFramesDirty e ->
       ObjectCB fr' !! Z.to_nat (ObjCBIndex e) = Some (object_constants e)).
Proof.
  unfold UpdateObjectCBs. intros Hu.
  destruct (mCurrFrameResource s) as [cur|] eqn:Hcur; [|discriminate].
  simpl in Hu.
  destruct (mFrameResources s !! cur) as [fr|] eqn:Hfr; [|discriminate].
  simpl in Hu.
  destruct (UpdateObjectCBs_loop _ _) as [[items cb]|] eqn:Hl; [|discriminate].
  simpl in Hu. injection Hu as <-.
  apply UpdateObjectCBs_loop_spec in Hl as (-> & Hlen & Hkeep & Hwr).
  exists cur, fr, (set_ObjectCB cb fr). simpl. repeat split; done.
Qed.

Lemma UpdateWaves_object_cbs gt (s s' : @App F W) d :
  UpdateWaves crand gt s = Some (d, s') ->
  object_cbs s' = object_cbs s /\ mAllRitems s' = mAllRitems s.
Proof.
  unfold UpdateWaves. intros Hu.
  destruct (UpdateWaves_disturb crand s) as [[[[d0 tb] n] w1]|]; [|discriminate].
  simpl in Hu.
  destruct (mCurrFrameResource s) as [cur|] eqn:Hcur; [|discriminate].
  simpl in Hu.
  destruct (mFrameResources s !! cur) as [fr|] eqn:Hfr; [|discriminate].
  simpl in Hu.
  destruct (UpdateWaves_loop _ _ _ _) as [vb|]; [|discriminate].
  simpl in Hu. injection Hu as <- <-. simpl. split; [|done].
  unfold object_cbs. simpl. rewrite list_fmap_insert. simpl.
  apply list_insert_id. by rewrite list_lookup_fmap, Hfr.
Qed.

(** What [Update] of either application does to the render items and to
    the object constant buffers of the ring. *)
Lemma Update_object_cbs k gt (s s' : @App F W) waited :
  Update crand k gt s = Some (waited, s') ->
  mAllRitems s' = item_after_pass <$> mAllRitems s /\
  length (object_cbs s') = length (object_cbs s) /\
  (forall j, j <> Z.to_nat (next_index s) ->
     object_cbs s' !! j = object_cbs s !! j) /\
  exists cb cb',
    object_cbs s !! Z.to_nat (next_index s) = Some cb /\
    object_cbs s' !! Z.to_nat (next_index s) = Some cb' /\
    (forall slot, 0 <= slot -> slot_clean (mAllRitems s) slot ->
       cb' !! Z.to_nat slot = cb !! Z.to_nat slot) /\
    (distinct_slots (mAllRitems s) ->
     forall e, e ∈ mAllRitems s -> 0 < NumFramesDirty e ->
       cb' !! Z.to_nat (ObjCBIndex e) = Some (object_constants e)).
Proof.
  intros Hu.
  assert (exists s1 s2, cycle_and_wait s = Some (waited, s1) /\
            UpdateObjectCBs s1 = Some s2 /\
            object_cbs s' = object_cbs s2 /\ mAllRitems s' = mAllRitems s2)
    as (s1 & s2 & Hc & Ho & E1 & E2).
  { destruct k; simpl in Hu.
    - unfold ShapesApp_Update in Hu.
      destruct (cycle_and_wait s) as [[w0 s1]|]; [|discriminate]. simpl in Hu.
      destruct (UpdateObjectCBs s1) as [s2|] eqn:Ho; [|discriminate].
      simpl in Hu. injection Hu as <- <-. exists s1, s2. by rewrite Ho.
    - unfold TreeBillboardsApp_Update in Hu.
      destruct (cycle_and_wait s) as [[w0 s1]|]; [|discriminate]. simpl in Hu.
      destruct (UpdateObjectCBs s1) as [s2|] eqn:Ho; [|discriminate].
      simpl in Hu.
      destruct (UpdateWaves crand gt s2) as [[d s3]|] eqn:Hw; [|discriminate].
      simpl in Hu. injection Hu as <- <-. exists s1, s2. rewrite Ho.
      apply UpdateWaves_object_cbs in Hw as (? & ?). done. }
  apply cycle_and_wait_spec in Hc
    as (_ & _ & Hcur & Hfrs & _ & Hit & _).
  apply UpdateObjectCBs_spec in Ho
    as (cur & fr & fr' & Hcur' & Hfr & Hfrs' & _ & _ & Hlen & Hitems & Hkeep & Hwr).
  rewrite Hcur in Hcur'. injection Hcur' as <-.
  rewrite Hit in *. rewrite Hfrs in *.
  assert (object_cbs s' = <[ Z.to_nat (next_index s) := ObjectCB fr' ]> (object_cbs s))
    as Hcbs.
  { rewrite E1. unfold object_cbs. by rewrite Hfrs', list_fmap_insert. }
  rewrite E2, Hcbs. split; [done|]. split; [by rewrite length_insert|]. split.
  { intros j Hj. by apply list_lookup_insert_ne. }
  exists (ObjectCB fr), (ObjectCB fr'). split.
  { unfold object_cbs. by rewrite list_lookup_fmap, Hfr. }
  split; [|done]. apply list_lookup_insert_eq.
  unfold object_cbs. rewrite length_fmap. by eapply lookup_lt_Some.
Qed.

(** C8.  [UpdateObjectCBs] writes the object constant buffer of the current
    frame resource only at the slots of the render items whose
    [NumFramesDirty] is positive and decrements those counters by one; the
    other items keep their slot contents and their counters, and the other
    frame resources are not written.  With the slots pairwise different, an
    item whose counter is [gNumFrameResources] has counter 0 after three
    consecutive [Update] calls, and all three object constant buffers then
    hold its transposed [World] and [TexTransform]. *)
Theorem object_cbs_follow_dirty_items k gt1 gt2 gt3
    (s s' s0 s1 s2 s3 : @App F W) w1 w2 w3 p e :
  UpdateObjectCBs s = Some s' ->
  distinct_slots (mAllRitems s) ->
  distinct_slots (mAllRitems s0) ->
  index_in_ring s0 ->
  length (mFrameResources s0) = 3%nat ->
  mAllRitems s0 !! p = Some e ->
  NumFramesDirty e = gNumFrameResources ->
  Update crand k gt1 s0 = Some (w1, s1) ->
  Update crand k gt2 s1 = Some (w2, s2) ->
  Update crand k gt3 s2 = Some (w3, s3) ->
  (exists cur cb cb',
     mCurrFrameResource s = Some cur /\
     object_cbs s !! cur = Some cb /\ object_cbs s' !! cur = Some cb' /\
     (forall q a, mAllRitems s !! q = Some a ->
        (0 < NumFramesDirty a ->
           mAllRitems s' !! q = Some (set_NumFramesDirty (NumFramesDirty a - 1) a) /\
           cb' !! Z.to_nat (ObjCBIndex a) = Some (object_constants a)) /\
        (NumFramesDirty a <= 0 -> 0 <= ObjCBIndex a ->
           mAllRitems s' !! q = Some a /\
           cb' !! Z.to_nat (ObjCBIndex a) = cb !! Z.to_nat (ObjCBIndex a))) /\
     (forall slot, 0 <= slot -> slot_clean (mAllRitems s) slot ->
        cb' !! Z.to_nat slot = cb !! Z.to_nat slot) /\
     (forall j, j <> cur -> object_cbs s' !! j = object_cbs s !! j)) /\
  mAllRitems s3 !! p = Some (set_NumFramesDirty 0 e) /\
  (forall j, (j < 3)%nat ->
     exists cb, object_cbs s3 !! j = Some cb /\
       cb !! Z.to_nat (ObjCBIndex e) =
         Some (mkObjectConstants (XMMatrixTranspose (World e))
                                 (XMMatrixTranspose (TexTransform e)))).
Proof.
  intros Hpass Hnd Hnd0 Hidx Hlen Hp Hn U1 U2 U3. split.
  { apply UpdateObjectCBs_spec in Hpass
      as (cur & fr & fr' & Hcur & Hfr & Hfrs' & _ & _ & _ & Hitems & Hkeep & Hwr).
    assert (object_cbs s' = <[ cur := ObjectCB fr' ]> (object_cbs s)) as Hcbs.
    { unfold object_cbs. by rewrite Hfrs', list_fmap_insert. }
    exists cur, (ObjectCB fr), (ObjectCB fr'). split; [done|]. split.
    { unfold object_cbs. by rewrite list_lookup_fmap, Hfr. }
    split.
    { rewrite Hcbs. apply list_lookup_insert_eq. unfold object_cbs.
      rewrite length_fmap. by eapply lookup_lt_Some. }
    split; [|split; [done|]].
    - intros q a Ha. rewrite Hitems, list_lookup_fmap, Ha. simpl. split.
      + intros Hd. rewrite item_after_pass_dirty by done. split; [done|].
        apply Hwr; [done| |done]. by eapply list_elem_of_lookup_2.
      + intros Hc Hi. rewrite item_after_pass_clean by done. split; [done|].
        apply Hkeep; [done|]. intros b Hb Hdb Heq.
        apply list_elem_of_lookup in Hb as (r & Hr).
        assert (r = q) as ->.
        { eapply (NoDup_lookup _ r q (ObjCBIndex a) Hnd);
            rewrite list_lookup_fmap; [rewrite Hr|rewrite Ha]; simpl;
            [by rewrite Heq|done]. }
        assert (b = a) as -> by congruence. lia.
    - intros j Hj. rewrite Hcbs. by apply list_lookup_insert_ne. }
  (* three consecutive updates *)
  unfold index_in_ring, gNumFrameResources in *.
  destruct (Update_spec crand _ _ _ _ _ U1) as (I1 & _).
  destruct (Update_spec crand _ _ _ _ _ U2) as (I2 & _).
  destruct (Update_spec crand _ _ _ _ _ U3) as (I3 & _).
  rewrite next_index_mod in I1 by lia.
  assert (0 <= mCurrFrameResourceIndex s1 < 3) as B1
    by (rewrite I1; apply Z.mod_pos_bound; lia).
  rewrite next_index_mod in I2 by lia.
  assert (0 <= mCurrFrameResourceIndex s2 < 3) as B2
    by (rewrite I2; apply Z.mod_pos_bound; lia).
  rewrite next_index_mod in I3 by lia.
  destruct (Update_object_cbs _ _ _ _ _ U1)
    as (It1 & L1 & K1 & cb1 & cb1' & _ & Hc1 & _ & W1).
  destruct (Update_object_cbs _ _ _ _ _ U2)
    as (It2 & L2 & K2 & cb2 & cb2' & _ & Hc2 & _ & W2).
  destruct (Update_object_cbs _ _ _ _ _ U3)
    as (It3 & L3 & K3 & cb3 & cb3' & _ & Hc3 & _ & W3).
  rewrite next_index_mod in * by lia.
  rewrite <- I1 in *. rewrite <- I2 in *. rewrite <- I3 in *.
  set (e1 := set_NumFramesDirty 2 e).
  set (e2 := set_NumFramesDirty 1 e).
  assert (mAllRitems s1 !! p = Some e1) as Hp1.
  { rewrite It1, list_lookup_fmap, Hp. simpl.
    rewrite item_after_pass_dirty by lia. by rewrite Hn. }
  assert (mAllRitems s2 !! p = Some e2) as Hp2.
  { rewrite It2, list_lookup_fmap, Hp1. simpl.
    by rewrite item_after_pass_dirty by (simpl; lia). }
  assert (mAllRitems s3 !! p = Some (set_NumFramesDirty 0 e)) as Hp3.
  { rewrite It3, list_lookup_fmap, Hp2. simpl.
    by rewrite item_after_pass_dirty by (simpl; lia). }
  split; [done|].
  assert (distinct_slots (mAllRitems s1)) as Hnd1.
  { unfold distinct_slots. rewrite It1, <- list_fmap_compose.
    erewrite list_fmap_ext; [exact Hnd0|].
    intros ? a ?. simpl. apply item_after_pass_slot. }
  assert (distinct_slots (mAllRitems s2)) as Hnd2.
  { unfold distinct_slots. rewrite It2, <- list_fmap_compose.
    erewrite list_fmap_ext; [exact Hnd1|].
    intros ? a ?. simpl. apply item_after_pass_slot. }
  specialize (W1 Hnd0 e (list_elem_of_lookup_2 _ _ _ Hp) ltac:(lia)).
  specialize (W2 Hnd1 e1 (list_elem_of_lookup_2 _ _ _ Hp1) ltac:(simpl; lia)).
  specialize (W3 Hnd2 e2 (list_elem_of_lookup_2 _ _ _ Hp2) ltac:(simpl; lia)).
  change (ObjCBIndex e1) with (ObjCBIndex e) in W2.
  change (ObjCBIndex e2) with (ObjCBIndex e) in W3.
  change (object_constants e1) with (object_constants e) in W2.
  change (object_constants e2) with (object_constants e) in W3.
  change (mkObjectConstants (XMMatrixTranspose (World e))
            (XMMatrixTranspose (TexTransform e))) with (object_constants e).
  assert (mCurrFrameResourceIndex s2 <> mCurrFrameResourceIndex s1 /\
          mCurrFrameResourceIndex s3 <> mCurrFrameResourceIndex s2 /\
          mCurrFrameResourceIndex s3 <> mCurrFrameResourceIndex s1 /\
          0 <= mCurrFrameResourceIndex s3 < 3) as (D21 & D32 & D31 & B3).
  { rewrite I3, I2, I1.
    assert (mCurrFrameResourceIndex s0 = 0 \/ mCurrFrameResourceIndex s0 = 1 \/
            mCurrFrameResourceIndex s0 = 2) as Hcase by lia.
    destruct Hcase as [E|[E|E]]; rewrite E; vm_compute; repeat split; congruence. }
  intros j Hj.
  destruct (decide (j = Z.to_nat (mCurrFrameResourceIndex s3))) as [->|N3].
  { exists cb3'. done. }
  rewrite K3 by done.
  destruct (decide (j = Z.to_nat (mCurrFrameResourceIndex s2))) as [->|N2].
  { exists cb2'. done. }
  rewrite K2 by done.
  assert (j = Z.to_nat (mCurrFrameResourceIndex s1)) as -> by lia.
  exists cb1'. done.
Qed.
End ObjectCBs.

(** ** The index buffer of the water grid *)

Lemma store16_app (pre rest : list Z) (t : nat) (v : Z) :
  (t < length rest)%nat ->
  store16 (Z.of_nat (length pre) + Z.of_nat t) v (pre ++ rest)
  = Some (pre ++ <[ t := to_uint16 v ]> rest).
Proof.
  intros Ht. unfold store16. rewrite length_app.
  destruct (Z.leb_spec 0 (Z.of_nat (length pre) + Z.of_nat t)); [|lia].
  destruct (Z.ltb_spec (Z.of_nat (length pre) + Z.of_nat t)
              (Z.of_nat (length pre + length rest))); [|lia].
  simpl. f_equal.
  replace (Z.to_nat (Z.of_nat (length pre) + Z.of_nat t))
    with (length pre + t)%nat by lia.
  apply insert_app_r.
Qed.

Lemma store16_out_of_range (k v : Z) (indices : list Z) :
  Z.of_nat (length indices) <= k -> store16 k v indices = None.
Proof.
  intros Hk. unfold store16.
  destruct (Z.ltb_spec k (Z.of_nat (length indices))); [lia|].
  by rewrite andb_false_r.
Qed.

Lemma quad_body_app (n i j : Z) (pre rest : list Z) :
  (6 <= length rest)%nat ->
  quad_body n i j (Z.of_nat (length pre)) (pre ++ rest)
  = Some (pre ++ (to_uint16 <$> quad_indices n i j) ++ drop 6 rest).
Proof.
  intros Hlen.
  destruct rest as [|a0 [|a1 [|a2 [|a3 [|a4 [|a5 rest]]]]]]; simpl in Hlen; try lia.
  unfold quad_body.
  pose proof (store16_app pre) as St.
  rewrite <- (Z.add_0_r (Z.of_nat (length pre))) at 1.
  rewrite (St _ 0%nat) by (simpl; lia). simpl.
  rewrite (St _ 1%nat) by (simpl; lia). simpl.
  rewrite (St _ 2%nat) by (simpl; lia). simpl.
  rewrite (St _ 3%nat) by (simpl; lia). simpl.
  rewrite (St _ 4%nat) by (simpl; lia). simpl.
  rewrite (St _ 5%nat) by (simpl; lia). simpl.
  done.
Qed.

Lemma row_indices_length (n i : Z) (cnt : nat) :
  forall j, length (row_indices n i j cnt) = (6 * cnt)%nat.
Proof.
  induction cnt as [|c IH]; intros j; simpl; [done|].
  rewrite IH. lia.
Qed.

Lemma grid_indices_length (n : Z) (cnt : nat) :
  forall i, length (grid_indices n i cnt) = (6 * Z.to_nat (n - 1) * cnt)%nat.
Proof.
  induction cnt as [|c IH]; intros i; simpl; [lia|].
  rewrite length_app, row_indices_length, IH. lia.
Qed.

Lemma quad_row_app (n i : Z) (cnt : nat) :
  forall j pre rest,
    (6 * cnt <= length rest)%nat ->
    quad_row n i j cnt (Z.of_nat (length pre)) (pre ++ rest)
    = Some (Z.of_nat (length pre) + 6 * Z.of_nat cnt,
            pre ++ row_indices n i j cnt ++ drop (6 * cnt) rest).
Proof.
  induction cnt as [|c IH]; intros j pre rest Hlen.
  - simpl. rewrite drop_0. do 2 f_equal. lia.
  - cbn [quad_row]. rewrite quad_body_app by lia. cbn [mbind option_bind].
    rewrite app_assoc.
    replace (Z.of_nat (length pre) + 6)
      with (Z.of_nat (length (pre ++ (to_uint16 <$> quad_indices n i j))))
      by (rewrite length_app; simpl; lia).
    rewrite IH by (rewrite length_drop; lia).
    rewrite length_app, drop_drop. cbn [row_indices].
    rewrite <- !app_assoc.
    replace (6 * S c)%nat with (6 + 6 * c)%nat by lia.
    do 2 f_equal. rewrite length_fmap. simpl. lia.
Qed.

Lemma quad_rows_app (n : Z) (cnt : nat) :
  forall i pre rest,
    (6 * Z.to_nat (n - 1) * cnt <= length rest)%nat ->
    quad_rows n i cnt (Z.of_nat (length pre)) (pre ++ rest)
    = Some (Z.of_nat (length pre) + 6 * Z.of_nat (Z.to_nat (n - 1)) * Z.of_nat cnt,
            pre ++ grid_indices n i cnt
                ++ drop (6 * Z.to_nat (n - 1) * cnt) rest).
Proof.
  induction cnt as [|c IH]; intros i pre rest Hlen.
  - simpl. rewrite Nat.mul_0_r, drop_0. do 2 f_equal. lia.
  - cbn [quad_rows]. rewrite quad_row_app by nia. cbn [mbind option_bind].
    rewrite app_assoc.
    replace (Z.of_nat (length pre) + 6 * Z.of_nat (Z.to_nat (n - 1)))
      with (Z.of_nat (length (pre ++ row_indices n i 0 (Z.to_nat (n - 1)))))
      by (rewrite length_app, row_indices_length; lia).
    rewrite IH by (rewrite length_drop; nia).
    rewrite length_app, row_indices_length, drop_drop. cbn [grid_indices].
    rewrite <- !app_assoc.
    replace (6 * Z.to_nat (n - 1) * S c)%nat
      with (6 * Z.to_nat (n - 1) + 6 * Z.to_nat (n - 1) * c)%nat by lia.
    do 2 f_equal. lia.
Qed.

(** Below the [uint16] range the stored indices are the computed ones. *)
Lemma quad_indices_exact (m n i j : Z) :
  0 <= i <= m - 2 -> 0 <= j <= n - 2 -> m * n < UINT16_MOD ->
  to_uint16 <$> quad_indices n i j = quad_indices n i j /\
  Forall (fun v => 0 <= v < m * n) (quad_indices n i j).
Proof.
  intros Hi Hj Hmn.
  assert (0 <= i * n + j /\ (i + 1) * n + j + 1 < m * n) as (Hlo & Hhi) by nia.
  assert (forall v, 0 <= v < m * n -> to_uint16 v = v) as Hsmall.
  { intros v Hv. unfold to_uint16. apply Z.mod_small. lia. }
  split.
  - unfold quad_indices. simpl. rewrite !Hsmall by nia. done.
  - unfold quad_indices. repeat (constructor; [nia|]). constructor.
Qed.

Lemma row_indices_take (n i : Z) (cnt : nat) :
  forall j0 j', (j' < cnt)%nat ->
    take 6 (drop (6 * j') (row_indices n i j0 cnt))
    = to_uint16 <$> quad_indices n i (j0 + Z.of_nat j').
Proof.
  induction cnt as [|c IH]; intros j0 j' Hj; [lia|].
  cbn [row_indices]. destruct j' as [|j''].
  - rewrite Nat.mul_0_r, drop_0, Z.add_0_r.
    by rewrite take_app_length' by done.
  - replace (6 * S j'')%nat
      with (length (to_uint16 <$> quad_indices n i j0) + 6 * j'')%nat
      by (simpl; lia).
    rewrite drop_app_add, IH by lia. do 2 f_equal. lia.
Qed.

Lemma grid_indices_take (n : Z) (cnt : nat) :
  forall i0 i' j', (i' < cnt)%nat -> (j' < Z.to_nat (n - 1))%nat ->
    take 6 (drop (6 * (i' * Z.to_nat (n - 1) + j')) (grid_indices n i0 cnt))
    = to_uint16 <$> quad_indices n (i0 + Z.of_nat i') (Z.of_nat j').
Proof.
  induction cnt as [|c IH]; intros i0 i' j' Hi Hj; [lia|].
  cbn [grid_indices]. destruct i' as [|i''].
  - rewrite Nat.mul_0_l, Nat.add_0_l, Z.add_0_r.
    rewrite drop_app_le by (rewrite row_indices_length; lia).
    rewrite take_app_le by (rewrite length_drop, row_indices_length; lia).
    by rewrite row_indices_take by done.
  - replace (6 * (S i'' * Z.to_nat (n - 1) + j'))%nat
      with (length (row_indices n i0 0 (Z.to_nat (n - 1)))
            + 6 * (i'' * Z.to_nat (n - 1) + j'))%nat
      by (rewrite row_indices_length; lia).
    rewrite drop_app_add, IH by lia. do 2 f_equal. lia.
Qed.

Lemma row_indices_bound (m n i : Z) (cnt : nat) :
  forall j0, 0 <= i <= m - 2 -> 0 <= j0 -> j0 + Z.of_nat cnt <= n - 1 ->
    m * n < UINT16_MOD ->
    Forall (fun v => 0 <= v < m * n) (row_indices n i j0 cnt).
Proof.
  induction cnt as [|c IH]; intros j0 Hi Hj0 Hc Hmn; [constructor|].
  cbn [row_indices]. apply Forall_app. split.
  - destruct (quad_indices_exact m n i j0) as (-> & ?); (done || lia).
  - apply IH; lia.
Qed.

Lemma grid_indices_bound (m n : Z) (cnt : nat) :
  forall i0, 0 <= i0 -> i0 + Z.of_nat cnt <= m - 1 -> m * n < UINT16_MOD ->
    Forall (fun v => 0 <= v < m * n) (grid_indices n i0 cnt).
Proof.
  induction cnt as [|c IH]; intros i0 Hi0 Hc Hmn; [constructor|].
  cbn [grid_indices]. apply Forall_app. split.
  - destruct (Z.le_gt_cases 1 n).
    + apply row_indices_bound; lia.
    + replace (Z.to_nat (n - 1)) with 0%nat by lia. constructor.
  - apply IH; lia.
Qed.

Section WavesGeometry.
Context {F W : Type} `{WavesOps F W}.

(** C6.  For a grid of [m >= 1] rows and [n >= 1] columns with
    [TriangleCount = 2 (m-1)(n-1)] and [VertexCount = m n < 0xffff],
    [BuildWavesGeometry] returns an index array of exactly
    [3 * TriangleCount] entries in which the six entries of quad [(i, j)]
    are [i n + j, i n + j + 1, (i+1) n + j, (i+1) n + j, i n + j + 1,
    (i+1) n + j + 1], unchanged by the conversion to [uint16]; every entry
    is below [m n]. *)
Theorem waves_index_buffer (w : W) :
  1 <= RowCount w -> 1 <= ColumnCount w ->
  TriangleCount w = (RowCount w - 1) * (ColumnCount w - 1) * 2 ->
  VertexCount w = RowCount w * ColumnCount w ->
  VertexCount w < 65535 ->
  exists indices,
    BuildWavesGeometry w = Some indices /\
    Z.of_nat (length indices) = 3 * TriangleCount w /\
    (forall i j, 0 <= i < RowCount w - 1 -> 0 <= j < ColumnCount w - 1 ->
       take 6 (drop (Z.to_nat (6 * (i * (ColumnCount w - 1) + j))) indices)
       = quad_indices (ColumnCount w) i j) /\
    Forall (fun v => 0 <= v < RowCount w * ColumnCount w /\ v < UINT16_MOD) indices.
Proof.
  intros Hm Hn Htc Hvc Hlt.
  set (m := RowCount w) in *. set (n := ColumnCount w) in *.
  assert (m * n < UINT16_MOD) as Hmn by (unfold UINT16_MOD; lia).
  exists (grid_indices n 0 (Z.to_nat (m - 1))).
  assert (length (grid_indices n 0 (Z.to_nat (m - 1)))
          = Z.to_nat (3 * TriangleCount w)) as Hlen.
  { rewrite grid_indices_length, Htc. nia. }
  split.
  - unfold BuildWavesGeometry. fold m n.
    destruct (Z.ltb_spec (3 * TriangleCount w) 0); [nia|].
    pose proof (quad_rows_app n (Z.to_nat (m - 1)) 0 []
                  (replicate (Z.to_nat (3 * TriangleCount w)) 0)) as Hq.
    change (Z.of_nat (length (@nil Z))) with 0 in Hq.
    rewrite !app_nil_l in Hq. rewrite Hq.
    + simpl. rewrite drop_ge, app_nil_r; [done|].
      rewrite length_replicate, <- Hlen, grid_indices_length. lia.
    + rewrite length_replicate, <- Hlen, grid_indices_length. lia.
  - split; [rewrite Hlen; nia|]. split.
    + intros i j Hi Hj.
      replace (Z.to_nat (6 * (i * (n - 1) + j)))
        with (6 * (Z.to_nat i * Z.to_nat (n - 1) + Z.to_nat j))%nat by nia.
      rewrite grid_indices_take by lia.
      replace (0 + Z.of_nat (Z.to_nat i)) with i by lia.
      replace (Z.of_nat (Z.to_nat j)) with j by lia.
      apply (quad_indices_exact m n); lia.
    + eapply Forall_impl; [apply (grid_indices_bound m n); lia|].
      simpl. intros v Hv. lia.
Qed.
End WavesGeometry.

(** ** The terrain vertices *)

Section LandGeometry.
Context {F : Type} `{FloatOps F}.

Lemma land_body_lookup (i : nat) (g : GVertex F) (vertices : list (Vertex F)) :
  (i < length vertices)%nat ->
  land_body i g vertices = <[ i := land_vertex g ]> vertices.
Proof.
  intros Hi. destruct (lookup_lt_is_Some_2 vertices i Hi) as [v Hv].
  unfold land_body. apply list_eq. intros j.
  destruct (decide (j = i)) as [->|Hne].
  - rewrite !list_lookup_alter_eq, Hv, list_lookup_insert_eq by done. reflexivity.
  - rewrite !list_lookup_alter_ne, list_lookup_insert_ne by done. done.
Qed.

Lemma land_loop_spec (gs : list (GVertex F)) :
  forall (pre rest : list (Vertex F)),
    length rest = length gs ->
    land_loop gs (length pre) (pre ++ rest) = pre ++ (land_vertex <$> gs).
Proof.
  induction gs as [|g gs IH]; intros pre rest Hlen.
  - destruct rest; [done|discriminate].
  - destruct rest as [|v rest]; [discriminate|]. simpl in Hlen.
    cbn [land_loop]. rewrite land_body_lookup by (rewrite length_app; simpl; lia).
    rewrite <- (Nat.add_0_r (length pre)) at 2. rewrite insert_app_r. simpl.
    replace (S (length pre)) with (length (pre ++ [land_vertex g]))
      by (rewrite length_app; simpl; lia).
    rewrite (cons_middle _ pre rest), app_assoc, IH by lia.
    by rewrite <- app_assoc.
Qed.

(** C7.  [BuildLandGeometry] makes one vertex of every vertex of the
    generated grid: [x] and [z] are those of the grid position, [y] is
    [GetHillsHeight(x, z) = 40 * (cos(x/1600 * 7) + cos(z/1600 * 7)) - 70],
    and the texture coordinate is the grid's. *)
Theorem land_vertices_displaced (grid : list (GVertex F)) :
  length (BuildLandGeometry grid) = length grid /\
  forall i g, grid !! i = Some g ->
    exists v, BuildLandGeometry grid !! i = Some v /\
      x3 (Pos v) = x3 (Position g) /\
      z3 (Pos v) = z3 (Position g) /\
      y3 (Pos v) = GetHillsHeight (x3 (Position g)) (z3 (Position g)) /\
      y3 (Pos v) =
        fsub (fmul (of_int 40)
                (fadd (cosf (fmul (fdiv (x3 (Position g)) (of_int 1600)) (of_int 7)))
                      (cosf (fmul (fdiv (z3 (Position g)) (of_int 1600)) (of_int 7)))))
             (of_int 70) /\
      TexC v = GTexC g.
Proof.
  assert (BuildLandGeometry grid = land_vertex <$> grid) as Heq.
  { unfold BuildLandGeometry.
    apply (land_loop_spec grid [] (replicate (length grid) Vertex0)).
    apply length_replicate. }
  rewrite Heq. split; [apply length_fmap|].
  intros i g Hg. exists (land_vertex g).
  rewrite list_lookup_fmap, Hg. done.
Qed.
End LandGeometry.

(** ** Packing the shape meshes *)

Lemma sel_nil {A : Type} (off p : nat) : sel (@nil A) off p = None.
Proof. unfold sel. by destruct (decide (off <= p)%nat). Qed.

Lemma sel_cons {A : Type} (g : A) (gs : list A) (off p : nat) :
  sel (g :: gs) off p = if decide (p = off) then Some g else sel gs (S off) p.
Proof.
  unfold sel. destruct (decide (p = off)) as [->|Hne].
  - destruct (decide (off <= off)%nat); [|lia]. by rewrite Nat.sub_diag.
  - destruct (decide (off <= p)%nat), (decide (S off <= p)%nat); try lia; [|done].
    replace (p - off)%nat with (S (p - S off)) by lia. done.
Qed.

Lemma sel_below {A : Type} (gs : list A) (off p : nat) :
  (p < off)%nat -> sel gs off p = None.
Proof. intros Hp. unfold sel. destruct (decide (off <= p)%nat); [lia|done]. Qed.

Lemma sel_app {A : Type} (gs hs : list A) (off p : nat) :
  sel (gs ++ hs) off p
  = match sel gs off p with
    | Some g => Some g
    | None => sel hs (off + length gs) p
    end.
Proof.
  unfold sel. destruct (decide (off <= p)%nat) as [Hle|Hlt].
  - destruct (gs !! (p - off)%nat) as [g|] eqn:Hg.
    + by rewrite lookup_app_l_Some with (x := g).
    + apply lookup_ge_None in Hg.
      destruct (decide (off + length gs <= p)%nat); [|lia].
      rewrite lookup_app_r by done. f_equal. lia.
  - destruct (decide (off + length gs <= p)%nat); [lia|done].
Qed.

Lemma sel_Some_zero {A : Type} (gs : list A) (p : nat) : sel gs 0 p = gs !! p.
Proof. unfold sel. simpl. by rewrite Nat.sub_0_r. Qed.

Lemma lookup_alter_at {A : Type} (f : A -> A) (i p : nat) (l : list A) :
  alter f i l !! p = (if decide (p = i) then f else id) <$> l !! p.
Proof.
  destruct (decide (p = i)) as [->|Hne].
  - by rewrite list_lookup_alter_eq.
  - rewrite list_lookup_alter_ne by done. by destruct (l !! p).
Qed.

Section BoxGeometry.
Context {F : Type} `{FloatOps F}.

(** One later loop: position and normal of array position [p] come from the
    mesh vertex handled at [k = p], the texture coordinate from the one
    handled at [i = p]. *)
Lemma pack_shape_spec (gs : list (GVertex F)) :
  forall i k vertices,
    snd (pack_shape gs i k vertices) = (k + length gs)%nat /\
    forall p,
      fst (pack_shape gs i k vertices) !! p
      = (fun v => rewrite_vertex (sel gs k p)
                    (from_option GTexC (TexC v) (sel gs i p)) v)
        <$> vertices !! p.
Proof.
  induction gs as [|g gs IH]; intros i k vertices.
  - simpl. split; [lia|]. intros p. rewrite !sel_nil.
    destruct (vertices !! p) as [[? ? ?]|]; done.
  - cbn [pack_shape]. destruct (IH (S i) (S k)
      (alter (set_TexC (GTexC g)) i
         (alter (set_Normal (GNormal g)) k
            (alter (set_Pos (Position g)) k vertices)))) as (-> & Hl).
    split; [simpl; lia|]. intros p. rewrite Hl, !sel_cons.
    rewrite !lookup_alter_at.
    destruct (vertices !! p) as [[vp vn vt]|]; [|done]. simpl.
    destruct (decide (p = i)) as [Hi|Hi]; destruct (decide (p = k)) as [Hk|Hk];
      simpl;
      try (rewrite (sel_below gs (S i) p) by lia);
      try (rewrite (sel_below gs (S k) p) by lia);
      repeat (destruct (sel gs _ _)); done.
Qed.

(** The box loop: every field of array position [p] comes from the box
    vertex handled at [i = p]. *)
Lemma pack_box_spec (gs : list (GVertex F)) :
  forall i k vertices,
    snd (pack_box gs i k vertices) = (k + length gs)%nat /\
    forall p,
      fst (pack_box gs i k vertices) !! p
      = (fun v => rewrite_vertex (sel gs i p)
                    (from_option GTexC (TexC v) (sel gs i p)) v)
        <$> vertices !! p.
Proof.
  induction gs as [|g gs IH]; intros i k vertices.
  - simpl. split; [lia|]. intros p. rewrite !sel_nil.
    destruct (vertices !! p) as [[? ? ?]|]; done.
  - cbn [pack_box]. destruct (IH (S i) (S k)
      (alter (set_TexC (GTexC g)) i
         (alter (set_Normal (GNormal g)) i
            (alter (set_Pos (Position g)) i vertices)))) as (-> & Hl).
    split; [simpl; lia|]. intros p. rewrite Hl, !sel_cons.
    rewrite !lookup_alter_at.
    destruct (vertices !! p) as [[vp vn vt]|]; [|done]. simpl.
    destruct (decide (p = i)) as [Hi|Hi]; simpl;
      try (rewrite (sel_below gs (S i) p) by lia);
      repeat (destruct (sel gs _ _)); done.
Qed.

(** All later loops in order. *)
Lemma pack_shapes_spec (later : list (list (GVertex F))) :
  forall vertices k,
    snd (pack_shapes later (vertices, k)) = (k + length (concat later))%nat /\
    forall p,
      fst (pack_shapes later (vertices, k)) !! p
      = (fun v => rewrite_vertex (sel (concat later) k p)
                    (texc_written later p (TexC v)) v)
        <$> vertices !! p.
Proof.
  induction later as [|sh later IH]; intros vertices k.
  - simpl. split; [lia|]. intros p. rewrite sel_nil.
    destruct (vertices !! p) as [[? ? ?]|]; done.
  - unfold pack_shapes. cbn [foldl fst snd].
    destruct (pack_shape_spec sh 0 k vertices) as (Hk & Hl).
    destruct (pack_shape sh 0 k vertices) as [v1 k1] eqn:Hps.
    simpl in Hk, Hl. subst k1.
    destruct (IH v1 (k + length sh)%nat) as (Hk' & Hl').
    unfold pack_shapes in Hk', Hl'. split.
    + rewrite Hk'. simpl. rewrite length_app. lia.
    + intros p. rewrite Hl', Hl. cbn [concat]. rewrite sel_app, sel_Some_zero.
      unfold texc_written. cbn [foldl].
      destruct (vertices !! p) as [[vp vn vt]|]; [|done]. simpl.
      unfold rewrite_vertex. simpl.
      destruct (sel sh k p) as [g|] eqn:Hsel; simpl; [|done].
      assert (sel (concat later) (k + length sh) p = None) as ->; [|done].
      unfold sel in *. destruct (decide (k <= p)%nat); [|done].
      apply lookup_lt_Some in Hsel.
      destruct (decide (k + length sh <= p)%nat); [lia|done].
Qed.

(** The packed array, position by position. *)
Lemma pack_all_spec (box : list (GVertex F)) (later : list (list (GVertex F))) :
  length (pack_all box later) = (length box + length (concat later))%nat /\
  forall p g, (box ++ concat later) !! p = Some g ->
    pack_all box later !! p
    = Some (mkVertex (Position g) (GNormal g)
              (texc_written (box :: later) p (TexC Vertex0))).
Proof.
  unfold pack_all.
  set (vs0 := replicate (length box + length (concat later)) Vertex0).
  destruct (pack_box_spec box 0 0 vs0) as (Hk & Hl).
  destruct (pack_box box 0 0 vs0) as [v1 k1] eqn:Hpb. simpl in Hk, Hl. subst k1.
  destruct (pack_shapes_spec later v1 (length box)) as (_ & Hl').
  split.
  - assert (forall p, is_Some (fst (pack_shapes later (v1, length box)) !! p)
                      <-> is_Some (vs0 !! p)) as Hdom.
    { intros p. rewrite Hl', Hl, !fmap_is_Some. done. }
    assert (length (fst (pack_shapes later (v1, length box))) = length vs0) as ->.
    { apply Nat.le_antisymm; apply Nat.nlt_ge; intros Hlt.
      - destruct (proj1 (Hdom (length vs0)))
          as [? Hx]; [by apply lookup_lt_is_Some_2|].
        apply lookup_lt_Some in Hx. lia.
      - destruct (proj2 (Hdom (length (fst (pack_shapes later (v1, length box))))))
          as [? Hx]; [by apply lookup_lt_is_Some_2|].
        apply lookup_lt_Some in Hx. lia. }
    apply length_replicate.
  - intros p g Hg. rewrite Hl', Hl.
    assert (vs0 !! p = Some Vertex0) as ->.
    { apply lookup_replicate_2. apply lookup_lt_Some in Hg.
      rewrite length_app in Hg. done. }
    simpl. unfold rewrite_vertex. simpl. f_equal.
    rewrite sel_Some_zero.
    assert (forall dp dn,
            from_option Position (from_option Position dp (box !! p))
              (sel (concat later) (length box) p) = Position g /\
            from_option GNormal (from_option GNormal dn (box !! p))
              (sel (concat later) (length box) p) = GNormal g) as Hpn.
    { intros dp dn.
      pose proof (sel_app box (concat later) 0 p) as Hs.
      rewrite !sel_Some_zero, Hg in Hs. simpl in Hs.
      destruct (box !! p) as [b|] eqn:Hb.
      - injection Hs as ->.
        assert (sel (concat later) (length box) p = None) as ->; [|done].
        unfold sel. apply lookup_lt_Some in Hb.
        destruct (decide (length box <= p)%nat); [lia|done].
      - rewrite <- Hs. done. }
    destruct (Hpn (mkFloat3 (of_int 0) (of_int 0) (of_int 0))
                  (mkFloat3 (of_int 0) (of_int 0) (of_int 0))) as (Ep & En).
    rewrite Ep, En. done.
Qed.

Lemma texc_written_short (shapes : list (list (GVertex F))) (p : nat) t0 :
  Forall (fun sh => (length sh <= p)%nat) shapes ->
  texc_written shapes p t0 = t0.
Proof.
  revert t0. induction shapes as [|sh shapes IH]; intros t0 Hall; [done|].
  apply Forall_cons in Hall as (Hsh & Hall). unfold texc_written. cbn [foldl].
  rewrite (lookup_ge_None_2 sh p) by done. simpl. by apply IH.
Qed.

Lemma texc_written_last (l1 l2 : list (list (GVertex F))) sh (p : nat) g t0 :
  sh !! p = Some g ->
  Forall (fun sh => (length sh <= p)%nat) l2 ->
  texc_written (l1 ++ sh :: l2) p t0 = GTexC g.
Proof.
  intros Hg Hall. unfold texc_written. rewrite foldl_app. cbn [foldl].
  rewrite Hg. simpl. by apply texc_written_short.
Qed.

(** C10, as the code has it.  In [BuildBoxGeometry] every vertex of the
    concatenated array gets the position and normal of its own mesh vertex,
    while its texture coordinate is the one of local vertex [p] of the last
    mesh, in loop order, that has more than [p] vertices: the loops after
    the box write [vertices[i].TexC], not [vertices[k].TexC].  It keeps the
    default value only where no mesh has more than [p] vertices. *)
Theorem box_geometry_texcoords
    (box grid sphere cylinder diamond torus pyramid prism wedge : list (GVertex F)) :
  let later := [grid; sphere; cylinder; diamond; torus; pyramid; prism; wedge] in
  let vertices :=
    BuildBoxGeometry box grid sphere cylinder diamond torus pyramid prism wedge in
  length vertices = (length box + length (concat later))%nat /\
  (forall p g, (box ++ concat later) !! p = Some g ->
     exists v, vertices !! p = Some v /\
       Pos v = Position g /\ Normal v = GNormal g /\
       TexC v = texc_written (box :: later) p (TexC Vertex0)) /\
  (forall p v l1 sh l2 g,
     vertices !! p = Some v ->
     box :: later = l1 ++ sh :: l2 ->
     sh !! p = Some g ->
     Forall (fun sh' => (length sh' <= p)%nat) l2 ->
     TexC v = GTexC g) /\
  (forall p v,
     vertices !! p = Some v ->
     Forall (fun sh' => (length sh' <= p)%nat) (box :: later) ->
     TexC v = TexC Vertex0).
Proof.
  intros later vertices.
  destruct (pack_all_spec box later) as (Hlen & Hat).
  assert (forall p v, vertices !! p = Some v ->
            TexC v = texc_written (box :: later) p (TexC Vertex0)) as Htex.
  { intros p v Hv.
    destruct ((box ++ concat later) !! p) as [g|] eqn:Hg.
    - unfold vertices, BuildBoxGeometry in Hv. fold later in Hv.
      rewrite (Hat p g Hg) in Hv. by injection Hv as <-.
    - apply lookup_ge_None in Hg. apply lookup_lt_Some in Hv.
      unfold vertices, BuildBoxGeometry in Hv. fold later in Hv.
      rewrite Hlen in Hv. rewrite length_app in Hg. lia. }
  split; [exact Hlen|]. split; [|split].
  - intros p g Hg. eexists. split; [exact (Hat p g Hg)|]. done.
  - intros p v l1 sh l2 g Hv Hsplit Hg Hall.
    rewrite (Htex p v Hv), Hsplit. by apply texc_written_last.
  - intros p v Hv Hall. rewrite (Htex p v Hv). by apply texc_written_short.
Qed.
End BoxGeometry.

(** ** The terrain normal *)

Lemma f32_zero_mul (y : spec_float) :
  f32_finite y = true ->
  exists sgn, SFmul prec32 emax32 (f32_of_int 0) y = S754_zero sgn.
Proof.
  destruct y as [sgn| | |sgn m e]; simpl; intros Hy; try discriminate; eauto.
Qed.

Lemma f32_normalize_up (sx sz : bool) libm_sinf libm_cosf :
  @XMVector3Normalize spec_float (ieee32 libm_sinf libm_cosf)
    (mkFloat3 (S754_zero sx) (f32_of_int 1) (S754_zero sz))
  = mkFloat3 (S754_zero sx) (f32_of_int 1) (S754_zero sz).
Proof. destruct sx, sz; vm_compute; reflexivity. Qed.


(** ** The wave vertex buffer *)

Section WavesBuffer.
Context {F W : Type} `{FloatOps F} `{WavesOps F W}.
Variable crand : nat -> Z.

Lemma UpdateWaves_loop_spec (w : W) (n : nat) :
  forall i vb vb',
    0 <= i ->
    UpdateWaves_loop w i n vb = Some vb' ->
    length vb' = length vb /\
    (forall j, i <= j < i + Z.of_nat n ->
       vb' !! Z.to_nat j = Some (wave_vertex w j)) /\
    (forall p, (p < Z.to_nat i)%nat \/ (Z.to_nat i + n <= p)%nat ->
       vb' !! p = vb !! p).
Proof.
  induction n as [|n IH]; intros i vb vb' Hi Hl; simpl in Hl.
  - injection Hl as <-. repeat split; try done. intros j Hj. lia.
  - destruct (CopyData i (wave_vertex w i) vb) as [vb1|] eqn:Hcp; [|discriminate].
    simpl in Hl. apply CopyData_Some in Hcp as (_ & Hlt & ->).
    destruct (IH (i + 1) _ _ ltac:(lia) Hl) as (Hlen & Hw & Hk).
    rewrite length_insert in Hlen.
    split; [done|]. split.
    + intros j Hj. destruct (decide (j = i)) as [->|Hne].
      * rewrite Hk by lia. by apply list_lookup_insert_eq.
      * apply Hw. lia.
    + intros p Hp. rewrite Hk by lia. apply list_lookup_insert_ne. lia.
Qed.


(** One call of [UpdateWaves]. *)
Lemma UpdateWaves_spec gt (s s' : @App F W) d :
  UpdateWaves crand gt s = Some (d, s') ->
  exists cur fr fr' tb n w1,
    UpdateWaves_disturb crand s = Some (d, tb, n, w1) /\
    mWaves s' = Waves_Update (DeltaTime gt) w1 /\
    t_base s' = tb /\ rand_calls s' = n /\
    mCurrFrameResource s = Some cur /\
    mFrameResources s !! cur = Some fr /\
    mFrameResources s' = <[ cur := fr' ]> (mFrameResources s) /\
    ObjectCB fr' = ObjectCB fr /\ Fence fr' = Fence fr /\
    length (WavesVB fr') = length (WavesVB fr) /\
    WavesVertexBufferGPU s' = Some cur /\
    (forall j, 0 <= j < VertexCount (mWaves s') ->
       WavesVB fr' !! Z.to_nat j = Some (wave_vertex (mWaves s') j)) /\
    (forall p, (Z.to_nat (VertexCount (mWaves s')) <= p)%nat ->
       WavesVB fr' !! p = WavesVB fr !! p).
Proof.
  unfold UpdateWaves. intros Hu.
  destruct (UpdateWaves_disturb crand s) as [[[[d0 tb] n] w1]|]; [|discriminate].
  simpl in Hu.
  destruct (mCurrFrameResource s) as [cur|] eqn:Hcur; [|discriminate].
  simpl in Hu.
  destruct (mFrameResources s !! cur) as [fr|] eqn:Hfr; [|discriminate].
  simpl in Hu.
  destruct (UpdateWaves_loop _ _ _ _) as [vb|] eqn:Hl; [|discriminate].
  simpl in Hu. injection Hu as <- <-.
  apply UpdateWaves_loop_spec in Hl as (Hlen & Hw & Hk); [|lia].
  exists cur, fr, (set_WavesVB vb fr), tb, n, w1. simpl.
  do 11 (split; [done|]). split.
  - intros j Hj. apply Hw. lia.
  - intros p Hp. apply Hk. right. lia.
Qed.
End WavesBuffer.

(** The affine map of the texture coordinates, in exact arithmetic. *)
Lemma texcoord_range q_sqrt q_sin q_cos (x width : Q) :
  (0 < width)%Q -> (- (width / 2) <= x)%Q -> (x <= width / 2)%Q ->
  (0 <= @fadd Q (exactQ q_sqrt q_sin q_cos)
          (@flit Q (exactQ q_sqrt q_sin q_cos) 1 2)
          (@fdiv Q (exactQ q_sqrt q_sin q_cos) x width) <= 1)%Q /\
  (0 <= @fsub Q (exactQ q_sqrt q_sin q_cos)
          (@flit Q (exactQ q_sqrt q_sin q_cos) 1 2)
          (@fdiv Q (exactQ q_sqrt q_sin q_cos) x width) <= 1)%Q.
Proof.
  intros Hw Hlo Hhi. unfold flit. cbn [fadd fsub fdiv of_int exactQ].
  assert (- (1 # 2) <= x / width)%Q as H1.
  { apply Qle_shift_div_l; [done|].
    assert (- (1 # 2) * width == - (width / 2))%Q as -> by field. done. }
  assert (x / width <= 1 # 2)%Q as H2.
  { apply Qle_shift_div_r; [done|].
    assert ((1 # 2) * width == width / 2)%Q as -> by field. done. }
  assert (inject_Z 1 / inject_Z 2 == 1 # 2)%Q as -> by reflexivity.
  split; split; lra.
Qed.

(** C3.  Every [Update] of TreeBillboardsApp leaves, in the wave vertex
    buffer of the frame resource it selected, one vertex for each of the
    [VertexCount()] wave vertices: slot [i] has position [Position(i)],
    normal [Normal(i)] and texture coordinate
    [(0.5 + Pos.x / Width(), 0.5 - Pos.z / Depth())], and the waves render
    item's [VertexBufferGPU] designates that buffer.  In exact arithmetic the
    affine maps send [-w/2, w/2] into [0, 1]. *)
Theorem waves_vertex_buffer_refreshed {F W : Type} `{FloatOps F} `{WavesOps F W}
    (crand : nat -> Z) gt (s s' : @App F W) waited d :
  TreeBillboardsApp_Update crand gt s = Some (waited, d, s') ->
  (exists cur fr',
     cur = Z.to_nat (next_index s) /\
     mCurrFrameResource s' = Some cur /\
     mFrameResources s' !! cur = Some fr' /\
     WavesVertexBufferGPU s' = Some cur /\
     forall i, 0 <= i < VertexCount (mWaves s') ->
       exists v, WavesVB fr' !! Z.to_nat i = Some v /\
         Pos v = Waves_Position (mWaves s') i /\
         Normal v = Waves_Normal (mWaves s') i /\
         x2 (TexC v) = fadd (flit 1 2) (fdiv (x3 (Pos v)) (Width (mWaves s'))) /\
         y2 (TexC v) = fsub (flit 1 2) (fdiv (z3 (Pos v)) (Depth (mWaves s')))) /\
  (forall q_sqrt q_sin q_cos (x width : Q),
     (0 < width)%Q -> (- (width / 2) <= x)%Q -> (x <= width / 2)%Q ->
     (0 <= @fadd Q (exactQ q_sqrt q_sin q_cos)
             (@flit Q (exactQ q_sqrt q_sin q_cos) 1 2)
             (@fdiv Q (exactQ q_sqrt q_sin q_cos) x width) <= 1)%Q /\
     (0 <= @fsub Q (exactQ q_sqrt q_sin q_cos)
             (@flit Q (exactQ q_sqrt q_sin q_cos) 1 2)
             (@fdiv Q (exactQ q_sqrt q_sin q_cos) x width) <= 1)%Q).
Proof.
  intros Hu. split; [|apply texcoord_range].
  unfold TreeBillboardsApp_Update in Hu.
  destruct (cycle_and_wait s) as [[w0 s1]|] eqn:Hc; [|discriminate]. simpl in Hu.
  destruct (UpdateObjectCBs s1) as [s2|] eqn:Ho; [|discriminate]. simpl in Hu.
  destruct (UpdateWaves crand gt s2) as [[d0 s3]|] eqn:Hw; [|discriminate].
  simpl in Hu. injection Hu as <- <- <-.
  apply cycle_and_wait_spec in Hc as (_ & _ & Hcur & _).
  apply UpdateObjectCBs_frame in Ho as (_ & Hcur2 & _).
  pose proof (UpdateWaves_frame crand _ _ _ _ Hw) as (_ & Hcur3 & _).
  apply UpdateWaves_spec in Hw
    as (cur & fr & fr' & tb & n & w1 & _ & _ & _ & _ & Hc2 & Hfr & Hfrs & _ & _
        & _ & Hgpu & Hvb & _).
  rewrite Hcur2, Hcur in Hc2. injection Hc2 as <-.
  exists (Z.to_nat (next_index s)), fr'. split; [done|].
  split; [congruence|]. split.
  { rewrite Hfrs. apply list_lookup_insert_eq. by eapply lookup_lt_Some. }
  split; [done|].
  intros i Hi. exists (wave_vertex (mWaves s3) i). split; [by apply Hvb|]. done.
Qed.

(** ** The quarter-second gate of the wave disturbances *)


Section DisturbGate.
Context {F W : Type} `{FloatOps F} `{WavesOps F W}.
Variable crand : nat -> Z.

End DisturbGate.


Section DisturbRate.
Variables q_sqrt q_sin q_cos : Q -> Q.
Context {W : Type} {wops : WavesOps Q W}.
Variable crand : nat -> Z.




End DisturbRate.


#[local] Existing Instance exactQ_series.
#[local] Existing Instance StillWavesOps.

(** A run of TreeBillboardsApp in which the fourth [Update] finds its frame
    resource still in flight and waits for fence value 2. *)
Lemma update_waits_witness :
  exists s',
    demo_Update TreeBillboards (demo_timer 1) (demo_in_flight TreeBillboards)
      = Some (true, s') /\
    exists cur fr fr',
      mCurrFrameResource s' = Some cur /\
      mFrameResources (demo_in_flight TreeBillboards) !! cur = Some fr /\
      mFrameResources s' !! cur = Some fr' /\
      Fence fr' = Fence fr /\
      (true = true <->
         Fence fr <> 0 /\
         GetCompletedValue (mFence (demo_in_flight TreeBillboards)) < Fence fr) /\
      (Fence fr' = 0 \/ Fence fr' <= GetCompletedValue (mFence s')).
Proof.
  eexists. split; [vm_compute; reflexivity|].
  apply (update_waits_iff_gpu_behind demo_rand TreeBillboards (demo_timer 1)).
  vm_compute. reflexivity.
Defined.

(** Three frames of ShapesApp from the initialised state, then one more
    [Update]: the index is back at 0 after three and at 1 after four. *)
Lemma ring_round_robin_witness :
  mFrameResources (demo_constructed 1) = [] /\
  mCurrFrameResourceIndex (demo_app 1) = 0 /\
  demo_run Shapes demo_frames (demo_app 1) = Some (demo_in_flight Shapes) /\
  is_Some (demo_run Shapes [AUpdate (demo_timer 1)] (demo_in_flight Shapes)) /\
  length (mFrameResources (demo_app 1)) = 3%nat /\
  index_in_ring (demo_in_flight Shapes) /\
  mCurrFrameResourceIndex (demo_in_flight Shapes) = updates demo_frames mod 3.
Proof.
  assert (mFrameResources (demo_constructed 1) = []) as Hnew
    by (vm_compute; reflexivity).
  assert (mCurrFrameResourceIndex (demo_app 1) = 0) as Hzero
    by (vm_compute; reflexivity).
  assert (demo_run Shapes demo_frames (demo_app 1) = Some (demo_in_flight Shapes))
    as Hr by (vm_compute; reflexivity).
  assert (is_Some (demo_run Shapes [AUpdate (demo_timer 1)] (demo_in_flight Shapes)))
    as Hsome by (vm_compute; eexists; reflexivity).
  destruct Hsome as [s' Hr'].
  destruct (ring_round_robin demo_rand Shapes demo_frames
              [AUpdate (demo_timer 1)] (demo_timer 1) demo_oc0
              (@Vertex0 Q exactQ_series) (demo_constructed 1) (demo_app 1)
              (demo_in_flight Shapes) s' Hnew Hzero Hr Hr')
    as (Hlen & _ & Hin & Hidx & _).
  split; [exact Hnew|]. split; [exact Hzero|]. split; [exact Hr|].
  split; [exists s'; exact Hr'|]. split; [exact Hlen|]. split; [exact Hin|].
  exact Hidx.
Defined.

(** Three frames from the initialised state with counter 1, and a fourth
    [Draw]: the values handed out are 2, 3, 4 and then 5. *)
Lemma draw_fences_witness :
  ring_initial (demo_app 1) /\
  demo_run TreeBillboards demo_frames (demo_app 1)
    = Some (demo_in_flight TreeBillboards) /\
  Draw (demo_in_flight TreeBillboards) = Some (demo_drawn TreeBillboards) /\
  mCurrentFence (demo_app 1) + draws demo_frames + 1 < UINT64_MOD /\
  mCurrentFence (demo_drawn TreeBillboards)
    = mCurrentFence (demo_in_flight TreeBillboards) + 1 /\
  fences_assigned demo_rand TreeBillboards demo_frames (demo_app 1)
    = (fun i => mCurrentFence (demo_app 1) + i) <$> seqZ 1 (draws demo_frames) /\
  distinct_or_zero (fences (demo_drawn TreeBillboards)).
Proof.
  assert (ring_initial (demo_app 1)) as Hinit.
  { split; [vm_compute; reflexivity|]. split; [vm_compute; reflexivity|].
    split; [vm_compute; split; congruence|].
    split; [vm_compute; congruence|vm_compute; reflexivity]. }
  assert (demo_run TreeBillboards demo_frames (demo_app 1)
            = Some (demo_in_flight TreeBillboards)) as Hr
    by (vm_compute; reflexivity).
  assert (Draw (demo_in_flight TreeBillboards) = Some (demo_drawn TreeBillboards))
    as Hd by (vm_compute; reflexivity).
  assert (mCurrentFence (demo_app 1) + draws demo_frames + 1 < UINT64_MOD) as Hnw
    by (vm_compute; reflexivity).
  destruct (draw_fences_strictly_increasing demo_rand TreeBillboards demo_frames
              (demo_app 1) (demo_in_flight TreeBillboards)
              (demo_drawn TreeBillboards) Hinit Hr Hd Hnw)
    as (Hinc & _ & _ & _ & Hseq & _ & _ & Hdist).
  split; [exact Hinit|]. split; [exact Hr|]. split; [exact Hd|].
  split; [exact Hnw|]. split; [exact Hinc|]. split; [exact Hseq|exact Hdist].
Defined.

(** Three [Update] calls of TreeBillboardsApp on the concrete scene: the
    translated box (slot 1) reaches all three object constant buffers. *)
Lemma object_cbs_witness :
  UpdateObjectCBs (demo_u1 TreeBillboards) = Some (demo_pass (demo_u1 TreeBillboards)) /\
  distinct_slots (mAllRitems (demo_u1 TreeBillboards)) /\
  distinct_slots (mAllRitems (demo_app 1)) /\
  index_in_ring (demo_app 1) /\
  length (mFrameResources (demo_app 1)) = 3%nat /\
  mAllRitems (demo_app 1) !! 1%nat
    = Some (mkRenderItem demo_translation Identity4x4 3 1) /\
  mAllRitems (demo_u3 TreeBillboards) !! 1%nat
    = Some (mkRenderItem demo_translation Identity4x4 0 1) /\
  forall j, (j < 3)%nat ->
    exists cb, object_cbs (demo_u3 TreeBillboards) !! j = Some cb /\
      cb !! 1%nat = Some (mkObjectConstants (XMMatrixTranspose demo_translation)
                                            (XMMatrixTranspose Identity4x4)).
Proof.
  assert (UpdateObjectCBs (demo_u1 TreeBillboards)
          = Some (demo_pass (demo_u1 TreeBillboards))) as Hpass
    by (vm_compute; reflexivity).
  assert (distinct_slots (mAllRitems (demo_u1 TreeBillboards))) as Hnd
    by (apply (bool_decide_unpack _); vm_compute; exact I).
  assert (distinct_slots (mAllRitems (demo_app 1))) as Hnd0
    by (apply (bool_decide_unpack _); vm_compute; exact I).
  assert (index_in_ring (demo_app 1)) as Hidx by (vm_compute; split; congruence).
  assert (length (mFrameResources (demo_app 1)) = 3%nat) as Hlen
    by (vm_compute; reflexivity).
  assert (mAllRitems (demo_app 1) !! 1%nat
          = Some (mkRenderItem demo_translation Identity4x4 3 1)) as Hp
    by (vm_compute; reflexivity).
  assert (demo_Update TreeBillboards (demo_timer (1 # 10)) (demo_app 1)
          = Some (false, demo_u1 TreeBillboards)) as U1 by (vm_compute; reflexivity).
  assert (demo_Update TreeBillboards (demo_timer (3 # 10)) (demo_u1 TreeBillboards)
          = Some (false, demo_u2 TreeBillboards)) as U2 by (vm_compute; reflexivity).
  assert (demo_Update TreeBillboards (demo_timer (6 # 10)) (demo_u2 TreeBillboards)
          = Some (false, demo_u3 TreeBillboards)) as U3 by (vm_compute; reflexivity).
  destruct (object_cbs_follow_dirty_items demo_rand TreeBillboards _ _ _
              (demo_u1 TreeBillboards) (demo_pass (demo_u1 TreeBillboards))
              (demo_app 1) _ _ _ _ _ _ 1%nat
              (mkRenderItem demo_translation Identity4x4 3 1)
              Hpass Hnd Hnd0 Hidx Hlen Hp eq_refl U1 U2 U3)
    as (_ & Hitem & Hall).
  split; [exact Hpass|]. split; [exact Hnd|]. split; [exact Hnd0|].
  split; [exact Hidx|]. split; [exact Hlen|]. split; [exact Hp|].
  split; [exact Hitem|exact Hall].
Defined.

(** The 9 x 10 water grid: 90 vertices, 144 triangles, 432 indices. *)
Lemma waves_index_buffer_witness :
  1 <= RowCount demo_waves /\ 1 <= ColumnCount demo_waves /\
  TriangleCount demo_waves
    = (RowCount demo_waves - 1) * (ColumnCount demo_waves - 1) * 2 /\
  VertexCount demo_waves = RowCount demo_waves * ColumnCount demo_waves /\
  VertexCount demo_waves < 65535 /\
  exists indices,
    BuildWavesGeometry demo_waves = Some indices /\
    Z.of_nat (length indices) = 3 * TriangleCount demo_waves /\
    (forall i j, 0 <= i < RowCount demo_waves - 1 ->
                 0 <= j < ColumnCount demo_waves - 1 ->
       take 6 (drop (Z.to_nat (6 * (i * (ColumnCount demo_waves - 1) + j))) indices)
       = quad_indices (ColumnCount demo_waves) i j) /\
    Forall (fun v => 0 <= v < RowCount demo_waves * ColumnCount demo_waves
                     /\ v < UINT16_MOD) indices.
Proof.
  assert (1 <= RowCount demo_waves) as H1 by (vm_compute; congruence).
  assert (1 <= ColumnCount demo_waves) as H2 by (vm_compute; congruence).
  assert (TriangleCount demo_waves
          = (RowCount demo_waves - 1) * (ColumnCount demo_waves - 1) * 2) as H3
    by (vm_compute; reflexivity).
  assert (VertexCount demo_waves = RowCount demo_waves * ColumnCount demo_waves)
    as H4 by (vm_compute; reflexivity).
  assert (VertexCount demo_waves < 65535) as H5 by (vm_compute; reflexivity).
  split; [exact H1|]. split; [exact H2|]. split; [exact H3|].
  split; [exact H4|]. split; [exact H5|].
  exact (waves_index_buffer demo_waves H1 H2 H3 H4 H5).
Defined.

(** The four corners of the terrain. *)
Lemma land_vertices_witness :
  demo_grid !! 1%nat
    = Some (mkGVertex (mkFloat3 800%Q 0%Q 800%Q) (mkFloat3 0%Q 1%Q 0%Q)
                      (mkFloat2 1%Q 0%Q)) /\
  exists v, BuildLandGeometry demo_grid !! 1%nat = Some v /\
    x3 (Pos v) = 800%Q /\ z3 (Pos v) = 800%Q /\
    y3 (Pos v) = GetHillsHeight 800%Q 800%Q /\
    TexC v = mkFloat2 1%Q 0%Q.
Proof.
  assert (demo_grid !! 1%nat
          = Some (mkGVertex (mkFloat3 800%Q 0%Q 800%Q) (mkFloat3 0%Q 1%Q 0%Q)
                            (mkFloat2 1%Q 0%Q))) as Hg by reflexivity.
  split; [exact Hg|].
  destruct (proj2 (land_vertices_displaced demo_grid) _ _ Hg)
    as (v & Hv & Hx & Hz & Hy & _ & Ht).
  exists v. split; [exact Hv|]. split; [exact Hx|]. split; [exact Hz|].
  split; [exact Hy|exact Ht].
Defined.

(** The second vertex of the two-vertex mesh sits at array position 2 with
    its own position, and carries no texture coordinate of any mesh. *)
Lemma box_geometry_witness :
  (demo_box ++ concat [demo_mesh; []; []; []; []; []; []; []]) !! 2%nat
    = Some (mkGVertex (mkFloat3 3%Q 0%Q 3%Q) (mkFloat3 0%Q 1%Q 0%Q)
                      (mkFloat2 (1 # 2) 1%Q)) /\
  exists v,
    BuildBoxGeometry demo_box demo_mesh [] [] [] [] [] [] [] !! 2%nat = Some v /\
    Pos v = mkFloat3 3%Q 0%Q 3%Q /\
    TexC v = texc_written [demo_box; demo_mesh; []; []; []; []; []; []; []] 2
               (TexC Vertex0).
Proof.
  assert ((demo_box ++ concat [demo_mesh; []; []; []; []; []; []; []]) !! 2%nat
          = Some (mkGVertex (mkFloat3 3%Q 0%Q 3%Q) (mkFloat3 0%Q 1%Q 0%Q)
                            (mkFloat2 (1 # 2) 1%Q))) as Hg by reflexivity.
  split; [exact Hg|].
  destruct (proj1 (proj2 (box_geometry_texcoords
                            demo_box demo_mesh [] [] [] [] [] [] [])) _ _ Hg)
    as (v & Hv & Hp & _ & Ht).
  exists v. split; [exact Hv|]. split; [exact Hp|exact Ht].
Defined.

(** With a one-vertex box and a two-vertex second mesh, array position 1 is
    not below the box size, and yet its texture coordinate is not the
    default: it is the one of the second mesh's vertex 1. *)
Lemma box_geometry_texcoord_overwritten :
  (length demo_box <= 1)%nat /\
  exists v,
    BuildBoxGeometry demo_box demo_mesh [] [] [] [] [] [] [] !! 1%nat = Some v /\
    TexC v = mkFloat2 (1 # 2) 1%Q /\
    TexC v <> TexC (@Vertex0 Q exactQ_series).
Proof.
  split; [simpl; lia|]. eexists. split; [vm_compute; reflexivity|].
  split; [reflexivity|]. vm_compute. discriminate.
Qed.

(** The first [Update] of TreeBillboardsApp on the concrete scene fills the
    wave buffer of frame resource 1; vertex 0 is the far left corner. *)
Lemma waves_vertex_buffer_witness :
  TreeBillboardsApp_Update demo_rand (demo_timer (1 # 10)) (demo_app 1)
    = Some (false, None, demo_u1 TreeBillboards) /\
  exists cur fr',
    cur = 1%nat /\
    mCurrFrameResource (demo_u1 TreeBillboards) = Some cur /\
    mFrameResources (demo_u1 TreeBillboards) !! cur = Some fr' /\
    WavesVertexBufferGPU (demo_u1 TreeBillboards) = Some cur /\
    exists v, WavesVB fr' !! 0%nat = Some v /\
      Pos v = Waves_Position (mWaves (demo_u1 TreeBillboards)) 0.
Proof.
  assert (TreeBillboardsApp_Update demo_rand (demo_timer (1 # 10)) (demo_app 1)
          = Some (false, None, demo_u1 TreeBillboards)) as Hu
    by (vm_compute; reflexivity).
  split; [exact Hu|].
  destruct (proj1 (waves_vertex_buffer_refreshed demo_rand _ _ _ _ _ Hu))
    as (cur & fr' & Hcur & Hc & Hfr & Hgpu & Hall).
  assert (cur = 1%nat) as Hone by (rewrite Hcur; vm_compute; reflexivity).
  exists cur, fr'. split; [exact Hone|]. split; [exact Hc|]. split; [exact Hfr|].
  split; [exact Hgpu|].
  destruct (Hall 0) as (v & Hv & Hp & _); [vm_compute; split; congruence|].
  exists v. split; [exact Hv|exact Hp].
Defined.



(** * Further properties of the modelled code *)

(** ** The fence protocol along runs *)

Section FenceProtocol.
Context {F W : Type} `{FloatOps F} `{WavesOps F W}.
Variable crand : nat -> Z.

Lemma ring_initial_length (s : @App F W) :
  ring_initial s -> length (mFrameResources s) = 3%nat.
Proof.
  intros (Hf & _). unfold fences in Hf.
  rewrite <- (length_fmap Fence), Hf. done.
Qed.

(** The wait of [Update] cannot block for ever: in every state reached from
    the initialised ring, while the fence counter has not wrapped, every
    nonzero [Fence] of the ring has been signalled, so the wait on the
    selected frame resource returns. *)
Theorem update_wait_returns_along_runs k acts (s0 s : @App F W) :
  ring_initial s0 ->
  run crand k acts s0 = Some s ->
  mCurrentFence s0 + draws acts < UINT64_MOD ->
  is_Some (cycle_and_wait s).
Proof.
  intros Hinit Hr Hnw.
  destruct (run_ring_ok crand k acts s0 s
              (ring_initial_fences_ok _ Hinit) (ring_initial_gpu_ok _ Hinit) Hnw Hr)
    as (_ & Hg & Hlen).
  apply cycle_and_wait_returns; [| |done].
  - unfold fences in Hlen. rewrite !length_fmap in Hlen.
    rewrite Hlen. by apply ring_initial_length.
  - unfold index_in_ring, gNumFrameResources.
    destruct Hinit as (_ & Hz & _).
    rewrite (run_index crand k acts s0 s) by (done || lia).
    apply Z.mod_pos_bound. lia.
Qed.

(** [Update] leaves every frame resource but the selected one as it is. *)
Lemma Update_other_frames k gt (s s' : @App F W) waited :
  Update crand k gt s = Some (waited, s') ->
  forall j, j <> Z.to_nat (next_index s) ->
    mFrameResources s' !! j = mFrameResources s !! j.
Proof.
  intros Hu j Hj.
  assert (exists s1 s2, cycle_and_wait s = Some (waited, s1) /\
            UpdateObjectCBs s1 = Some s2 /\
            (mFrameResources s' = mFrameResources s2 \/
             exists d, UpdateWaves crand gt s2 = Some (d, s')))
    as (s1 & s2 & Hc & Ho & Hw).
  { destruct k; simpl in Hu.
    - unfold ShapesApp_Update in Hu.
      destruct (cycle_and_wait s) as [[w0 s1]|]; [|discriminate]. simpl in Hu.
      destruct (UpdateObjectCBs s1) as [s2|] eqn:Ho; [|discriminate].
      simpl in Hu. injection Hu as <- <-. exists s1, s2. rewrite Ho. eauto.
    - unfold TreeBillboardsApp_Update in Hu.
      destruct (cycle_and_wait s) as [[w0 s1]|]; [|discriminate]. simpl in Hu.
      destruct (UpdateObjectCBs s1) as [s2|] eqn:Ho; [|discriminate].
      simpl in Hu.
      destruct (UpdateWaves crand gt s2) as [[d s3]|] eqn:Hw; [|discriminate].
      simpl in Hu. injection Hu as <- <-. exists s1, s2. rewrite Ho. eauto. }
  apply cycle_and_wait_spec in Hc as (_ & _ & Hcur & Hfrs & _).
  pose proof (UpdateObjectCBs_frame _ _ Ho) as (_ & Hcur2 & _).
  apply UpdateObjectCBs_spec in Ho as (cur & fr & fr' & Hc1 & _ & Hfrs2 & _).
  rewrite Hcur in Hc1. injection Hc1 as <-.
  assert (mFrameResources s2 !! j = mFrameResources s !! j) as H2.
  { rewrite Hfrs2, Hfrs. by apply list_lookup_insert_ne. }
  destruct Hw as [->|(d & Hw)]; [done|].
  apply UpdateWaves_spec in Hw
    as (cur3 & fr3 & fr3' & tb & n & w1 & _ & _ & _ & _ & Hc3 & _ & Hfrs3 & _).
  rewrite Hcur2, Hcur in Hc3. injection Hc3 as <-.
  rewrite Hfrs3, list_lookup_insert_ne by done. done.
Qed.

Lemma Update_selected_idle k gt (s s' : @App F W) waited :
  gpu_ok s ->
  Update crand k gt s = Some (waited, s') ->
  exists fr, mFrameResources s !! Z.to_nat (next_index s) = Some fr /\
    (Fence fr = 0 \/
     (Fence fr <= GetCompletedValue (mFence s') /\
      Fence fr ∉ pending (mFence s'))).
Proof.
  intros Hg Hu.
  assert (gpu_consistent (mCurrentFence s) (fences s) (mFence s')) as Hg'.
  { apply Update_spec in Hu as (_ & _ & _ & _ & _ & fr & _ & _ & Hn & Hy & _).
    destruct waited.
    - specialize (Hy eq_refl). unfold WaitForSingleObject in Hy.
      unfold gpu_ok in Hg. destruct (mFence s) as [c q]. simpl in Hy.
      eapply gpu_consistent_wait; [exact Hy|exact Hg].
    - rewrite (Hn eq_refl). exact Hg. }
  apply Update_spec in Hu as (_ & _ & _ & _ & _ & fr & Hfr & _ & _ & _ & Hpost).
  exists fr. split; [done|].
  destruct Hpost as [?|Hle]; [by left|right]. split; [done|].
  intros Hin. destruct Hg' as (_ & _ & Hsorted & _).
  inversion Hsorted as [|? ? _ Hall]; subst.
  rewrite Forall_forall in Hall. apply Hall in Hin. lia.
Qed.

(** The buffers [Update] writes are never ones the GPU may still read.  In
    any state reached from the initialised ring, while the fence counter
    has not wrapped, the only frame resource [Update] changes is the
    selected one, and once [Update] is past its wait that frame resource
    was never submitted, or its fence value is completed and no signal for
    it is queued any more. *)
Theorem update_writes_only_idle_frame_resource k acts gt
    (s0 s s' : @App F W) waited :
  ring_initial s0 ->
  run crand k acts s0 = Some s ->
  mCurrentFence s0 + draws acts < UINT64_MOD ->
  Update crand k gt s = Some (waited, s') ->
  (forall j, j <> Z.to_nat (next_index s) ->
     mFrameResources s' !! j = mFrameResources s !! j) /\
  exists fr, mFrameResources s !! Z.to_nat (next_index s) = Some fr /\
    (Fence fr = 0 \/
     (Fence fr <= GetCompletedValue (mFence s') /\
      Fence fr ∉ pending (mFence s'))).
Proof.
  intros Hinit Hr Hnw Hu.
  destruct (run_ring_ok crand k acts s0 s
              (ring_initial_fences_ok _ Hinit) (ring_initial_gpu_ok _ Hinit) Hnw Hr)
    as (_ & Hg & _).
  split; [by eapply Update_other_frames|by eapply Update_selected_idle].
Qed.

(** A step of GPU progress never lowers the completed value. *)
Lemma gpu_step_monotone counter fs g :
  gpu_consistent counter fs g ->
  GetCompletedValue g <= GetCompletedValue (gpu_step g).
Proof.
  intros (_ & _ & Hs & _). unfold gpu_step.
  destruct (pending g) as [|v q]; [lia|]. simpl.
  inversion Hs as [|? ? _ Hall]; subst. inversion Hall; subst. lia.
Qed.

Lemma wait_loop_monotone counter fs target (q : list Z) :
  forall c g, wait_loop target c q = Some g ->
    gpu_consistent counter fs (mkGPU c q) -> c <= GetCompletedValue g.
Proof.
  induction q as [|v q IH]; intros c g; simpl.
  - destruct (target <=? c); [|discriminate]. intros Hw _.
    injection Hw as <-. simpl. lia.
  - destruct (target <=? c).
    { intros Hw _. injection Hw as <-. simpl. lia. }
    intros Hw Hok.
    pose proof (gpu_step_monotone _ _ _ Hok) as Hm. simpl in Hm.
    pose proof (gpu_consistent_step _ _ _ Hok) as Hok'. simpl in Hok'.
    specialize (IH v g Hw Hok'). lia.
Qed.


End FenceProtocol.

(** ** Frames in flight *)

Section FramesInFlight.
Context {F W : Type} `{FloatOps F} `{WavesOps F W}.
Variable crand : nat -> Z.

Lemma gpu_step_sub g v : v ∈ pending (gpu_step g) -> v ∈ pending g.
Proof.
  unfold gpu_step. destruct (pending g) as [|u q] eqn:Hq.
  - by rewrite Hq.
  - simpl. intros Hv. by right.
Qed.

Lemma wait_loop_sub target (q : list Z) :
  forall c g, wait_loop target c q = Some g ->
    forall v, v ∈ pending g -> v ∈ q.
Proof.
  induction q as [|u q IH]; intros c g; simpl.
  - destruct (target <=? c); [|discriminate]. intros Hw. by injection Hw as <-.
  - destruct (target <=? c).
    { intros Hw. by injection Hw as <-. }
    intros Hw v Hv. right. by eapply IH.
Qed.

Lemma sorted_lt_NoDup (l : list Z) : StronglySorted Z.lt l -> NoDup l.
Proof.
  induction 1 as [|x l _ IH Hall]; [constructor|].
  constructor; [|done]. intros Hin.
  rewrite Forall_forall in Hall. apply Hall in Hin. lia.
Qed.

Lemma pending_above_completed counter fs g v :
  gpu_consistent counter fs g -> v ∈ pending g -> GetCompletedValue g < v.
Proof.
  intros (_ & _ & Hs & _) Hv. inversion Hs as [|? ? _ Hall]; subst.
  rewrite Forall_forall in Hall. by apply Hall.
Qed.

(** What [Update] does to the queue: it only shortens it, and leaves no
    signal queued for the frame resource it selects. *)
Lemma Update_queue k gt (s s' : @App F W) waited :
  gpu_ok s -> 0 <= GetCompletedValue (mFence s) ->
  Update crand k gt s = Some (waited, s') ->
  gpu_ok s' /\
  fences s' = fences s /\
  GetCompletedValue (mFence s) <= GetCompletedValue (mFence s') /\
  (forall v, v ∈ pending (mFence s') -> v ∈ pending (mFence s)) /\
  current_idle s'.
Proof.
  intros Hg H0c Hu.
  apply Update_spec in Hu
    as (_ & _ & Hcur & Hc & Hfs & fr & Hfr & _ & Hn & Hy & Hpost).
  assert (gpu_consistent (mCurrentFence s) (fences s) (mFence s') /\
          GetCompletedValue (mFence s) <= GetCompletedValue (mFence s') /\
          (forall v, v ∈ pending (mFence s') -> v ∈ pending (mFence s)))
    as (Hg' & Hmono & Hsub).
  { destruct waited.
    - specialize (Hy eq_refl). unfold WaitForSingleObject in Hy.
      unfold gpu_ok in Hg. destruct (mFence s) as [c q]. simpl in *.
      split; [|split].
      + eapply gpu_consistent_wait; [exact Hy|exact Hg].
      + eapply wait_loop_monotone; [exact Hy|exact Hg].
      + by eapply wait_loop_sub.
    - rewrite (Hn eq_refl). split; [exact Hg|]. split; [lia|done]. }
  split; [unfold gpu_ok; by rewrite Hc, Hfs|]. split; [done|].
  split; [done|]. split; [done|].
  assert (fences s' !! Z.to_nat (next_index s) = Some (Fence fr)) as Hl.
  { rewrite Hfs. unfold fences. by rewrite list_lookup_fmap, Hfr. }
  unfold fences in Hl. rewrite list_lookup_fmap in Hl.
  destruct (mFrameResources s' !! Z.to_nat (next_index s)) as [fr'|] eqn:Hfr';
    [|discriminate].
  simpl in Hl. injection Hl as Hl.
  exists (Z.to_nat (next_index s)), fr'. split; [done|]. split; [done|].
  rewrite Hl. intros Hin.
  pose proof (pending_above_completed _ _ _ _ Hg' Hin). lia.
Qed.

(** What [Draw] does to the queue when the selected frame resource is
    idle: the new signal replaces nothing that is still queued. *)
Lemma Draw_queue (s s' : @App F W) :
  signals_owned s -> current_idle s -> Draw s = Some s' ->
  signals_owned s'.
Proof.
  intros Hown (cur & fr & Hcur & Hfr & Hidle) Hd.
  apply Draw_spec in Hd
    as (cur' & fr' & Hcur' & Hfr' & _ & Hfrs & Hq & _).
  rewrite Hcur in Hcur'. injection Hcur' as <-.
  rewrite Hfr in Hfr'. injection Hfr' as <-.
  intros v Hv. rewrite Hq in Hv. unfold Signal in Hv. simpl in Hv.
  unfold fences. rewrite Hfrs.
  apply elem_of_app in Hv as [Hv|Hv].
  - destruct (list_elem_of_lookup_1 _ _ (Hown v Hv)) as (i & Hi).
    unfold fences in Hi. rewrite list_lookup_fmap in Hi.
    destruct (mFrameResources s !! i) as [fi|] eqn:Hfi; [|discriminate].
    simpl in Hi. injection Hi as <-.
    destruct (decide (i = cur)) as [->|Hne].
    + rewrite Hfr in Hfi. injection Hfi as <-. done.
    + apply (list_elem_of_lookup_2 _ i).
      by rewrite list_lookup_fmap, list_lookup_insert_ne, Hfi.
  - apply list_elem_of_singleton in Hv as ->.
    apply (list_elem_of_lookup_2 _ cur).
    rewrite list_lookup_fmap, list_lookup_insert_eq
      by (by eapply lookup_lt_Some).
    done.
Qed.

Lemma run_pipeline k (acts : list (Action F)) :
  forall ready (s s' : @App F W),
    draws_follow_updates ready acts = true ->
    fences_ok s -> gpu_ok s -> 0 <= GetCompletedValue (mFence s) ->
    signals_owned s -> (ready = true -> current_idle s) ->
    mCurrentFence s + draws acts < UINT64_MOD ->
    run crand k acts s = Some s' ->
    fences_ok s' /\ gpu_ok s' /\ 0 <= GetCompletedValue (mFence s') /\
    signals_owned s' /\ length (fences s') = length (fences s).
Proof.
  induction acts as [|a acts IH];
    intros ready s s' Hord Hok Hg H0c Hown Hidle Hnw Hr; simpl in Hr.
  - by injection Hr as <-.
  - destruct (step crand k a s) as [s1|] eqn:Hs; [|discriminate]. simpl in Hr.
    rewrite draws_cons in Hnw. pose proof (draws_nonneg acts) as Hd0.
    destruct (run_ring_ok crand k [a] s s1 Hok Hg) as (Hok1 & Hg1 & Hlen1).
    { rewrite draws_cons. change (draws (@nil (Action F))) with 0.
      destruct (is_draw a); lia. }
    { simpl. by rewrite Hs. }
    assert (mCurrentFence s1 = mCurrentFence s + (if is_draw a then 1 else 0))
      as Hc1.
    { destruct (is_draw a) eqn:Ha.
      - destruct a; try discriminate. simpl in Hs.
        by destruct (fences_ok_Draw s s1 Hok ltac:(lia) Hs).
      - destruct (step_not_draw crand _ _ _ _ Ha Hs) as (_ & ->). lia. }
    rewrite <- Hlen1.
    destruct a as [gt| |]; simpl in Hs, Hord, Hc1, Hnw.
    + destruct (Update crand k gt (set_mTimer gt s)) as [[w s2]|] eqn:Hu;
        [|discriminate].
      simpl in Hs. injection Hs as <-.
      destruct (Update_queue k gt (set_mTimer gt s) s2 w Hg H0c Hu)
        as (_ & Hfs & Hmono & Hsub & Hidle2).
      apply (IH true s2 s' Hord Hok1 Hg1); [simpl in Hmono; lia| |done| |done].
      * intros v Hv. rewrite Hfs. apply Hown. by apply Hsub.
      * simpl in Hc1. lia.
    + apply andb_prop in Hord as (-> & Hord).
      apply (IH false s1 s' Hord Hok1 Hg1); [| |done| |done].
      * apply Draw_spec in Hs as (_ & _ & _ & _ & _ & _ & -> & _). done.
      * by eapply Draw_queue; [|apply Hidle|].
      * simpl in Hc1. lia.
    + injection Hs as <-.
      apply (IH ready _ s' Hord Hok1 Hg1); [| | |simpl; lia|done].
      * simpl. pose proof (gpu_step_monotone _ _ _ Hg). lia.
      * intros v Hv. apply Hown. by apply gpu_step_sub.
      * intros Hrd. destruct (Hidle Hrd) as (cur & fr & Hcur & Hfr & Hni).
        exists cur, fr. split; [done|]. split; [done|].
        intros Hin. apply Hni. by apply gpu_step_sub.
Qed.

Lemma owned_queue_length (s : @App F W) :
  gpu_ok s -> signals_owned s ->
  (length (pending (mFence s)) <= length (fences s))%nat.
Proof.
  intros (_ & _ & Hs & _) Hown. apply submseteq_length, NoDup_submseteq; [|done].
  apply sorted_lt_NoDup. by inversion Hs.
Qed.

Lemma idle_queue_length (s : @App F W) :
  gpu_ok s -> signals_owned s -> current_idle s ->
  (S (length (pending (mFence s))) <= length (fences s))%nat.
Proof.
  intros (_ & _ & Hs & _) Hown (cur & fr & _ & Hfr & Hidle).
  assert (fences s !! cur = Some (Fence fr)) as Hl.
  { unfold fences. by rewrite list_lookup_fmap, Hfr. }
  rewrite <- (take_drop_middle _ _ _ Hl), length_app. simpl.
  rewrite Nat.add_succ_r, <- length_app. apply le_n_S.
  apply submseteq_length, NoDup_submseteq.
  - apply sorted_lt_NoDup. by inversion Hs.
  - intros v Hv. pose proof (Hown v Hv) as Hin.
    rewrite <- (take_drop_middle _ _ _ Hl) in Hin.
    apply elem_of_app in Hin as [Hin|Hin]; [apply elem_of_app; by left|].
    apply elem_of_cons in Hin as [->|Hin]; [done|].
    apply elem_of_app. by right.
Qed.

(** With three frame resources the CPU is never more than three frames
    ahead of the GPU: while each [Draw] follows an [Update], every signal
    the GPU has still to reach is the [Fence] of its own frame resource,
    so at most three are queued at any point of the run, and at most two
    once a further [Update] is past its wait. *)
Theorem at_most_three_frames_in_flight k acts (s0 s : @App F W) :
  ring_initial s0 -> 0 <= GetCompletedValue (mFence s0) ->
  draws_follow_updates false acts = true ->
  mCurrentFence s0 + draws acts < UINT64_MOD ->
  run crand k acts s0 = Some s ->
  signals_owned s /\
  (length (pending (mFence s)) <= 3)%nat /\
  forall gt s' waited, Update crand k gt s = Some (waited, s') ->
    (length (pending (mFence s')) <= 2)%nat.
Proof.
  intros Hinit H0c Hord Hnw Hr.
  assert (signals_owned s0) as Hown0.
  { intros v Hv. destruct Hinit as (_ & _ & _ & _ & Hq).
    rewrite Hq in Hv. by apply elem_of_nil in Hv. }
  destruct (run_pipeline k acts false s0 s Hord
              (ring_initial_fences_ok _ Hinit) (ring_initial_gpu_ok _ Hinit)
              H0c Hown0 ltac:(discriminate) Hnw Hr)
    as (Hok & Hg & H0c' & Hown & Hlen).
  assert (length (fences s) = 3%nat) as Hlen3.
  { rewrite Hlen. destruct Hinit as (-> & _). done. }
  split; [done|]. split.
  - rewrite <- Hlen3. by apply owned_queue_length.
  - intros gt s' waited Hu.
    destruct (Update_queue k gt s s' waited Hg H0c' Hu)
      as (Hg' & Hfs & _ & Hsub & Hidle).
    assert (signals_owned s') as Hown'.
    { intros v Hv. rewrite Hfs. apply Hown. by apply Hsub. }
    pose proof (idle_queue_length s' Hg' Hown' Hidle) as Hb.
    rewrite Hfs, Hlen3 in Hb. lia.
Qed.
End FramesInFlight.

(** ** Bounds of the object constant buffer *)

Section ObjectCBBounds.
Context {F W : Type} `{FloatOps F} `{WavesOps F W}.

Lemma CopyData_is_Some {T : Type} (i : Z) (x : T) (buf : list T) :
  is_Some (CopyData i x buf) <-> 0 <= i < Z.of_nat (length buf).
Proof.
  unfold CopyData.
  destruct (Z.leb_spec 0 i), (Z.ltb_spec i (Z.of_nat (length buf))); simpl;
    split; intros Hs; try lia; try (by eexists); by destruct Hs.
Qed.

Lemma UpdateObjectCBs_loop_is_Some (items : list (RenderItem F)) :
  forall cb, is_Some (UpdateObjectCBs_loop items cb) <->
             dirty_slots_fit items (length cb).
Proof.
  unfold dirty_slots_fit.
  induction items as [|e items IH]; intros cb; simpl.
  - split; [constructor|by eexists].
  - rewrite Forall_cons.
    destruct (Z.ltb_spec 0 (NumFramesDirty e)) as [Hd|Hc].
    + destruct (CopyData (ObjCBIndex e) (object_constants e) cb) as [cb1|] eqn:Hcp;
        simpl.
      * pose proof (proj1 (CopyData_is_Some _ _ _) (mk_is_Some _ _ Hcp)) as Hin.
        apply CopyData_Some in Hcp as (_ & _ & ->).
        specialize (IH (<[Z.to_nat (ObjCBIndex e):=object_constants e]> cb)).
        rewrite length_insert in IH. rewrite <- IH.
        destruct (UpdateObjectCBs_loop items _) as [[r c]|]; simpl.
        -- split; [intros _; split; [done|by eexists]|by eexists].
        -- split; [by intros []|by intros (_ & [])].
      * split; [by intros []|]. intros (Hin & _).
        apply Hin in Hd.
        apply (CopyData_is_Some _ (object_constants e)) in Hd.
        rewrite Hcp in Hd. by destruct Hd.
    + rewrite <- (IH cb).
      destruct (UpdateObjectCBs_loop items cb) as [[r c]|]; simpl.
      * split; [intros _; split; [lia|by eexists]|by eexists].
      * split; [by intros []|by intros (_ & [])].
Qed.

(** [UpdateObjectCBs] stays inside the mapped buffer of the selected frame
    resource exactly when every dirty render item has its [ObjCBIndex] in
    the range of that buffer; the slots of clean items are never looked
    at. *)
Theorem object_cb_pass_in_bounds_iff (s : @App F W) cur fr :
  mCurrFrameResource s = Some cur ->
  mFrameResources s !! cur = Some fr ->
  is_Some (UpdateObjectCBs s) <->
  dirty_slots_fit (mAllRitems s) (length (ObjectCB fr)).
Proof.
  intros Hcur Hfr. rewrite <- UpdateObjectCBs_loop_is_Some.
  unfold UpdateObjectCBs. rewrite Hcur. simpl. rewrite Hfr. simpl.
  destruct (UpdateObjectCBs_loop (mAllRitems s) (ObjectCB fr)) as [[r c]|]; simpl.
  - split; intros _; by eexists.
  - done.
Qed.

Lemma UpdateObjectCBs_loop_clean (items : list (RenderItem F)) cb :
  Forall (fun e => NumFramesDirty e <= 0) items ->
  UpdateObjectCBs_loop items cb = Some (items, cb).
Proof.
  induction 1 as [|e items He _ IH]; simpl; [done|].
  destruct (Z.ltb_spec 0 (NumFramesDirty e)); [lia|]. by rewrite IH.
Qed.

(** Once no render item is dirty, [UpdateObjectCBs] changes nothing: no
    buffer of the ring is written and no counter moves, whatever the slots
    of the items are. *)
Theorem object_cb_pass_clean_is_noop (s : @App F W) cur :
  Forall (fun e => NumFramesDirty e <= 0) (mAllRitems s) ->
  mCurrFrameResource s = Some cur ->
  is_Some (mFrameResources s !! cur) ->
  UpdateObjectCBs s = Some s.
Proof.
  intros Hclean Hcur (fr & Hfr). unfold UpdateObjectCBs.
  rewrite Hcur. simpl. rewrite Hfr. simpl.
  rewrite (UpdateObjectCBs_loop_clean _ _ Hclean). simpl.
  assert (set_ObjectCB (ObjectCB fr) fr = fr) as -> by by destruct fr.
  rewrite (list_insert_id _ _ _ Hfr). by destruct s.
Qed.
End ObjectCBBounds.

(** ** The message loop never faults *)

Section NeverFaults.
Context {F W : Type} `{FloatOps F} `{WavesOps F W}.
Variable crand : nat -> Z.










End NeverFaults.

(** ** The index array of the waves beyond its intended use *)

Section WavesIndexBounds.
Context {F W : Type} `{FloatOps F} `{WavesOps F W}.







End WavesIndexBounds.

(** ** The terrain is lit as if it were flat *)

(** [BuildLandGeometry] displaces every vertex of the grid by the height
    of the hills but, in binary32 arithmetic, gives all of them the same
    normal: wherever the [sinf] calls of [GetHillsNormal] return finite
    numbers, the normal stored in the vertex is zero, one, zero. *)
Theorem land_normals_all_up (libm_sinf libm_cosf : spec_float -> spec_float)
    (grid : list (GVertex spec_float)) :
  Forall (fun g => hills_sin_finite libm_sinf (x3 (Position g)) = true /\
                   hills_sin_finite libm_sinf (z3 (Position g)) = true) grid ->
  length (@BuildLandGeometry spec_float (ieee32 libm_sinf libm_cosf) grid)
    = length grid /\
  Forall (fun v => normal_is_up (Normal v))
         (@BuildLandGeometry spec_float (ieee32 libm_sinf libm_cosf) grid).
Proof.
  intros Hfin.
  assert (@BuildLandGeometry spec_float (ieee32 libm_sinf libm_cosf) grid
          = @land_vertex spec_float (ieee32 libm_sinf libm_cosf) <$> grid) as ->.
  { unfold BuildLandGeometry.
    apply (@land_loop_spec spec_float (ieee32 libm_sinf libm_cosf) grid []
             (replicate (length grid) Vertex0)).
    apply length_replicate. }
  split; [apply length_fmap|].
  rewrite Forall_fmap. eapply Forall_impl; [exact Hfin|].
  intros g (Hx & Hz). simpl. unfold hills_sin_finite in Hx, Hz.
  destruct (f32_zero_mul _ Hx) as (sx & Ex).
  destruct (f32_zero_mul _ Hz) as (sz & Ez).
  exists sx, sz. unfold GetHillsNormal, GetHillsNormal_raw.
  cbn [fmul fdiv of_int sinf ieee32].
  change (Z.quot 7 40) with 0. rewrite Ex, Ez. apply f32_normalize_up.
Qed.

(** ** ShapesApp: the packed shape geometry *)

Section ShapeGeometryFacts.
Context {F : Type} `{FloatOps F}.
Variable GetIndices16 : @MeshData F -> list Z.

Lemma copy_pos_normal_app (g : GVertex F) (pre : list (Vertex F)) v rest :
  copy_pos_normal g (Z.of_nat (length pre)) (pre ++ v :: rest)
  = Some (pre ++ mkVertex (Position g) (GNormal g) (TexC v) :: rest).
Proof.
  unfold copy_pos_normal, size. rewrite length_app. simpl.
  destruct (Z.leb_spec 0 (Z.of_nat (length pre))); [|lia].
  destruct (Z.ltb_spec (Z.of_nat (length pre))
              (Z.of_nat (length pre + S (length rest)))); [|lia].
  simpl. rewrite Nat2Z.id. f_equal. apply list_eq. intros j.
  destruct (decide (j = length pre)) as [->|Hne].
  - rewrite !list_lookup_alter_eq, !lookup_app_r, Nat.sub_diag by lia. done.
  - rewrite !list_lookup_alter_ne by done.
    destruct (decide (j < length pre)%nat).
    + by rewrite !lookup_app_l by lia.
    + rewrite !lookup_app_r by lia.
      destruct (j - length pre)%nat eqn:E; [lia|done].
Qed.

Lemma shape_loop_spec (gs : list (GVertex F)) :
  forall k pre n,
    k = Z.of_nat (length pre) -> (length gs <= n)%nat ->
    k + Z.of_nat (length gs) < UINT_MOD ->
    shape_loop gs k (pre ++ replicate n Vertex0)
    = Some ((pre ++ (shape_vertex <$> gs)) ++ replicate (n - length gs) Vertex0,
            k + Z.of_nat (length gs)).
Proof.
  induction gs as [|g gs IH]; intros k pre n Hk Hn Hlt.
  - simpl. rewrite app_nil_r, Nat.sub_0_r, Z.add_0_r. done.
  - destruct n as [|n]; [simpl in Hn; lia|]. simpl in Hn, Hlt.
    cbn [shape_loop replicate]. subst k. rewrite copy_pos_normal_app.
    cbn [mbind option_bind].
    change (mkVertex (Position g) (GNormal g) (TexC Vertex0))
      with (shape_vertex g).
    replace (pre ++ shape_vertex g :: replicate n Vertex0)
      with ((pre ++ [shape_vertex g]) ++ replicate n Vertex0)
      by (by rewrite <- app_assoc).
    replace (to_UINT (Z.of_nat (length pre) + 1))
      with (Z.of_nat (length (pre ++ [shape_vertex g]))).
    2:{ unfold to_UINT. rewrite length_app. simpl.
        rewrite Z.mod_small; unfold UINT_MOD in *; lia. }
    rewrite (IH _ (pre ++ [shape_vertex g]) n eq_refl) by
      (rewrite ?length_app; simpl; lia).
    rewrite length_app. simpl length. rewrite <- !app_assoc. simpl.
    do 2 f_equal. lia.
Qed.

Lemma take_drop_concat {A : Type} (ls : list (list A)) :
  forall s l, ls !! s = Some l ->
    take (length l) (drop (length (concat (take s ls))) (concat ls)) = l.
Proof.
  induction ls as [|l0 ls IH]; intros s l Hl; [done|].
  destruct s as [|s]; simpl in Hl |- *.
  - injection Hl as ->. by rewrite drop_0, take_app_length.
  - rewrite length_app, drop_app_add. by apply IH.
Qed.
Ltac shape_arith :=
  unfold size in *; change UINT_MOD with 4294967296 in *;
  rewrite ?length_app, ?length_fmap; simpl; lia.

Ltac shape_loops :=
  do 9 (rewrite shape_loop_spec by shape_arith; cbn [mbind option_bind]).

(** [ShapesApp::BuildShapeGeometry] never writes outside its vertex array
    and packs the nine meshes back to back: the vertex buffer is the
    concatenation of the generated vertices, each with its position and
    normal and a texture coordinate left at its initial zero, and the index
    buffer is the concatenation of the 16-bit index lists. *)
Theorem shape_geometry_packed
    (box grid sphere cylinder diamond torus pyramid prism wedge : @MeshData F) :
  let meshes := [box; grid; sphere; cylinder; diamond; torus; pyramid; prism; wedge] in
  size (concat (Vertices <$> meshes)) < UINT_MOD ->
  exists geo,
    BuildShapeGeometry GetIndices16
      box grid sphere cylinder diamond torus pyramid prism wedge = Some geo /\
    VertexBufferCPU geo = shape_vertex <$> concat (Vertices <$> meshes) /\
    IndexBufferCPU geo = concat (GetIndices16 <$> meshes).
Proof.
  intros meshes Hlt. subst meshes. unfold size in Hlt. simpl in Hlt.
  rewrite !length_app in Hlt. simpl in Hlt.
  unfold BuildShapeGeometry. cbv zeta.
  rewrite <- (app_nil_l (replicate _ Vertex0)).
  shape_loops.
  eexists. split; [reflexivity|]. cbn [VertexBufferCPU IndexBufferCPU]. split.
  - match goal with |- _ ++ replicate ?n _ = _ =>
      replace n with 0%nat by shape_arith end.
    simpl. rewrite !app_nil_r, !fmap_app, <- !app_assoc. done.
  - simpl. rewrite !app_nil_r, <- !app_assoc. done.
Qed.
Lemma nine_apps {A : Type} (a1 a2 a3 a4 a5 a6 a7 a8 a9 : list A) :
  (((((((([] ++ a1) ++ a2) ++ a3) ++ a4) ++ a5) ++ a6) ++ a7) ++ a8) ++ a9
  = concat [a1; a2; a3; a4; a5; a6; a7; a8; a9].
Proof. simpl. rewrite !app_nil_r, <- !app_assoc. done. Qed.

Lemma UINT_to_int_small (x : Z) : 0 <= x < 2147483648 -> UINT_to_int x = x.
Proof. unfold UINT_to_int. destruct (Z.ltb_spec x (2 ^ 31)); lia. Qed.

Lemma to_UINT_small (x : Z) : 0 <= x < 4294967296 -> to_UINT x = x.
Proof. intros Hx. unfold to_UINT, UINT_MOD. by apply Z.mod_small. Qed.

Ltac uint_norm :=
  repeat match goal with
         | |- context [to_UINT ?x] => rewrite (to_UINT_small x) by shape_arith
         end;
  repeat match goal with
         | |- context [UINT_to_int ?x] =>
             rewrite (UINT_to_int_small x) by shape_arith
         end.

Ltac shape_case s :=
  eexists; split;
    [rewrite ?lookup_insert_ne by done; apply lookup_insert_eq|];
  cbn [IndexCount StartIndexLocation BaseVertexLocation]; uint_norm;
  split; [done|];
  split; [shape_arith|];
  split; [shape_arith|];
  split;
    (match goal with |- take _ (drop _ (concat ?ls)) = ?l =>
       transitivity (take (length l) (drop (length (concat (take s ls))) (concat ls)));
       [|exact (take_drop_concat ls s l eq_refl)] end;
     rewrite ?length_fmap; do 2 f_equal; cbn [take concat];
     rewrite ?length_app, ?length_fmap; shape_arith).

(** The draw arguments [BuildShapeGeometry] records find each mesh again:
    under its key, [IndexCount] is the number of indices of the mesh, the
    slice of the index buffer from [StartIndexLocation] is its 16-bit index
    list, and the slice of the vertex buffer from [BaseVertexLocation] is
    its vertices.  The buffers must stay below [2^31] elements, and
    [GetIndices16] must return as many indices as [Indices32] holds. *)
Theorem shape_draw_args_locate_meshes
    (box grid sphere cylinder diamond torus pyramid prism wedge : @MeshData F) :
  let meshes := [box; grid; sphere; cylinder; diamond; torus; pyramid; prism; wedge] in
  size (concat (Vertices <$> meshes)) < 2 ^ 31 ->
  size (concat (Indices32 <$> meshes)) < 2 ^ 31 ->
  Forall (fun m => length (GetIndices16 m) = length (Indices32 m)) meshes ->
  exists geo,
    BuildShapeGeometry GetIndices16
      box grid sphere cylinder diamond torus pyramid prism wedge = Some geo /\
    forall name m,
      (name, m) ∈ shape_table box grid sphere cylinder diamond torus pyramid
                    prism wedge ->
      exists sm,
        DrawArgs geo !! name = Some sm /\
        IndexCount sm = size (Indices32 m) /\
        0 <= StartIndexLocation sm /\
        0 <= BaseVertexLocation sm /\
        take (length (GetIndices16 m))
             (drop (Z.to_nat (StartIndexLocation sm)) (IndexBufferCPU geo))
          = GetIndices16 m /\
        take (length (Vertices m))
             (drop (Z.to_nat (BaseVertexLocation sm)) (VertexBufferCPU geo))
          = shape_vertex <$> Vertices m.
Proof.
  intros meshes Hv Hi Hg. subst meshes. unfold size in Hv, Hi.
  simpl in Hv, Hi. rewrite !length_app in Hv, Hi. simpl in Hv, Hi.
  repeat (apply Forall_cons in Hg as (? & Hg)).
  change (2 ^ 31) with 2147483648 in *.
  unfold BuildShapeGeometry. cbv zeta.
  rewrite <- (app_nil_l (replicate _ Vertex0)).
  shape_loops.
  eexists. split; [reflexivity|]. intros name m Hin.
  cbn [VertexBufferCPU IndexBufferCPU DrawArgs].
  match goal with |- context [_ ++ replicate ?n Vertex0] =>
    replace n with 0%nat by shape_arith end.
  change (replicate 0 (@Vertex0 F _)) with (@nil (Vertex F)).
  rewrite (app_nil_r (_ ++ (shape_vertex <$> Vertices wedge))), !nine_apps.
  unfold shape_table in Hin.
  repeat (apply elem_of_cons in Hin as [Hin|Hin]);
    [..|by apply elem_of_nil in Hin]; injection Hin as -> ->.
  - shape_case 0%nat.
  - shape_case 1%nat.
  - shape_case 2%nat.
  - shape_case 3%nat.
  - shape_case 4%nat.
  - shape_case 5%nat.
  - shape_case 6%nat.
  - shape_case 7%nat.
  - shape_case 8%nat.
Qed.
End ShapeGeometryFacts.

(** ** Materials *)

Section MaterialFacts.
Context {F : Type} `{FloatOps F}.

Lemma after_pass_dirty (e : string * Mat.Material F) :
  0 < Mat.NumFramesDirty e.2 ->
  Mat.after_pass e = (e.1, Mat.set_NumFramesDirty (Mat.NumFramesDirty e.2 - 1) e.2).
Proof.
  unfold Mat.after_pass. destruct (Z.ltb_spec 0 (Mat.NumFramesDirty e.2)); [done|lia].
Qed.

Lemma after_pass_clean (e : string * Mat.Material F) :
  Mat.NumFramesDirty e.2 <= 0 -> Mat.after_pass e = e.
Proof.
  unfold Mat.after_pass. destruct (Z.ltb_spec 0 (Mat.NumFramesDirty e.2)); [lia|done].
Qed.

Lemma UpdateMaterialCBs_spec (mats : list (string * Mat.Material F)) :
  forall cb mats' cb',
    Mat.UpdateMaterialCBs mats cb = Some (mats', cb') ->
    mats' = Mat.after_pass <$> mats /\
    length cb' = length cb /\
    (forall slot, 0 <= slot ->
       (forall e, e ∈ mats -> 0 < Mat.NumFramesDirty e.2 -> Mat.MatCBIndex e.2 <> slot) ->
       cb' !! Z.to_nat slot = cb !! Z.to_nat slot) /\
    (Mat.distinct_indices mats ->
     forall e, e ∈ mats -> 0 < Mat.NumFramesDirty e.2 ->
       cb' !! Z.to_nat (Mat.MatCBIndex e.2) = Some (Mat.material_constants e.2)).
Proof.
  induction mats as [|[name mat] rest IH]; intros cb mats' cb' Hl; simpl in Hl.
  - injection Hl as <- <-. repeat split; try done.
    intros _ e He. by apply elem_of_nil in He.
  - destruct (Z.ltb_spec 0 (Mat.NumFramesDirty mat)) as [Hdirty|Hclean].
    + destruct (CopyData (Mat.MatCBIndex mat) (Mat.material_constants mat) cb)
        as [cb1|] eqn:Hcp; [|discriminate].
      simpl in Hl.
      destruct (Mat.UpdateMaterialCBs rest cb1) as [[rest' cb2]|] eqn:Hrest;
        [|discriminate].
      simpl in Hl. injection Hl as <- <-.
      apply CopyData_Some in Hcp as (Hi0 & Hi & ->).
      destruct (IH _ _ _ Hrest) as (-> & Hlen & Hkeep & Hwr).
      rewrite fmap_cons, after_pass_dirty by done.
      split; [done|]. split; [by rewrite Hlen, length_insert|]. split.
      * intros slot Hs Hc. rewrite Hkeep; [|done|].
        -- apply list_lookup_insert_ne. intros Heq.
           apply (Hc (name, mat)); [by left|done|]. simpl. lia.
        -- intros e' He'. apply Hc. by right.
      * intros Hnd e' He' Hd'. apply NoDup_cons in Hnd as (Hnotin & Hnd).
        apply elem_of_cons in He' as [->|He'].
        -- simpl. rewrite Hkeep; [by apply list_lookup_insert_eq|done|].
           intros e' He' _ Heq. apply Hnotin. simpl. rewrite <- Heq.
           apply list_elem_of_fmap. by exists e'.
        -- by apply Hwr.
    + destruct (Mat.UpdateMaterialCBs rest cb) as [[rest' cb2]|] eqn:Hrest;
        [|discriminate].
      simpl in Hl. injection Hl as <- <-.
      destruct (IH _ _ _ Hrest) as (-> & Hlen & Hkeep & Hwr).
      rewrite fmap_cons, after_pass_clean by done.
      split; [done|]. split; [done|]. split.
      * intros slot Hs Hc. apply Hkeep; [done|].
        intros e' He'. apply Hc. by right.
      * intros Hnd e' He' Hd'. apply NoDup_cons in Hnd as (_ & Hnd).
        apply elem_of_cons in He' as [->|He']; [simpl in Hd'; lia|by apply Hwr].
Qed.

Lemma UpdateMaterialCBs_is_Some (mats : list (string * Mat.Material F)) :
  forall cb, is_Some (Mat.UpdateMaterialCBs mats cb) <->
             Mat.dirty_fit mats (length cb).
Proof.
  unfold Mat.dirty_fit.
  induction mats as [|[name mat] mats IH]; intros cb; simpl.
  - split; [constructor|by eexists].
  - rewrite Forall_cons. simpl.
    destruct (Z.ltb_spec 0 (Mat.NumFramesDirty mat)) as [Hd|Hc].
    + destruct (CopyData (Mat.MatCBIndex mat) (Mat.material_constants mat) cb)
        as [cb1|] eqn:Hcp; simpl.
      * pose proof (proj1 (CopyData_is_Some _ _ _) (mk_is_Some _ _ Hcp)) as Hin.
        apply CopyData_Some in Hcp as (_ & _ & ->).
        specialize (IH (<[Z.to_nat (Mat.MatCBIndex mat):=Mat.material_constants mat]> cb)).
        rewrite length_insert in IH. rewrite <- IH.
        destruct (Mat.UpdateMaterialCBs mats _) as [[r c]|]; simpl.
        -- split; [intros _; split; [done|by eexists]|by eexists].
        -- split; [by intros []|by intros (_ & [])].
      * split; [by intros []|]. intros (Hin & _).
        apply Hin in Hd.
        apply (CopyData_is_Some _ (Mat.material_constants mat)) in Hd.
        rewrite Hcp in Hd. by destruct Hd.
    + rewrite <- (IH cb).
      destruct (Mat.UpdateMaterialCBs mats cb) as [[r c]|]; simpl.
      * split; [intros _; split; [lia|by eexists]|by eexists].
      * split; [by intros []|by intros (_ & [])].
Qed.

(** The materials live in a [std::unordered_map], whose iteration order is
    unspecified.  With pairwise different [MatCBIndex] the result of
    [UpdateMaterialCBs] does not depend on that order: whether it stays in
    bounds, the constant buffer it leaves, and the materials it leaves are
    the same for any two orders of the same entries. *)
Theorem material_cbs_independent_of_iteration_order
    (mats1 mats2 : list (string * Mat.Material F)) cb m1 cb1 :
  mats1 ≡ₚ mats2 ->
  Mat.distinct_indices mats1 ->
  Mat.UpdateMaterialCBs mats1 cb = Some (m1, cb1) ->
  exists m2, Mat.UpdateMaterialCBs mats2 cb = Some (m2, cb1) /\ m1 ≡ₚ m2.
Proof.
  intros Hperm Hnd1 Hu1.
  assert (Mat.distinct_indices mats2) as Hnd2.
  { unfold Mat.distinct_indices in *. by rewrite <- Hperm. }
  assert (is_Some (Mat.UpdateMaterialCBs mats2 cb)) as ([m2 cb2] & Hu2).
  { apply UpdateMaterialCBs_is_Some. unfold Mat.dirty_fit. rewrite <- Hperm.
    apply UpdateMaterialCBs_is_Some. by eexists. }
  destruct (UpdateMaterialCBs_spec _ _ _ _ Hu1) as (-> & Hlen1 & Hkeep1 & Hwr1).
  destruct (UpdateMaterialCBs_spec _ _ _ _ Hu2) as (-> & Hlen2 & Hkeep2 & Hwr2).
  exists (Mat.after_pass <$> mats2). split; [|by rewrite Hperm].
  rewrite Hu2. do 2 f_equal. apply list_eq. intros p.
  destruct (decide (Exists (fun e : string * Mat.Material F =>
              0 < Mat.NumFramesDirty e.2 /\ Mat.MatCBIndex e.2 = Z.of_nat p) mats1))
    as [Hex|Hnone].
  - apply Exists_exists in Hex as (e & He & Hd & Hidx).
    specialize (Hwr1 Hnd1 e He Hd).
    rewrite Hperm in He. specialize (Hwr2 Hnd2 e He Hd).
    rewrite Hidx, Nat2Z.id in Hwr1, Hwr2. by rewrite Hwr1, Hwr2.
  - assert (forall e, e ∈ mats1 -> 0 < Mat.NumFramesDirty e.2 ->
              Mat.MatCBIndex e.2 <> Z.of_nat p) as Hclean.
    { intros e He Hd Hidx. apply Hnone, Exists_exists. by exists e. }
    specialize (Hkeep1 (Z.of_nat p) ltac:(lia) Hclean).
    specialize (Hkeep2 (Z.of_nat p) ltac:(lia)).
    rewrite Nat2Z.id in Hkeep1, Hkeep2. rewrite Hkeep1, Hkeep2; [done|].
    intros e He. apply Hclean. by rewrite Hperm.
Qed.
End MaterialFacts.

Section WaterMaterial.
Context {F : Type} `{FloatOps F}.


End WaterMaterial.

Section WaterScroll.
Variables q_sqrt q_sin q_cos : Q -> Q.

End WaterScroll.

(** ** Disturbances keep pace with the timer *)

Section DisturbGateOnly.
Context {F W : Type} `{FloatOps F} `{WavesOps F W}.
Variable crand : nat -> Z.


End DisturbGateOnly.

Section DisturbPace.
Variables q_sqrt q_sin q_cos : Q -> Q.
Context {W : Type} {wops : WavesOps Q W}.
Variable crand : nat -> Z.

End DisturbPace.

(** * The further properties on the concrete scene *)

Ltac demo_initial :=
  split; [vm_compute; reflexivity|]; split; [vm_compute; reflexivity|];
  split; [vm_compute; split; congruence|];
  split; [vm_compute; congruence|vm_compute; reflexivity].

(** With all three frame resources in flight and nothing completed, the
    wait of the fourth [Update] returns. *)
Lemma update_wait_returns_witness :
  ring_initial (demo_app 1) /\
  demo_run TreeBillboards demo_frames (demo_app 1)
    = Some (demo_in_flight TreeBillboards) /\
  mCurrentFence (demo_app 1) + draws demo_frames < UINT64_MOD /\
  is_Some (cycle_and_wait (demo_in_flight TreeBillboards)).
Proof.
  assert (ring_initial (demo_app 1)) as Hinit by demo_initial.
  assert (demo_run TreeBillboards demo_frames (demo_app 1)
            = Some (demo_in_flight TreeBillboards)) as Hr
    by (vm_compute; reflexivity).
  assert (mCurrentFence (demo_app 1) + draws demo_frames < UINT64_MOD) as Hnw
    by (vm_compute; reflexivity).
  split; [exact Hinit|]. split; [exact Hr|]. split; [exact Hnw|].
  exact (update_wait_returns_along_runs demo_rand TreeBillboards demo_frames
           (demo_app 1) (demo_in_flight TreeBillboards) Hinit Hr Hnw).
Defined.

Lemma update_writes_idle_witness :
  ring_initial (demo_app 1) /\
  demo_run TreeBillboards demo_frames (demo_app 1)
    = Some (demo_in_flight TreeBillboards) /\
  mCurrentFence (demo_app 1) + draws demo_frames < UINT64_MOD /\
  exists s',
    demo_Update TreeBillboards (demo_timer 1) (demo_in_flight TreeBillboards)
      = Some (true, s') /\
    (forall j, j <> Z.to_nat (next_index (demo_in_flight TreeBillboards)) ->
       mFrameResources s' !! j
       = mFrameResources (demo_in_flight TreeBillboards) !! j) /\
    exists fr,
      mFrameResources (demo_in_flight TreeBillboards)
        !! Z.to_nat (next_index (demo_in_flight TreeBillboards)) = Some fr /\
      (Fence fr = 0 \/
       (Fence fr <= GetCompletedValue (mFence s') /\
        Fence fr ∉ pending (mFence s'))).
Proof.
  assert (ring_initial (demo_app 1)) as Hinit by demo_initial.
  assert (demo_run TreeBillboards demo_frames (demo_app 1)
            = Some (demo_in_flight TreeBillboards)) as Hr
    by (vm_compute; reflexivity).
  assert (mCurrentFence (demo_app 1) + draws demo_frames < UINT64_MOD) as Hnw
    by (vm_compute; reflexivity).
  assert (exists s',
            demo_Update TreeBillboards (demo_timer 1) (demo_in_flight TreeBillboards)
            = Some (true, s')) as [s' Hu]
    by (vm_compute; eexists; reflexivity).
  split; [exact Hinit|]. split; [exact Hr|]. split; [exact Hnw|].
  exists s'. split; [exact Hu|].
  exact (update_writes_only_idle_frame_resource demo_rand TreeBillboards
           demo_frames (demo_timer 1) (demo_app 1)
           (demo_in_flight TreeBillboards) s' true Hinit Hr Hnw Hu).
Defined.


(** After three frames during which the GPU completes nothing, exactly
    three signals are queued. *)
Lemma frames_in_flight_witness :
  ring_initial (demo_app 1) /\
  0 <= GetCompletedValue (mFence (demo_app 1)) /\
  draws_follow_updates false demo_frames = true /\
  mCurrentFence (demo_app 1) + draws demo_frames < UINT64_MOD /\
  demo_run TreeBillboards demo_frames (demo_app 1)
    = Some (demo_in_flight TreeBillboards) /\
  signals_owned (demo_in_flight TreeBillboards) /\
  (length (pending (mFence (demo_in_flight TreeBillboards))) <= 3)%nat.
Proof.
  assert (ring_initial (demo_app 1)) as Hinit by demo_initial.
  assert (0 <= GetCompletedValue (mFence (demo_app 1))) as H0c
    by (vm_compute; congruence).
  assert (draws_follow_updates false demo_frames = true) as Hord
    by (vm_compute; reflexivity).
  assert (mCurrentFence (demo_app 1) + draws demo_frames < UINT64_MOD) as Hnw
    by (vm_compute; reflexivity).
  assert (demo_run TreeBillboards demo_frames (demo_app 1)
            = Some (demo_in_flight TreeBillboards)) as Hr
    by (vm_compute; reflexivity).
  destruct (at_most_three_frames_in_flight demo_rand TreeBillboards demo_frames
              (demo_app 1) (demo_in_flight TreeBillboards) Hinit H0c Hord Hnw Hr)
    as (Hown & Hlen & _).
  split; [exact Hinit|]. split; [exact H0c|]. split; [exact Hord|].
  split; [exact Hnw|]. split; [exact Hr|]. split; [exact Hown|exact Hlen].
Defined.

Lemma object_cb_bounds_witness :
  exists fr,
    mCurrFrameResource (demo_u1 TreeBillboards) = Some 1%nat /\
    mFrameResources (demo_u1 TreeBillboards) !! 1%nat = Some fr /\
    (is_Some (UpdateObjectCBs (demo_u1 TreeBillboards)) <->
     dirty_slots_fit (mAllRitems (demo_u1 TreeBillboards)) (length (ObjectCB fr))).
Proof.
  assert (mCurrFrameResource (demo_u1 TreeBillboards) = Some 1%nat) as Hcur
    by (vm_compute; reflexivity).
  assert (exists fr, mFrameResources (demo_u1 TreeBillboards) !! 1%nat = Some fr)
    as [fr Hfr] by (vm_compute; eexists; reflexivity).
  exists fr. split; [exact Hcur|]. split; [exact Hfr|].
  exact (object_cb_pass_in_bounds_iff (demo_u1 TreeBillboards) 1%nat fr Hcur Hfr).
Defined.

(** After three [Update] calls the two render items are clean, and a
    further pass changes nothing. *)
Lemma object_cb_clean_witness :
  Forall (fun e => NumFramesDirty e <= 0) (mAllRitems (demo_u3 TreeBillboards)) /\
  mCurrFrameResource (demo_u3 TreeBillboards) = Some 0%nat /\
  is_Some (mFrameResources (demo_u3 TreeBillboards) !! 0%nat) /\
  UpdateObjectCBs (demo_u3 TreeBillboards) = Some (demo_u3 TreeBillboards).
Proof.
  assert (Forall (fun e : RenderItem Q => NumFramesDirty e <= 0)
            (mAllRitems (demo_u3 TreeBillboards))) as Hclean
    by (apply (bool_decide_unpack _); vm_compute; exact I).
  assert (mCurrFrameResource (demo_u3 TreeBillboards) = Some 0%nat) as Hcur
    by (vm_compute; reflexivity).
  assert (is_Some (mFrameResources (demo_u3 TreeBillboards) !! 0%nat)) as Hfr
    by (vm_compute; eexists; reflexivity).
  split; [exact Hclean|]. split; [exact Hcur|]. split; [exact Hfr|].
  exact (object_cb_pass_clean_is_noop (demo_u3 TreeBillboards) 0%nat
           Hclean Hcur Hfr).
Defined.



Lemma land_normals_witness :
  Forall (fun g => hills_sin_finite f32_series_sin (x3 (Position g)) = true /\
                   hills_sin_finite f32_series_sin (z3 (Position g)) = true)
         demo_grid32 /\
  Forall (fun v => normal_is_up (Normal v))
         (@BuildLandGeometry spec_float (ieee32 f32_series_sin f32_series_cos)
            demo_grid32).
Proof.
  assert (Forall (fun g => hills_sin_finite f32_series_sin (x3 (Position g)) = true /\
                           hills_sin_finite f32_series_sin (z3 (Position g)) = true)
            demo_grid32) as Hfin
    by (repeat constructor; vm_compute; reflexivity).
  split; [exact Hfin|].
  exact (proj2 (land_normals_all_up f32_series_sin f32_series_cos demo_grid32 Hfin)).
Defined.

Lemma shape_geometry_witness :
  size (concat (Vertices <$>
          [demo_box_mesh; demo_grid_mesh; demo_box_mesh; demo_grid_mesh;
           demo_box_mesh; demo_grid_mesh; demo_box_mesh; demo_grid_mesh;
           demo_box_mesh])) < UINT_MOD /\
  exists geo,
    @BuildShapeGeometry Q exactQ_series demo_GetIndices16
      demo_box_mesh demo_grid_mesh demo_box_mesh demo_grid_mesh
      demo_box_mesh demo_grid_mesh demo_box_mesh demo_grid_mesh demo_box_mesh
      = Some geo /\
    length (VertexBufferCPU geo) = 13%nat /\
    length (IndexBufferCPU geo) = 39%nat.
Proof.
  assert (size (concat (Vertices <$>
            [demo_box_mesh; demo_grid_mesh; demo_box_mesh; demo_grid_mesh;
             demo_box_mesh; demo_grid_mesh; demo_box_mesh; demo_grid_mesh;
             demo_box_mesh])) < UINT_MOD) as Hlt by (vm_compute; reflexivity).
  split; [exact Hlt|].
  destruct (@shape_geometry_packed Q exactQ_series demo_GetIndices16
              demo_box_mesh demo_grid_mesh demo_box_mesh demo_grid_mesh
              demo_box_mesh demo_grid_mesh demo_box_mesh demo_grid_mesh
              demo_box_mesh Hlt) as (geo & Hgeo & Hv & Hi).
  exists geo. split; [exact Hgeo|]. split.
  - rewrite Hv. vm_compute. reflexivity.
  - rewrite Hi. vm_compute. reflexivity.
Defined.

Lemma shape_draw_args_witness :
  exists geo,
    @BuildShapeGeometry Q exactQ_series demo_GetIndices16
      demo_box_mesh demo_grid_mesh demo_box_mesh demo_grid_mesh
      demo_box_mesh demo_grid_mesh demo_box_mesh demo_grid_mesh demo_box_mesh
      = Some geo /\
    exists sm,
      DrawArgs geo !! "cylinder" = Some sm /\
      IndexCount sm = size (Indices32 demo_grid_mesh) /\
      0 <= StartIndexLocation sm /\
      0 <= BaseVertexLocation sm /\
      take (length (demo_GetIndices16 demo_grid_mesh))
           (drop (Z.to_nat (StartIndexLocation sm)) (IndexBufferCPU geo))
        = demo_GetIndices16 demo_grid_mesh /\
      take (length (Vertices demo_grid_mesh))
           (drop (Z.to_nat (BaseVertexLocation sm)) (VertexBufferCPU geo))
        = @shape_vertex Q exactQ_series <$> Vertices demo_grid_mesh.
Proof.
  assert (size (concat (Vertices <$>
            [demo_box_mesh; demo_grid_mesh; demo_box_mesh; demo_grid_mesh;
             demo_box_mesh; demo_grid_mesh; demo_box_mesh; demo_grid_mesh;
             demo_box_mesh])) < 2 ^ 31) as Hv by (vm_compute; reflexivity).
  assert (size (concat (Indices32 <$>
            [demo_box_mesh; demo_grid_mesh; demo_box_mesh; demo_grid_mesh;
             demo_box_mesh; demo_grid_mesh; demo_box_mesh; demo_grid_mesh;
             demo_box_mesh])) < 2 ^ 31) as Hi by (vm_compute; reflexivity).
  assert (Forall (fun m => length (demo_GetIndices16 m) = length (Indices32 m))
            [demo_box_mesh; demo_grid_mesh; demo_box_mesh; demo_grid_mesh;
             demo_box_mesh; demo_grid_mesh; demo_box_mesh; demo_grid_mesh;
             demo_box_mesh]) as Hg by (repeat constructor).
  destruct (@shape_draw_args_locate_meshes Q exactQ_series demo_GetIndices16
              demo_box_mesh demo_grid_mesh demo_box_mesh demo_grid_mesh
              demo_box_mesh demo_grid_mesh demo_box_mesh demo_grid_mesh
              demo_box_mesh Hv Hi Hg) as (geo & Hgeo & Hall).
  exists geo. split; [exact Hgeo|].
  apply (Hall "cylinder" demo_grid_mesh).
  unfold shape_table. do 3 right. left.
Defined.

Lemma material_order_witness :
  demo_materials ≡ₚ reverse demo_materials /\
  Mat.distinct_indices demo_materials /\
  exists m1 cb1,
    Mat.UpdateMaterialCBs demo_materials demo_material_cb = Some (m1, cb1) /\
    exists m2,
      Mat.UpdateMaterialCBs (reverse demo_materials) demo_material_cb
        = Some (m2, cb1) /\
      m1 ≡ₚ m2.
Proof.
  assert (demo_materials ≡ₚ reverse demo_materials) as Hperm
    by apply perm_swap.
  assert (Mat.distinct_indices demo_materials) as Hnd
    by (apply (bool_decide_unpack _); vm_compute; exact I).
  assert (exists m1 cb1,
            Mat.UpdateMaterialCBs demo_materials demo_material_cb = Some (m1, cb1))
    as (m1 & cb1 & Hu) by (vm_compute; eexists _, _; reflexivity).
  split; [exact Hperm|]. split; [exact Hnd|]. exists m1, cb1. split; [exact Hu|].
  exact (material_cbs_independent_of_iteration_order demo_materials
           (reverse demo_materials) demo_material_cb m1 cb1 Hperm Hnd Hu).
Defined.




(** ** The tree sprites *)

Section TreeSpriteFacts.
Context {F : Type} `{FloatOps F}.
Variable fneg : F -> F.

Lemma hills_height_mirror_z (x z : F) :
  TreeSprite.negation_laws fneg ->
  GetHillsHeight x (fneg z) = GetHillsHeight x z.
Proof.
  intros (Hd & Hm & Hc). unfold GetHillsHeight. by rewrite Hd, Hm, Hc.
Qed.

Lemma hills_height_mirror_x (x z : F) :
  TreeSprite.negation_laws fneg ->
  GetHillsHeight (fneg x) z = GetHillsHeight x z.
Proof.
  intros (Hd & Hm & Hc). unfold GetHillsHeight. by rewrite Hd, Hm, Hc.
Qed.

(** [BuildTreeSpritesGeometry] fills all 40 elements of its vertex array,
    twice [treeCount], without leaving the array: its loops advance by two
    and write a sprite and its mirror image per iteration.  Every sprite
    has size 10 x 10, and - since the terrain height is even in each
    coordinate - stands four units above the terrain at its own position,
    the mirrored ones included.  The first sprite of the second loop is
    the first sprite of the first loop again. *)
Theorem tree_sprites_planted :
  TreeSprite.negation_laws fneg ->
  exists vertices,
    TreeSprite.BuildTreeSpritesGeometry fneg = Some vertices /\
    length vertices = 40%nat /\
    (forall p, (p < 40)%nat ->
       exists v, vertices !! p = Some (Some v) /\ TreeSprite.planted v) /\
    vertices !! 0%nat = vertices !! 20%nat.
Proof.
  intros Hlaws.
  pose proof (fun x z => hills_height_mirror_z x z Hlaws) as Hz.
  pose proof (fun x z => hills_height_mirror_x x z Hlaws) as Hx.
  eexists. split; [vm_compute; reflexivity|]. split; [reflexivity|]. split.
  - intros p Hp.
    do 40 (destruct p as [|p];
           [eexists; split; [reflexivity|]; split; [|reflexivity];
            cbn [TreeSprite.Pos x3 y3 z3]; rewrite ?Hz, ?Hx; reflexivity|]).
    lia.
  - reflexivity.
Qed.
End TreeSpriteFacts.

(** Binary32 multiplication and division commute with the change of
    sign. *)
Lemma f32_round_opp (s : bool) (m e : Z) (l : location) :
  binary_round_aux prec32 emax32 (negb s) m e l
  = SFopp (binary_round_aux prec32 emax32 s m e l).
Proof.
  unfold binary_round_aux.
  destruct (shr_fexp prec32 emax32 m e l) as [mrs e'].
  destruct (shr_fexp prec32 emax32 _ e' loc_Exact) as [mrs2 e2].
  destruct (shr_m mrs2); simpl; try reflexivity.
  destruct (e2 <=? emax32 - prec32); reflexivity.
Qed.

Lemma f32_mul_opp_l (a b : spec_float) :
  SFmul prec32 emax32 (SFopp a) b = SFopp (SFmul prec32 emax32 a b).
Proof.
  destruct a as [sa|sa| |sa ma ea], b as [sb|sb| |sb mb eb]; simpl;
    try reflexivity; try (destruct sa, sb; reflexivity).
  rewrite <- f32_round_opp. f_equal. destruct sa, sb; reflexivity.
Qed.

Lemma f32_mul_opp_r (a b : spec_float) :
  SFmul prec32 emax32 a (SFopp b) = SFopp (SFmul prec32 emax32 a b).
Proof.
  destruct a as [sa|sa| |sa ma ea], b as [sb|sb| |sb mb eb]; simpl;
    try reflexivity; try (destruct sa, sb; reflexivity).
  rewrite <- f32_round_opp. f_equal. destruct sa, sb; reflexivity.
Qed.

Lemma f32_div_opp_l (a b : spec_float) :
  SFdiv prec32 emax32 (SFopp a) b = SFopp (SFdiv prec32 emax32 a b).
Proof.
  destruct a as [sa|sa| |sa ma ea], b as [sb|sb| |sb mb eb]; simpl;
    try reflexivity; try (destruct sa, sb; reflexivity).
  destruct (SFdiv_core_binary prec32 emax32 (Z.pos ma) ea (Z.pos mb) eb)
    as [[mz ez] lz].
  rewrite <- f32_round_opp. f_equal. destruct sa, sb; reflexivity.
Qed.

Lemma f32_opp_involutive (a : spec_float) : SFopp (SFopp a) = a.
Proof. destruct a as [s|s| |s m e]; simpl; try reflexivity; by destruct s. Qed.

(** In binary32, with the series for [cosf]. *)
Lemma tree_sprites_witness :
  @TreeSprite.negation_laws spec_float
     (ieee32 f32_series_sin f32_series_cos) SFopp /\
  exists vertices,
    @TreeSprite.BuildTreeSpritesGeometry spec_float
       (ieee32 f32_series_sin f32_series_cos) SFopp = Some vertices /\
    length vertices = 40%nat /\
    (forall p, (p < 40)%nat ->
       exists v, vertices !! p = Some (Some v) /\
                 @TreeSprite.planted spec_float
                    (ieee32 f32_series_sin f32_series_cos) v).
Proof.
  assert (@TreeSprite.negation_laws spec_float
            (ieee32 f32_series_sin f32_series_cos) SFopp) as Hlaws.
  { split; [|split].
    - exact f32_div_opp_l.
    - exact f32_mul_opp_l.
    - intros a. cbn [cosf ieee32]. unfold f32_series_cos.
      rewrite f32_mul_opp_l, f32_mul_opp_r, f32_opp_involutive. reflexivity. }
  split; [exact Hlaws|].
  destruct (@tree_sprites_planted spec_float
              (ieee32 f32_series_sin f32_series_cos) SFopp Hlaws)
    as (vertices & Hb & Hlen & Hall & _).
  exists vertices. split; [exact Hb|]. split; [exact Hlen|exact Hall].
Defined.
